(** * RippleOscilloscope: spectral analysis and render-parameter pipeline

    A shallow embedding of the host-side JavaScript
    ([web/js/main.js], the stand-alone [AudioAnalyzer] module) and of the
    wave dispatch of the two WGSL shaders ([shaders/wave.wgsl] and the
    inline shader returned by [getInlineShader]).

    Number model.  JavaScript numbers are IEEE-754 doubles.  They are
    embedded as the reals extended with the three special values the code
    can produce ([+Infinity], [-Infinity], [NaN]); arithmetic on finite
    values is exact (rounding and overflow are not modelled, and the two
    zeros are identified: every divisor in the code is an array length or
    a positive literal).  Array indices and lengths are natural numbers.

    The uniforms reach the shaders through a [Float32Array], and the
    shaders compute in [f32]; neither rounding is modelled.  What is
    stated of the host is stated of the numbers it computes before that
    conversion, and what is stated of the shaders holds in exact
    arithmetic; where a rounding could change a branch, the statement
    keeps the margin that rules it out. *)

From Stdlib Require Import Reals Lra Lia List Arith ZArith Bool.
Import ListNotations.

Open Scope R_scope.

(** ** JavaScript numbers *)

Module JS.

Inductive num : Type :=
| Fin (r : R)
| PInf
| NInf
| NaN.

Definition of_nat (n : nat) : num := Fin (INR n).
Definition of_Z (z : Z) : num := Fin (IZR z).

(** [x + y] *)
Definition add (x y : num) : num :=
  match x, y with
  | NaN, _ | _, NaN => NaN
  | PInf, NInf | NInf, PInf => NaN
  | PInf, _ | _, PInf => PInf
  | NInf, _ | _, NInf => NInf
  | Fin a, Fin b => Fin (a + b)
  end.

(** Sign of a finite value, as a three-way test. *)
Inductive sign3 := Neg | Zero | Pos.

Definition sign_of (a : R) : sign3 :=
  if Rlt_dec a 0 then Neg else if Rlt_dec 0 a then Pos else Zero.

(** [x * y] *)
Definition mul (x y : num) : num :=
  match x, y with
  | NaN, _ | _, NaN => NaN
  | Fin a, Fin b => Fin (a * b)
  | PInf, PInf | NInf, NInf => PInf
  | PInf, NInf | NInf, PInf => NInf
  | PInf, Fin a | Fin a, PInf =>
      match sign_of a with Pos => PInf | Neg => NInf | Zero => NaN end
  | NInf, Fin a | Fin a, NInf =>
      match sign_of a with Pos => NInf | Neg => PInf | Zero => NaN end
  end.

(** [x / y]; a finite zero divisor is the positive zero. *)
Definition div (x y : num) : num :=
  match x, y with
  | NaN, _ | _, NaN => NaN
  | Fin a, Fin b =>
      match sign_of b with
      | Zero => match sign_of a with Pos => PInf | Neg => NInf | Zero => NaN end
      | _ => Fin (a / b)
      end
  | Fin _, (PInf | NInf) => Fin 0
  | (PInf | NInf), (PInf | NInf) => NaN
  | PInf, Fin b => match sign_of b with Neg => NInf | _ => PInf end
  | NInf, Fin b => match sign_of b with Neg => PInf | _ => NInf end
  end.

(** [Math.min(x, y)] and [Math.max(x, y)]: [NaN] if either argument is. *)
Definition Math_min (x y : num) : num :=
  match x, y with
  | NaN, _ | _, NaN => NaN
  | NInf, _ | _, NInf => NInf
  | PInf, z | z, PInf => z
  | Fin a, Fin b => Fin (Rmin a b)
  end.

Definition Math_max (x y : num) : num :=
  match x, y with
  | NaN, _ | _, NaN => NaN
  | PInf, _ | _, PInf => PInf
  | NInf, z | z, NInf => z
  | Fin a, Fin b => Fin (Rmax a b)
  end.

(** Whether a real is an integer, and whether it is an odd one. *)
Definition is_integer (y : R) : bool :=
  if Req_dec_T (IZR (Int_part y)) y then true else false.

Definition is_odd_integer (y : R) : bool :=
  is_integer y && Z.odd (Int_part y).

(** [Math.pow(x, y)], following the case list of Number::exponentiate.
    The finite, non-integral case is the real power; a negative base is
    only raised to integers. *)
Definition Math_pow (x y : num) : num :=
  match y with
  | NaN => NaN
  | PInf =>
      match x with
      | NaN => NaN
      | PInf | NInf => PInf
      | Fin a =>
          if Rlt_dec 1 (Rabs a) then PInf
          else if Rlt_dec (Rabs a) 1 then Fin 0 else NaN
      end
  | NInf =>
      match x with
      | NaN => NaN
      | PInf | NInf => Fin 0
      | Fin a =>
          if Rlt_dec 1 (Rabs a) then Fin 0
          else if Rlt_dec (Rabs a) 1 then PInf else NaN
      end
  | Fin e =>
      match sign_of e with
      | Zero => Fin 1
      | se =>
          match x with
          | NaN => NaN
          | PInf => match se with Pos => PInf | _ => Fin 0 end
          | NInf =>
              match se with
              | Pos => if is_odd_integer e then NInf else PInf
              | _ => Fin 0
              end
          | Fin a =>
              match sign_of a with
              | Zero => match se with Pos => Fin 0 | _ => PInf end
              | Pos => Fin (Rpower a e)
              | Neg =>
                  if is_integer e then Fin (powerRZ a (Int_part e)) else NaN
              end
          end
      end
  end.

(** ToBoolean on a number: [NaN] and zero are falsy. *)
Definition truthy (x : num) : bool :=
  match x with
  | NaN => false
  | Fin a => match sign_of a with Zero => false | _ => true end
  | _ => true
  end.

(** [x || y] on numbers. *)
Definition or_else (x y : num) : num := if truthy x then x else y.

End JS.

Import JS.

Declare Scope js_scope.
Delimit Scope js_scope with js.
Bind Scope js_scope with num.
Infix "+" := JS.add : js_scope.
Infix "*" := JS.mul : js_scope.
Infix "/" := JS.div : js_scope.
Coercion Fin : R >-> num.

(** ** Outcome of a method call *)

(** A call either returns a value or throws (the only exception the
    analyzer methods can raise is the [TypeError] of reading a property
    of [null]). *)
Inductive completion (A : Type) : Type :=
| Return (v : A)
| Throw.
Arguments Return {A} v.
Arguments Throw {A}.

(** ** The analyzer object *)

(** The Web Audio analyser node, reduced to what the methods read: its
    configuration and the decibel spectrum it would report now. *)
Record AnalyserNode : Type := mkAnalyserNode {
  fftSize : nat;
  smoothingTimeConstant : R;
  minDecibels : R;
  maxDecibels : R;
  spectrum : list num
}.

(** [analyser.getFloatFrequencyData(array)]: overwrites [array] in place
    with the current spectrum; surplus spectrum entries are dropped and
    surplus array entries are left as they are. *)
Definition getFloatFrequencyData (node : AnalyserNode) (array : list num)
  : list num :=
  firstn (length array) (spectrum node)
  ++ skipn (length (spectrum node)) array.

Record AudioAnalyzer : Type := mkAudioAnalyzer {
  analyser : option AnalyserNode;
  isActive : bool;
  frequencyData : option (list num)
}.

Definition set_frequencyData (this : AudioAnalyzer) (d : option (list num))
  : AudioAnalyzer :=
  {| analyser := analyser this; isActive := isActive this; frequencyData := d |}.

(** The object right after [new AudioAnalyzer()]. *)
Definition new_AudioAnalyzer : AudioAnalyzer :=
  {| analyser := None; isActive := false; frequencyData := None |}.

(** [disableMicrophone()], as far as the analysis state goes. *)
Definition disableMicrophone (this : AudioAnalyzer) : AudioAnalyzer :=
  {| analyser := analyser this; isActive := false;
     frequencyData := frequencyData this |}.

(** [getFrequencyData()]: polls the node when there is one and capture is
    active, then returns the (possibly [null]) buffer. *)
Definition getFrequencyData (this : AudioAnalyzer)
  : completion (option (list num)) * AudioAnalyzer :=
  match analyser this, isActive this with
  | Some node, true =>
      match frequencyData this with
      | Some array =>
          let array' := getFloatFrequencyData node array in
          (Return (Some array'), set_frequencyData this (Some array'))
      | None => (Throw, this)
      end
  | _, _ => (Return (frequencyData this), this)
  end.

(** ** Loop bodies shared by the two copies of the class *)

Definition clamp01 (x : num) : num := Math_max (Fin 0) (Math_min (Fin 1) x).

(** [Math.max(0, Math.min(1, (x + 100) / 100))] *)
Definition normalized100 (x : num) : num :=
  clamp01 ((x + Fin 100) / Fin 100)%js.

(** [Math.max(0, Math.min(1, (x + 90) / 60))] *)
Definition normalized90 (x : num) : num :=
  clamp01 ((x + Fin 90) / Fin 60)%js.

(** [data[j]] followed by arithmetic: reading past the end gives
    [undefined], which the following [+] turns into [NaN]. *)
Definition at_index (data : list num) (j : nat) : num := nth j data NaN.

(** [Math.floor(data.length / numBands)].  For [numBands = 0] JavaScript
    gives [Infinity] (or [NaN] on an empty buffer); the band loop then
    has no iteration, so the value is never used. *)
Definition samplesPerBand (len numBands : nat) : nat := (len / numBands)%nat.

Definition bandStart (spb i : nat) : nat := (i * spb)%nat.

Definition bandEnd (len spb i : nat) : nat := Nat.min ((i + 1) * spb) len.

(** The values [j] takes in [for (let j = start; j < end; j++)]; there
    are none when [end <= start]. *)
Definition bandIndices (len spb i : nat) : list nat :=
  seq (bandStart spb i) (bandEnd len spb i - bandStart spb i).

(** [end - start], the divisor of band [i]. *)
Definition bandDivisor (len spb i : nat) : Z :=
  (Z.of_nat (bandEnd len spb i) - Z.of_nat (bandStart spb i))%Z.

Definition bandValue (data : list num) (spb i : nat) : num :=
  let sum :=
    fold_left (fun sum j => (sum + normalized100 (at_index data j))%js)
              (bandIndices (length data) spb i) (Fin 0) in
  (sum / of_Z (bandDivisor (length data) spb i))%js.

(** The active branch of [getFrequencyBands] on the polled buffer. *)
Definition bandsOf (data : list num) (numBands : nat) : list num :=
  let spb := samplesPerBand (length data) numBands in
  map (bandValue data spb) (seq 0 numBands).

(** [new Array(numBands).fill(0.1)] *)
Definition idleBands (numBands : nat) : list num := repeat (Fin 0.1) numBands.

(** [data.slice(from, to)] for [0 <= from] and [0 <= to]. *)
Definition slice (data : list num) (from to : nat) : list num :=
  firstn (to - from) (skipn from data).

(** ** The stand-alone analyzer module *)

Module Audio.

(** [getAmplitude()]: clamp-and-average with a final [Math.min(1, _)]. *)
Definition amplitudeOf (data : list num) : num :=
  let sum :=
    fold_left (fun sum x => (sum + normalized100 x)%js) data (Fin 0) in
  Math_min (Fin 1) (sum / of_nat (length data))%js.

Definition getAmplitude (this : AudioAnalyzer)
  : completion num * AudioAnalyzer :=
  if negb (isActive this) then (Return (Fin 0), this)
  else
    match getFrequencyData this with
    | (Return (Some data), this') => (Return (amplitudeOf data), this')
    | (Return None, this') => (Throw, this')
    | (Throw, this') => (Throw, this')
    end.

Definition getFrequencyBands (this : AudioAnalyzer) (numBands : nat)
  : completion (list num) * AudioAnalyzer :=
  if negb (isActive this) then (Return (idleBands numBands), this)
  else
    match getFrequencyData this with
    | (Return (Some data), this') => (Return (bandsOf data numBands), this')
    | (Return None, this') => (Throw, this')
    | (Throw, this') => (Throw, this')
    end.

Record Ranges : Type := mkRanges { bass : num; mid : num; treble : num }.

(** The local arrow function [normalize] of [getFrequencyRanges]. *)
Definition normalize (arr : list num) : num :=
  let sum :=
    fold_left (fun sum val => (sum + normalized100 val)%js) arr (Fin 0) in
  (sum / of_nat (length arr))%js.

Definition rangesOf (data : list num) : Ranges :=
  let third := (length data / 3)%nat in
  {| bass := normalize (slice data 0 third);
     mid := normalize (slice data third (third * 2));
     treble := normalize (skipn (third * 2) data) |}.

Definition getFrequencyRanges (this : AudioAnalyzer)
  : completion Ranges * AudioAnalyzer :=
  if negb (isActive this)
  then (Return {| bass := Fin 0; mid := Fin 0; treble := Fin 0 |}, this)
  else
    match getFrequencyData this with
    | (Return (Some data), this') => (Return (rangesOf data), this')
    | (Return None, this') => (Throw, this')
    | (Throw, this') => (Throw, this')
    end.

End Audio.

(** ** The copy of the class merged into main.js *)

Module Main.

(** [getAmplitude()]: floor -90 dB, range 60 dB, then the perceptual
    boost [Math.pow(avg, 0.8) * 1.5]. *)
Definition amplitudeOf (data : list num) : num :=
  let sum :=
    fold_left (fun sum x => (sum + normalized90 x)%js) data (Fin 0) in
  let avg := (sum / of_nat (length data))%js in
  (Math_pow avg (Fin 0.8) * Fin 1.5)%js.

Definition getAmplitude (this : AudioAnalyzer)
  : completion num * AudioAnalyzer :=
  if negb (isActive this) then (Return (Fin 0), this)
  else
    match getFrequencyData this with
    | (Return (Some data), this') => (Return (amplitudeOf data), this')
    | (Return None, this') => (Throw, this')
    | (Throw, this') => (Throw, this')
    end.

Definition getFrequencyBands (this : AudioAnalyzer) (numBands : nat)
  : completion (list num) * AudioAnalyzer :=
  if negb (isActive this) then (Return (idleBands numBands), this)
  else
    match getFrequencyData this with
    | (Return (Some data), this') => (Return (bandsOf data numBands), this')
    | (Return None, this') => (Throw, this')
    | (Throw, this') => (Throw, this')
    end.

End Main.

(** ** Render parameters and the per-frame uniform upload (main.js) *)

Record RenderParams : Type := mkRenderParams {
  amplitude : num;
  frequency : num;
  speed : num;
  hue : num;
  mode : num
}.

(** [params] as initialised in [initWebGPUFallback]. *)
Definition initialParams : RenderParams :=
  {| amplitude := Fin 1; frequency := Fin 3; speed := Fin 1;
     hue := Fin 180; mode := Fin 0 |}.

Definition setMode (m : num) (p : RenderParams) : RenderParams :=
  {| amplitude := amplitude p; frequency := frequency p; speed := speed p;
     hue := hue p; mode := m |}.

Definition setAmplitude (val : num) (p : RenderParams) : RenderParams :=
  {| amplitude := val; frequency := frequency p; speed := speed p;
     hue := hue p; mode := mode p |}.

Definition setFrequency (val : num) (p : RenderParams) : RenderParams :=
  {| amplitude := amplitude p; frequency := val; speed := speed p;
     hue := hue p; mode := mode p |}.

Definition setSpeed (val : num) (p : RenderParams) : RenderParams :=
  {| amplitude := amplitude p; frequency := frequency p; speed := val;
     hue := hue p; mode := mode p |}.

Definition setHue (val : num) (p : RenderParams) : RenderParams :=
  {| amplitude := amplitude p; frequency := frequency p; speed := speed p;
     hue := val; mode := mode p |}.

(** [this.params.amplitude * (0.5 + audioAmp * 1.5)] *)
Definition effectiveAmp (p : RenderParams) (audioAmp : num) : num :=
  (amplitude p * (Fin 0.5 + audioAmp * Fin 1.5))%js.

(** The eight numbers handed to [new Float32Array([...])] in [render]. *)
Definition uniformsOf (p : RenderParams) (width height time audioAmp : num)
  : list num :=
  [ time; effectiveAmp p audioAmp; frequency p; speed p;
    width; height; hue p; mode p ].

(** [state.audioAnalyzer?.getAmplitude() || 0] *)
Definition audioAmpOf (audioAnalyzer : option AudioAnalyzer)
  : completion num * option AudioAnalyzer :=
  match audioAnalyzer with
  | None => (Return (Fin 0), None)
  | Some a =>
      match Main.getAmplitude a with
      | (Return v, a') => (Return (or_else v (Fin 0)), Some a')
      | (Throw, a') => (Throw, Some a')
      end
  end.

(** A typed array: every element occupies [BYTES_PER_ELEMENT] bytes. *)
Definition BYTES_PER_ELEMENT : nat := 4.

Definition byteLength (a : list num) : nat :=
  (length a * BYTES_PER_ELEMENT)%nat.

(** [size] of the uniform buffer created in [initWebGPUFallback]. *)
Definition uniformBufferSize : nat := 32.

(** The numbers [render(time)] hands to [Float32Array] for
    [writeBuffer(uniformBuffer, 0, _)], together with the analyzer after
    the poll.  The conversion of each number to [f32] is not part of the
    embedding. *)
Definition render (p : RenderParams) (width height : num)
    (audioAnalyzer : option AudioAnalyzer) (time : num)
  : completion (list num) * option AudioAnalyzer :=
  match audioAmpOf audioAnalyzer with
  | (Return audioAmp, a') =>
      (Return (uniformsOf p width height time audioAmp), a')
  | (Throw, a') => (Throw, a')
  end.

(** ** Layout of WGSL uniform structures *)

Module Layout.

Inductive scalar : Type := f32 | u32.

Inductive ty : Type :=
| Scalar (s : scalar)
| Vec2 (s : scalar).

Definition SizeOf (t : ty) : nat :=
  match t with Scalar _ => 4 | Vec2 _ => 8 end.

Definition AlignOf (t : ty) : nat :=
  match t with Scalar _ => 4 | Vec2 _ => 8 end.

Definition roundUp (k n : nat) : nat := ((n + k - 1) / k * k)%nat.

(** Byte offset and scalar type of every component of the members of a
    structure, the first member being placed at or after [next]. *)
Fixpoint components (members : list ty) (next : nat)
  : list (nat * scalar) :=
  match members with
  | [] => []
  | t :: rest =>
      let off := roundUp (AlignOf t) next in
      match t with
      | Scalar s => [(off, s)]
      | Vec2 s => [(off, s); ((off + 4)%nat, s)]
      end ++ components rest (off + SizeOf t)
  end.

Fixpoint endOf (members : list ty) (next : nat) : nat :=
  match members with
  | [] => next
  | t :: rest => endOf rest (roundUp (AlignOf t) next + SizeOf t)
  end.

Definition structAlign (members : list ty) : nat :=
  fold_right (fun t a => Nat.max (AlignOf t) a) 1%nat members.

Definition structSize (members : list ty) : nat :=
  roundUp (structAlign members) (endOf members 0).

(** [struct Uniforms] of shaders/wave.wgsl:
    time, amplitude, frequency, speed, resolution, hue, mode. *)
Definition waveUniforms : list ty :=
  [ Scalar f32; Scalar f32; Scalar f32; Scalar f32; Vec2 f32;
    Scalar f32; Scalar u32 ].

(** [struct Uniforms] of the inline shader of main.js. *)
Definition inlineUniforms : list ty :=
  [ Scalar f32; Scalar f32; Scalar f32; Scalar f32; Vec2 f32;
    Scalar f32; Scalar f32 ].

(** Byte offset and element type of every element of a [Float32Array]. *)
Definition float32ArrayComponents (a : list num) : list (nat * scalar) :=
  map (fun k => ((k * BYTES_PER_ELEMENT)%nat, f32)) (seq 0 (length a)).

End Layout.

(** ** The wave dispatch of the two shaders *)

(** Shader scalars ([f32]) are embedded as reals, so what is proved of
    the shaders holds in exact arithmetic.  The selector
    [u32(uniforms.mode + 0.1)] of the inline shader is the one place
    where a rounding can change a branch: an [f32] sum just below an
    integer can round up to it (the [f32] nearest to 0.9 plus 0.1 gives
    1.0), though never down below an integer the exact sum has reached.
    The statements on the selector are those this rounding leaves
    true. *)

Module Wgsl.

Record vec2 : Type := mkVec2 { vx : R; vy : R }.

Definition vadd (a b : vec2) : vec2 := mkVec2 (vx a + vx b) (vy a + vy b).
Definition vsub (a b : vec2) : vec2 := mkVec2 (vx a - vx b) (vy a - vy b).
Definition vscale (a : vec2) (k : R) : vec2 := mkVec2 (vx a * k) (vy a * k).
Definition vadds (a : vec2) (k : R) : vec2 := mkVec2 (vx a + k) (vy a + k).
Definition vmul (a b : vec2) : vec2 := mkVec2 (vx a * vx b) (vy a * vy b).

Definition length (v : vec2) : R := sqrt (vx v * vx v + vy v * vy v).
Definition dot (a b : vec2) : R := vx a * vx b + vy a * vy b.
Definition floor (x : R) : R := IZR (Int_part x).
Definition fract (x : R) : R := x - floor x.
Definition mix (a b t : R) : R := a * (1 - t) + b * t.
Definition vfloor (v : vec2) : vec2 := mkVec2 (floor (vx v)) (floor (vy v)).
Definition vfract (v : vec2) : vec2 := mkVec2 (fract (vx v)) (fract (vy v)).

(** [u32(e)] for an [f32] value: round toward zero, then clamp to the
    range of [u32]. *)
Definition u32_of_f32 (e : R) : N :=
  let truncated := if Rle_dec 0 e then Int_part e else (- Int_part (- e))%Z in
  Z.to_N (Z.max 0 (Z.min truncated 4294967295)).

End Wgsl.

Module WaveShader.
Import Wgsl.

Record Uniforms : Type := mkUniforms {
  time : R;
  amplitude : R;
  frequency : R;
  speed : R;
  resolution : vec2;
  hue : R;
  mode : N
}.

Section Modes.
Variable uniforms : Uniforms.

Definition noise (p : vec2) : R :=
  fract (sin (dot p (mkVec2 12.9898 78.233)) * 43758.5453).

Definition smooth_noise (p : vec2) : R :=
  let i := vfloor p in
  let f := vfract p in
  let u := vmul (vmul f f) (vsub (mkVec2 3 3) (vscale f 2)) in
  let a := noise i in
  let b := noise (vadd i (mkVec2 1 0)) in
  let c := noise (vadd i (mkVec2 0 1)) in
  let d := noise (vadd i (mkVec2 1 1)) in
  mix (mix a b (vx u)) (mix c d (vx u)) (vy u).

(** The body of the [for] loop of [fbm], run [n] times. *)
Fixpoint fbm_loop (n : nat) (value amplitude : R) (pos : vec2) : R :=
  match n with
  | O => value
  | S n' =>
      fbm_loop n' (value + amplitude * smooth_noise pos)
               (amplitude * 0.5) (vscale pos 2)
  end.

Definition fbm (p : vec2) : R := fbm_loop 4 0 0.5 p.

Definition sine_waves (uv : vec2) (t : R) : R :=
  let freq := frequency uniforms in
  let amp := amplitude uniforms in
  let wave := sin (vx uv * freq * 3 + t * 2) * 0.4 in
  let wave := wave + sin (vx uv * freq * 5 - t * 1.5) * 0.3 in
  let wave := wave + sin (vx uv * freq * 7 + t * 2.5) * 0.2 in
  let wave := wave + sin (vx uv * freq * 11 - t * 3) * 0.1 in
  let wave := wave + sin (vy uv * freq * 2 + t) * 0.15 in
  wave * amp.

Definition circular_ripples (uv : vec2) (t : R) : R :=
  let freq := frequency uniforms in
  let amp := amplitude uniforms in
  let dist := length uv in
  let wave := sin (dist * freq * 10 - t * 3) in
  let fade := exp (- dist * 0.5) in
  let dist2 := length (vsub uv (mkVec2 0.5 0.3)) in
  let wave2 := sin (dist2 * freq * 8 - t * 2.5) * 0.5 in
  let fade2 := exp (- dist2 * 0.7) in
  let dist3 := length (vadd uv (mkVec2 0.4 (-0.2))) in
  let wave3 := sin (dist3 * freq * 9 - t * 2.8) * 0.3 in
  let fade3 := exp (- dist3 * 0.6) in
  (wave * fade + wave2 * fade2 + wave3 * fade3) * amp.

Definition lissajous_curves (uv : vec2) (t : R) : R :=
  let freq := frequency uniforms in
  let amp := amplitude uniforms in
  let a := 3 * freq in
  let b := 2 * freq in
  let delta := t * 0.5 in
  let lx := sin (a * vx uv + t) in
  let ly := sin (b * vy uv + delta) in
  let pattern := lx * ly in
  let lx2 := sin (a * 1.5 * vx uv - t * 1.2) in
  let ly2 := cos (b * 1.3 * vy uv + delta * 0.8) in
  (pattern + lx2 * ly2 * 0.5) * amp.

Definition plasma_field (uv : vec2) (t : R) : R :=
  let freq := frequency uniforms in
  let amp := amplitude uniforms in
  let pos := vscale uv freq in
  let value := sin (vx pos + t) in
  let value := value + sin (vy pos + t) in
  let value := value + sin (vx pos + vy pos + t) in
  let dist := length pos in
  let value := value + sin (dist - t * 2) in
  let value := value + fbm (vadds (vscale pos 0.5) (t * 0.3)) * 2 in
  value * 0.2 * amp.

Definition wave_surface (uv : vec2) (t : R) : R :=
  let freq := frequency uniforms in
  let amp := amplitude uniforms in
  let perspective := 1 / (1 + vy uv * 0.5) in
  let pos := mkVec2 (vx uv * perspective) (vy uv) in
  let pos := vscale pos freq in
  let wave := sin (vx pos * 3 + t * 2) * cos (vy pos * 2 + t) in
  let wave := wave + sin (vx pos * 5 - vy pos * 3 + t * 1.5) * 0.5 in
  let wave := wave + sin ((vx pos + vy pos) * 2 + t * 0.8) * 0.3 in
  wave * amp * perspective.

(** The [switch uniforms.mode] of [fs_main], for a selector [m]. *)
Definition dispatch (m : N) (uv : vec2) (t : R) : R :=
  match m with
  | 0%N => sine_waves uv t
  | 1%N => circular_ripples uv t
  | 2%N => lissajous_curves uv t
  | 3%N => plasma_field uv t
  | 4%N => wave_surface uv t
  | _ => sine_waves uv t
  end.

(** The value of [wave] in [fs_main] at the pixel with [world_pos = uv]. *)
Definition fs_wave (uv : vec2) : R :=
  let t := time uniforms * speed uniforms in
  dispatch (mode uniforms) uv t.

End Modes.

Definition with_mode (u : Uniforms) (m : N) : Uniforms :=
  {| time := time u; amplitude := amplitude u; frequency := frequency u;
     speed := speed u; resolution := resolution u; hue := hue u; mode := m |}.

End WaveShader.

Module InlineShader.
Import Wgsl.

Record Uniforms : Type := mkUniforms {
  time : R;
  amplitude : R;
  frequency : R;
  speed : R;
  resolution : vec2;
  hue : R;
  mode : R
}.

Section Modes.
Variable uniforms : Uniforms.

Definition sine_case (uv : vec2) (t : R) : R :=
  let wave := sin (vx uv * frequency uniforms * 3 + t * 2) * 0.4 in
  let wave := wave + sin (vx uv * frequency uniforms * 5 - t * 1.5) * 0.3 in
  let wave := wave + sin (vx uv * frequency uniforms * 7 + t * 2.5) * 0.2 in
  wave.

Definition ripple_case (uv : vec2) (t : R) : R :=
  let dist := length uv in
  sin (dist * frequency uniforms * 10 - t * 3) * exp (- dist * 0.5).

Definition lissajous_case (uv : vec2) (t : R) : R :=
  let wave :=
    sin (vx uv * frequency uniforms + t)
    * cos (vx uv * frequency uniforms * 0.5 - t * 1.5) * 0.8 in
  let wave := wave + sin (vx uv * frequency uniforms * 2 + t) * 0.2 in
  wave.

Definition plasma_case (uv : vec2) (t : R) : R :=
  let value := sin (vx uv * frequency uniforms + t) in
  let value := value + sin (vy uv * frequency uniforms + t) in
  let value := value + sin ((vx uv + vy uv) * frequency uniforms + t) in
  let value := value + sin (length (vscale uv (frequency uniforms)) - t * 2) in
  value * 0.25.

Definition surface_case (uv : vec2) (t : R) : R :=
  sin (vx uv * frequency uniforms * 3 + t * 2)
  * cos (vy uv * frequency uniforms * 2 + t).

(** The [switch u32(uniforms.mode + 0.1)] of [fs_main], for a selector
    [m]: four cases and a default that holds the Surface formula. *)
Definition dispatch (m : N) (uv : vec2) (t : R) : R :=
  match m with
  | 0%N => sine_case uv t
  | 1%N => ripple_case uv t
  | 2%N => lissajous_case uv t
  | 3%N => plasma_case uv t
  | _ => surface_case uv t
  end.

(** The value of [wave] after [wave *= uniforms.amplitude]. *)
Definition fs_wave (uv : vec2) : R :=
  let t := time uniforms * speed uniforms in
  dispatch (u32_of_f32 (mode uniforms + 0.1)) uv t * amplitude uniforms.

End Modes.

Definition with_mode (u : Uniforms) (m : R) : Uniforms :=
  {| time := time u; amplitude := amplitude u; frequency := frequency u;
     speed := speed u; resolution := resolution u; hue := hue u; mode := m |}.

End InlineShader.

(** ** Predicates used in the statements *)

(** A finite number between [lo] and [hi]. *)
Definition in_range (lo hi : R) (x : num) : Prop :=
  match x with
  | Fin r => lo <= r <= hi
  | _ => False
  end.

Definition in01 (x : num) : Prop := in_range 0 1 x.

(** [x <= y] on numbers: [-Infinity] below every finite value,
    [+Infinity] above; [NaN] is not comparable. *)
Definition num_le (x y : num) : Prop :=
  match x, y with
  | NaN, _ | _, NaN => False
  | NInf, _ => True
  | _, PInf => True
  | Fin a, Fin b => a <= b
  | _, _ => False
  end.

(** A decibel magnitude: any number (finite, or infinite as the node
    reports for silence) other than [NaN]. *)
Definition is_magnitude (x : num) : Prop := x <> NaN.


(** The bin indices read by the band loop on a frame of [len] bins, band
    after band, in the order the loop reads them. *)
Definition coveredIndices (len numBands : nat) : list nat :=
  concat (map (bandIndices len (samplesPerBand len numBands))
              (seq 0 numBands)).

(** A setter clamps when some bounded range holds whatever it stores. *)
Definition clamps (setter : num -> RenderParams -> RenderParams)
    (field : RenderParams -> num) : Prop :=
  exists lo hi : R, forall val p, in_range lo hi (field (setter val p)).

(** The analyzer after a successful [init()] and [enableMicrophone()] on
    the given node: the buffer has [frequencyBinCount = fftSize / 2]
    zero-initialised bins and capture is active. *)
Definition analyzerOn (node : AnalyserNode) : AudioAnalyzer :=
  {| analyser := Some node;
     isActive := true;
     frequencyData := Some (repeat (Fin 0) (fftSize node / 2)) |}.

(** An analyser node configured as [init()] of main.js does, reporting
    the given spectrum; [fftSize] is twice the number of bins. *)
Definition mainNode (frame : list num) : AnalyserNode :=
  {| fftSize := 2 * List.length frame;
     smoothingTimeConstant := 0.8;
     minDecibels := -90;
     maxDecibels := -30;
     spectrum := frame |}.

(** The same for [init()] of the stand-alone module. *)
Definition audioNode (frame : list num) : AnalyserNode :=
  {| fftSize := 2 * List.length frame;
     smoothingTimeConstant := 0.8;
     minDecibels := -100;
     maxDecibels := -10;
     spectrum := frame |}.

(** The eight-bin frame of the end-to-end scenario. *)
Definition scenarioFrame : list num :=
  [ Fin (-100); Fin (-100); Fin (-100); Fin (-100);
    Fin (-10); Fin (-10); Fin (-10); Fin (-10) ].

(** Two sequences of finite numbers agree within [eps], entry by entry. *)
Definition approx (eps : R) (xs ys : list num) : Prop :=
  Forall2 (fun x y =>
             match x, y with
             | Fin a, Fin b => Rabs (a - b) <= eps
             | _, _ => False
             end) xs ys.

(** Uniforms of the inline shader for the parameters [time = 0.3],
    [amplitude = 1], [frequency = 1], [speed = 1] on an 800 x 600 canvas,
    with the given mode. *)
Definition sampleInlineUniforms (m : R) : InlineShader.Uniforms :=
  {| InlineShader.time := 0.3;
     InlineShader.amplitude := 1;
     InlineShader.frequency := 1;
     InlineShader.speed := 1;
     InlineShader.resolution := Wgsl.mkVec2 800 600;
     InlineShader.hue := 180;
     InlineShader.mode := m |}.

(** The same parameters as uniforms of wave.wgsl. *)
Definition sampleWaveUniforms (m : N) : WaveShader.Uniforms :=
  {| WaveShader.time := 0.3;
     WaveShader.amplitude := 1;
     WaveShader.frequency := 1;
     WaveShader.speed := 1;
     WaveShader.resolution := Wgsl.mkVec2 800 600;
     WaveShader.hue := 180;
     WaveShader.mode := m |}.

(** * The rest of the analyzer, the frame loop and the shaders *)

(** ** More arithmetic on numbers *)

(** [-x] *)
Definition num_neg (x : num) : num :=
  match x with
  | Fin a => Fin (- a)
  | PInf => NInf
  | NInf => PInf
  | NaN => NaN
  end.

(** [x - y] *)
Definition num_sub (x y : num) : num := (x + num_neg y)%js.

(** [x >= y]: false as soon as one side is [NaN]. *)
Definition num_ge (x y : num) : bool :=
  match x, y with
  | NaN, _ | _, NaN => false
  | PInf, _ => true
  | _, NInf => true
  | NInf, _ => false
  | Fin _, PInf => false
  | Fin a, Fin b => if Rle_dec b a then true else false
  end.

(** A result of a loop over clamped samples: a value of the unit
    interval, or [NaN]. *)
Definition unit_or_NaN (x : num) : Prop := x = NaN \/ in01 x.

(** ** Life cycle of the analyzer object *)

(** The asynchronous methods are embedded as if each call ran to
    completion before the next one starts; what the browser answers
    during a call is an argument of the call. *)

Module Lifecycle.

Inductive ContextState : Type := running | suspended.

(** The whole object: the three fields the analysis methods use, kept in
    [analysis], and the fields only the life-cycle methods touch. *)
Record Object : Type := mkObject {
  audioContext : option ContextState;
  microphone : option unit;
  timeDomainData : option (list num);
  analysis : AudioAnalyzer
}.

(** What the browser answers during one call: whether
    [new AudioContext()] succeeds and in which state the context is,
    what the new analyser node reports, and whether [getUserMedia]
    resolves with a stream. *)
Record Browser : Type := mkBrowser {
  newAudioContext : option ContextState;
  nodeSpectrum : list num;
  getUserMedia : bool
}.

(** [this.fftSize] *)
Definition objectFftSize : nat := 2048.

(** [new AudioAnalyzer()] *)
Definition newObject : Object :=
  {| audioContext := None; microphone := None; timeDomainData := None;
     analysis := new_AudioAnalyzer |}.

Section Copy.
(** The two copies of the class differ in the decibel range they set. *)
Variables minDb maxDb : R.

(** [init()]: a failing [new AudioContext()] is caught before anything
    is stored; the statements after it are taken not to throw. *)
Definition init (b : Browser) (this : Object) : bool * Object :=
  match newAudioContext b with
  | None => (false, this)
  | Some st =>
      (true,
       {| audioContext := Some st;
          microphone := microphone this;
          timeDomainData := Some (repeat (Fin 0) objectFftSize);
          analysis :=
            {| analyser :=
                 Some {| fftSize := objectFftSize;
                         smoothingTimeConstant := 0.8;
                         minDecibels := minDb;
                         maxDecibels := maxDb;
                         spectrum := nodeSpectrum b |};
               isActive := isActive (analysis this);
               frequencyData := Some (repeat (Fin 0) (objectFftSize / 2)) |}
       |})
  end.

(** [enableMicrophone()].  Reading [state] of a missing context and
    connecting to a missing analyser throw inside the [try]; a rejected
    [getUserMedia] does too.  All three end in [return false].  A
    suspended context is resumed ([resume()] is taken to succeed). *)
Definition enableMicrophone (b : Browser) (this : Object) : bool * Object :=
  let this1 :=
    match audioContext this with
    | None => snd (init b this)
    | Some _ => this
    end in
  match audioContext this1 with
  | None => (false, this1)
  | Some _ =>
      let this2 :=
        {| audioContext := Some running;
           microphone := microphone this1;
           timeDomainData := timeDomainData this1;
           analysis := analysis this1 |} in
      if getUserMedia b then
        match analyser (analysis this2) with
        | Some _ =>
            (true,
             {| audioContext := audioContext this2;
                microphone := Some tt;
                timeDomainData := timeDomainData this2;
                analysis :=
                  {| analyser := analyser (analysis this2);
                     isActive := true;
                     frequencyData := frequencyData (analysis this2) |} |})
        | None =>
            (false,
             {| audioContext := audioContext this2;
                microphone := Some tt;
                timeDomainData := timeDomainData this2;
                analysis := analysis this2 |})
        end
      else (false, this2)
  end.

(** [disableMicrophone()] *)
Definition disableMicrophone (this : Object) : Object :=
  {| audioContext := audioContext this;
     microphone := None;
     timeDomainData := timeDomainData this;
     analysis :=
       {| analyser := analyser (analysis this);
          isActive := false;
          frequencyData := frequencyData (analysis this) |} |}.

(** [toggle()] *)
Definition toggle (b : Browser) (this : Object) : bool * Object :=
  if isActive (analysis this) then (false, disableMicrophone this)
  else enableMicrophone b this.

End Copy.

(** The analyser node moves on to a new spectrum (an event outside the
    object). *)
Definition deviceReports (s : list num) (this : Object) : Object :=
  {| audioContext := audioContext this;
     microphone := microphone this;
     timeDomainData := timeDomainData this;
     analysis :=
       {| analyser :=
            match analyser (analysis this) with
            | Some node =>
                Some {| fftSize := fftSize node;
                        smoothingTimeConstant := smoothingTimeConstant node;
                        minDecibels := minDecibels node;
                        maxDecibels := maxDecibels node;
                        spectrum := s |}
            | None => None
            end;
          isActive := isActive (analysis this);
          frequencyData := frequencyData (analysis this) |} |}.

Definition with_analysis (this : Object) (a : AudioAnalyzer) : Object :=
  {| audioContext := audioContext this;
     microphone := microphone this;
     timeDomainData := timeDomainData this;
     analysis := a |}.

(** One call on the object, or one event of the device. *)
Inductive Op : Type :=
| CallInit (b : Browser)
| CallEnableMicrophone (b : Browser)
| CallDisableMicrophone
| CallToggle (b : Browser)
| CallGetFrequencyData
| CallGetAmplitude
| CallGetFrequencyBands (numBands : nat)
| CallGetFrequencyRanges
| DeviceReports (s : list num).

(** The object after one operation (the returned value is dropped). *)
Definition step (minDb maxDb : R) (op : Op) (this : Object) : Object :=
  match op with
  | CallInit b => snd (init minDb maxDb b this)
  | CallEnableMicrophone b => snd (enableMicrophone minDb maxDb b this)
  | CallDisableMicrophone => disableMicrophone this
  | CallToggle b => snd (toggle minDb maxDb b this)
  | CallGetFrequencyData =>
      with_analysis this (snd (getFrequencyData (analysis this)))
  | CallGetAmplitude =>
      with_analysis this (snd (Main.getAmplitude (analysis this)))
  | CallGetFrequencyBands n =>
      with_analysis this (snd (Main.getFrequencyBands (analysis this) n))
  | CallGetFrequencyRanges =>
      with_analysis this (snd (Audio.getFrequencyRanges (analysis this)))
  | DeviceReports s => deviceReports s this
  end.

(** The object after a sequence of operations, first one first. *)
Definition run (minDb maxDb : R) (ops : list Op) (this : Object) : Object :=
  fold_left (fun o op => step minDb maxDb op o) ops this.

(** What every reachable object satisfies. *)
Definition consistent (o : Object) : Prop :=
  (isActive (analysis o) = true ->
     analyser (analysis o) <> None /\ microphone o <> None)
  /\ (analyser (analysis o) <> None ->
        exists buf, frequencyData (analysis o) = Some buf
                    /\ List.length buf = 1024%nat)
  /\ (analyser (analysis o) <> None -> audioContext o <> None).

End Lifecycle.

(** The part of the object that polling cannot change. *)
Definition same_frame_shape (this this' : AudioAnalyzer) : Prop :=
  analyser this' = analyser this
  /\ isActive this' = isActive this
  /\ match frequencyData this, frequencyData this' with
     | Some buf, Some buf' => List.length buf' = List.length buf
     | None, None => True
     | _, _ => False
     end.

(** The three slices [getFrequencyRanges] averages. *)
Definition rangeSlices (data : list num) : list num * list num * list num :=
  let third := (List.length data / 3)%nat in
  (slice data 0 third, slice data third (third * 2), skipn (third * 2) data).

(** Two finite, non-negative values in order. *)
Definition ordered_values (x y : num) : Prop :=
  exists a b, x = Fin a /\ y = Fin b /\ 0 <= a <= b.

(** A browser that creates a (suspended) audio context, creates an
    analyser node reporting [s], and grants the microphone. *)
Definition grantingBrowser (s : list num) : Lifecycle.Browser :=
  {| Lifecycle.newAudioContext := Some Lifecycle.suspended;
     Lifecycle.nodeSpectrum := s;
     Lifecycle.getUserMedia := true |}.

(** The same browser with the microphone denied. *)
Definition denyingBrowser (s : list num) : Lifecycle.Browser :=
  {| Lifecycle.newAudioContext := Some Lifecycle.suspended;
     Lifecycle.nodeSpectrum := s;
     Lifecycle.getUserMedia := false |}.

(** The analyser node [init()] of main.js creates in a browser. *)
Definition mainInitNode (b : Lifecycle.Browser) : AnalyserNode :=
  {| fftSize := Lifecycle.objectFftSize;
     smoothingTimeConstant := 0.8;
     minDecibels := -90;
     maxDecibels := -30;
     spectrum := Lifecycle.nodeSpectrum b |}.

(** An analyzer whose active polls cannot hit [null]. *)
Definition pollable (a : AudioAnalyzer) : Prop :=
  isActive a = true ->
  exists node buf, analyser a = Some node /\ frequencyData a = Some buf.

(** ** The page: frame loop and meters (main.js) *)

Module App.

(** The [visualizer] object, reduced to its parameters and the size of
    the canvas its [render] reads. *)
Record Visualizer : Type := mkVisualizer {
  params : RenderParams;
  canvasWidth : num;
  canvasHeight : num
}.

(** The global [state]. *)
Record State : Type := mkState {
  visualizer : option Visualizer;
  audioAnalyzer : option AudioAnalyzer;
  isRunning : bool;
  lastFrameTime : num;
  frameCount : nat;
  fps : nat;
  currentMode : num
}.

(** Height (in percent) and opacity written to one frequency bar. *)
Record BarStyle : Type := mkBarStyle { barHeight : num; barOpacity : num }.

(** What [updateUI] writes: the height of the amplitude meter (in
    percent) and the style of every bar. *)
Record UiUpdate : Type := mkUiUpdate {
  meterHeight : num;
  bars : list BarStyle
}.

(** [bands[i] || 0]; past the end [bands[i]] is [undefined]. *)
Definition bandOrZero (bands : list num) (i : nat) : num :=
  match nth_error bands i with
  | Some value => or_else value (Fin 0)
  | None => Fin 0
  end.

(** [Math.max(10, value * 100)] and [0.5 + value * 0.5] *)
Definition barStyle (value : num) : BarStyle :=
  {| barHeight := Math_max (Fin 10) (value * Fin 100)%js;
     barOpacity := (Fin 0.5 + value * Fin 0.5)%js |}.

(** [updateUI()] on a page with [numBars] frequency bars; [None] when it
    returns before writing anything. *)
Definition updateUI (audioAnalyzer : option AudioAnalyzer) (numBars : nat)
  : completion (option UiUpdate) * option AudioAnalyzer :=
  match audioAnalyzer with
  | None => (Return None, None)
  | Some a =>
      if negb (isActive a) then (Return None, Some a)
      else
        match Main.getAmplitude a with
        | (Throw, a1) => (Throw, Some a1)
        | (Return amplitude, a1) =>
            match Main.getFrequencyBands a1 12 with
            | (Throw, a2) => (Throw, Some a2)
            | (Return bands, a2) =>
                (Return
                   (Some {| meterHeight := (amplitude * Fin 100)%js;
                            bars := map (fun i => barStyle (bandOrZero bands i))
                                        (seq 0 numBars) |}),
                 Some a2)
            end
        end
  end.

(** The fps block of [render(timestamp)], on the three fields it
    touches: last snapshot time, frame counter, published fps. *)
Definition clockTick (timestamp : num) (clock : num * nat * nat)
  : num * nat * nat :=
  let '(last, count, published) := clock in
  let count := S count in
  if num_ge (num_sub timestamp last) (Fin 1000)
  then (timestamp, 0%nat, count)
  else (last, count, published).

(** What one call of [render(timestamp)] hands to the outside. *)
Record Frame : Type := mkFrame {
  uploaded : option (list num);
  ui : option UiUpdate;
  rearmed : bool
}.

(** [visualizer?.render(time)] *)
Definition renderVisualizer (v : option Visualizer)
    (audioAnalyzer : option AudioAnalyzer) (time : num)
  : completion (option (list num)) * option AudioAnalyzer :=
  match v with
  | None => (Return None, audioAnalyzer)
  | Some vis =>
      match render (params vis) (canvasWidth vis) (canvasHeight vis)
                   audioAnalyzer time with
      | (Return payload, a') => (Return (Some payload), a')
      | (Throw, a') => (Throw, a')
      end
  end.

(** [render(timestamp)], the frame callback.  An exception leaves the
    callback before [requestAnimationFrame(render)]. *)
Definition render (timestamp : num) (numBars : nat) (st : State)
  : completion Frame * State :=
  if negb (isRunning st)
  then (Return {| uploaded := None; ui := None; rearmed := false |}, st)
  else
    let '(last, count, published) :=
      clockTick timestamp (lastFrameTime st, frameCount st, fps st) in
    let time := (timestamp / Fin 1000)%js in
    let with_analyzer a :=
      {| visualizer := visualizer st; audioAnalyzer := a;
         isRunning := isRunning st; lastFrameTime := last;
         frameCount := count; fps := published;
         currentMode := currentMode st |} in
    match renderVisualizer (visualizer st) (audioAnalyzer st) time with
    | (Throw, a1) => (Throw, with_analyzer a1)
    | (Return payload, a1) =>
        match updateUI a1 numBars with
        | (Throw, a2) => (Throw, with_analyzer a2)
        | (Return u, a2) =>
            (Return {| uploaded := payload; ui := u; rearmed := true |},
             with_analyzer a2)
        end
    end.

(** [startRenderLoop()] at time [now] ([performance.now()]). *)
Definition startRenderLoop (now : num) (st : State) : State :=
  {| visualizer := visualizer st; audioAnalyzer := audioAnalyzer st;
     isRunning := true; lastFrameTime := now;
     frameCount := frameCount st; fps := fps st;
     currentMode := currentMode st |}.

(** The global [setMode(mode)]; the [setMode] in its body is the setter
    of the visualizer. *)
Definition setMode (m : num) (st : State) : State :=
  {| visualizer :=
       match visualizer st with
       | Some v => Some {| params := setMode m (params v);
                           canvasWidth := canvasWidth v;
                           canvasHeight := canvasHeight v |}
       | None => None
       end;
     audioAnalyzer := audioAnalyzer st; isRunning := isRunning st;
     lastFrameTime := lastFrameTime st; frameCount := frameCount st;
     fps := fps st; currentMode := m |}.

End App.


(** A valid style of a frequency bar. *)
Definition validBar (b : App.BarStyle) : Prop :=
  in_range 10 100 (App.barHeight b) /\ in_range 0.5 1 (App.barOpacity b).

(** The analyzer of the page, if there is one, cannot hit [null]. *)
Definition pollableOption (a : option AudioAnalyzer) : Prop :=
  match a with
  | Some a => pollable a
  | None => True
  end.

(** ** The fragment stage of shaders/wave.wgsl *)

(** As for the wave functions, scalars are reals: what is proved of the
    fragment stage holds in exact arithmetic.  An [f32] product that
    overflows, which gives an infinite or [NaN] hue and colour, is
    outside the embedding. *)

Module Fragment.
Import Wgsl.

Record vec3 : Type := mkVec3 { c0 : R; c1 : R; c2 : R }.
Record vec4 : Type := mkVec4 { rgb : vec3; alpha : R }.

Definition v3add (a b : vec3) : vec3 :=
  mkVec3 (c0 a + c0 b) (c1 a + c1 b) (c2 a + c2 b).
Definition v3scale (a : vec3) (k : R) : vec3 :=
  mkVec3 (c0 a * k) (c1 a * k) (c2 a * k).
Definition v3adds (a : vec3) (k : R) : vec3 :=
  mkVec3 (c0 a + k) (c1 a + k) (c2 a + k).
Definition v3map (f : R -> R) (a : vec3) : vec3 :=
  mkVec3 (f (c0 a)) (f (c1 a)) (f (c2 a)).

(** [trunc(e)]: the integer part, toward zero. *)
Definition trunc (e : R) : R :=
  if Rle_dec 0 e then floor e else - floor (- e).

(** [e1 % e2] on floats: [e1 - e2 * trunc(e1 / e2)]. *)
Definition rem (e1 e2 : R) : R := e1 - e2 * trunc (e1 / e2).

(** [pow(e1, e2)] for [e2 > 0]: the real power of a positive base, 0 at
    0; a negative base, whose result WGSL leaves open, is not used by
    the shader and is mapped to 0 here. *)
Definition pow (e1 e2 : R) : R :=
  if Rlt_dec 0 e1 then Rpower e1 e2 else 0.

(** [hsl2rgb], the same text in both shaders. *)
Definition hsl2rgb (h s l : R) : vec3 :=
  let c := (1 - Rabs (2 * l - 1)) * s in
  let hp := h / 60 in
  let x := c * (1 - Rabs (rem hp 2 - 1)) in
  let rgb :=
    if Rlt_dec hp 1 then mkVec3 c x 0
    else if Rlt_dec hp 2 then mkVec3 x c 0
    else if Rlt_dec hp 3 then mkVec3 0 c x
    else if Rlt_dec hp 4 then mkVec3 0 x c
    else if Rlt_dec hp 5 then mkVec3 x 0 c
    else mkVec3 c 0 x in
  let m := l - c / 2 in
  v3adds rgb m.

Definition glow_line (uv : vec2) (wave_height thickness : R) : R :=
  let dist := Rabs (vy uv - wave_height) in
  exp (- dist * dist / (thickness * thickness)).

Definition bloom (intensity power : R) : R :=
  pow (Rmax intensity 0) power.

(** [world_pos] as [vs_main] computes it from [uv].  With
    [resolution.y = 0] the quotient [resolution.x / resolution.y] is
    infinite or [NaN], which has no counterpart among the reals: there
    is no value then. *)
Definition vs_world_pos (u : WaveShader.Uniforms) (uv : vec2)
  : option vec2 :=
  if Req_dec_T (vy (WaveShader.resolution u)) 0 then None
  else
    Some (vmul (vadds (vscale uv 2) (-1))
               (mkVec2 (vx (WaveShader.resolution u)
                        / vy (WaveShader.resolution u))
                       1)).

(** [(hue_shift % 360.0 + 360.0) % 360.0] *)
Definition normalised_hue (hue_shift : R) : R :=
  rem (rem hue_shift 360 + 360) 360.

(** The hue of the line: [hue_shift] and its normalisation. *)
Definition line_hue (u : WaveShader.Uniforms) (wave : R) (uv : vec2) : R :=
  let hue_shift := WaveShader.hue u + wave * 30 + vx uv * 20 in
  normalised_hue hue_shift.

(** [fs_main] on the interpolated inputs [in.uv] and [in.world_pos]. *)
Definition fs_main (u : WaveShader.Uniforms) (in_uv world_pos : vec2)
  : vec4 :=
  let uv := world_pos in
  let wave := WaveShader.fs_wave u uv in
  let line_thickness := 0.08 in
  let glow1 := glow_line uv (wave * 0.5) line_thickness in
  let glow2 := glow_line uv (wave * 0.5) (line_thickness * 3) * 0.5 in
  let glow3 := glow_line uv (wave * 0.5) (line_thickness * 8) * 0.2 in
  let total_glow := glow1 + glow2 + glow3 in
  let hue := line_hue u wave uv in
  let primary_color := hsl2rgb hue 0.9 (0.5 + glow1 * 0.3) in
  let secondary_hue := rem (hue + 180) 360 in
  let secondary_color := hsl2rgb secondary_hue 0.8 0.4 in
  let color := v3scale primary_color glow1 in
  let color := v3add color (v3scale (v3scale secondary_color glow2) 0.5) in
  let color := v3add color (v3scale (mkVec3 0.1 0.05 0.15) glow3) in
  let bloom_amount := bloom total_glow 2 * 0.3 in
  let color := v3add color (v3scale primary_color bloom_amount) in
  let bg_color :=
    v3add (mkVec3 0.02 0.02 0.05)
          (v3scale (mkVec3 0.01 0 0.02) (1 - Rabs (vy uv))) in
  let grid := sin (vx uv * 50) * sin (vy uv * 50) in
  let grid_intensity := (grid * 0.5 + 0.5) * 0.02 in
  let final_color := v3add color bg_color in
  let final_color :=
    v3add final_color (v3scale (mkVec3 0 0.02 0.03) grid_intensity) in
  let vignette := 1 - length (vadds in_uv (-0.5)) * 0.5 in
  let final_color := v3scale final_color vignette in
  let final_color := v3map (fun c => c / (c + 1)) final_color in
  let final_color := v3map (fun c => pow c (1 / 2.2)) final_color in
  mkVec4 final_color 1.

(** The colour of the pixel whose interpolated [uv] is [in_uv]:
    [world_pos] is interpolated from the same vertices and keeps the
    affine relation [vs_main] gives it to [uv]. *)
Definition pixel (u : WaveShader.Uniforms) (in_uv : vec2) : option vec4 :=
  option_map (fs_main u in_uv) (vs_world_pos u in_uv).

(** A colour channel strictly between 0 and 1. *)
Definition channel (c : R) : Prop := 0 < c < 1.

End Fragment.

(** ** Host to shader *)


(** The formula the inline shader has for each of the five modes of the
    page, before the multiplication by the amplitude. *)
Definition inlineFormula (k : nat) (u : InlineShader.Uniforms)
    (uv : Wgsl.vec2) (t : R) : R :=
  match k with
  | 0%nat => InlineShader.sine_case u uv t
  | 1%nat => InlineShader.ripple_case u uv t
  | 2%nat => InlineShader.lissajous_case u uv t
  | 3%nat => InlineShader.plasma_case u uv t
  | _ => InlineShader.surface_case u uv t
  end.

(** The page after bootstrap: default parameters on a canvas of the
    given size, the loop started at time [now], and the given
    analyzer. *)
Definition startedPage (width height now : num) (a : AudioAnalyzer)
  : App.State :=
  {| App.visualizer :=
       Some {| App.params := initialParams;
               App.canvasWidth := width;
               App.canvasHeight := height |};
     App.audioAnalyzer := Some a;
     App.isRunning := true;
     App.lastFrameTime := now;
     App.frameCount := 0;
     App.fps := 60;
     App.currentMode := Fin 0 |}.

(** All three components of a colour satisfy [P]. *)
Definition all3 (P : R -> Prop) (v : Fragment.vec3) : Prop :=
  P (Fragment.c0 v) /\ P (Fragment.c1 v) /\ P (Fragment.c2 v).

(** ** Page bootstrap (main.js, [init]) *)

Module Bootstrap.

(** What the page finds when it loads.  The DOM calls ([cacheElements],
    [resizeCanvas], [setupEventListeners]) and the pipeline set-up after
    the device is obtained are taken to succeed.  A slider that exists
    is given by the number [parseFloat] reads from its value. *)
Record Environment : Type := mkEnvironment {
  gpu : bool;
  adapterFound : bool;
  deviceGranted : bool;
  audio : Lifecycle.Browser;
  innerWidth : num;
  innerHeight : num;
  amplitudeSlider : option num;
  frequencySlider : option num;
  speedSlider : option num;
  hueSlider : option num
}.

(** The page after [init()]: the global [state], the last percentage
    passed to [updateProgress] (if it was called), whether [showError]
    ran, and whether [startRenderLoop] was scheduled. *)
Record Page : Type := mkPage {
  state : App.State;
  progress : option nat;
  errorShown : bool;
  loopScheduled : bool
}.

(** The global [state] as the script declares it. *)
Definition initialState : App.State :=
  {| App.visualizer := None; App.audioAnalyzer := None;
     App.isRunning := false; App.lastFrameTime := Fin 0;
     App.frameCount := 0; App.fps := 60; App.currentMode := Fin 0 |}.

(** [setupSlider(id, callback)]: the callback runs once with the value
    of the slider, if the slider exists. *)
Definition setupSlider (setter : num -> RenderParams -> RenderParams)
    (slider : option num) (p : RenderParams) : RenderParams :=
  match slider with
  | Some value => setter value p
  | None => p
  end.

Definition with_audioAnalyzer (st : App.State) (a : AudioAnalyzer)
  : App.State :=
  {| App.visualizer := App.visualizer st; App.audioAnalyzer := Some a;
     App.isRunning := App.isRunning st;
     App.lastFrameTime := App.lastFrameTime st;
     App.frameCount := App.frameCount st; App.fps := App.fps st;
     App.currentMode := App.currentMode st |}.

Definition with_visualizer (st : App.State) (v : App.Visualizer)
  : App.State :=
  {| App.visualizer := Some v; App.audioAnalyzer := App.audioAnalyzer st;
     App.isRunning := App.isRunning st;
     App.lastFrameTime := App.lastFrameTime st;
     App.frameCount := App.frameCount st; App.fps := App.fps st;
     App.currentMode := App.currentMode st |}.

(** [init()], up to the point where it schedules [startRenderLoop]. *)
Definition init (env : Environment) : Page :=
  if negb (gpu env)
  then {| state := initialState; progress := None;
          errorShown := true; loopScheduled := false |}
  else
    let analyzer :=
      Lifecycle.analysis
        (snd (Lifecycle.init (-90) (-30) (audio env) Lifecycle.newObject)) in
    let state1 := with_audioAnalyzer initialState analyzer in
    if adapterFound env && deviceGranted env
    then
      let params :=
        setupSlider setHue (hueSlider env)
          (setupSlider setSpeed (speedSlider env)
             (setupSlider setFrequency (frequencySlider env)
                (setupSlider setAmplitude (amplitudeSlider env)
                   initialParams))) in
      {| state :=
           with_visualizer state1
             {| App.params := params;
                App.canvasWidth := innerWidth env;
                App.canvasHeight := innerHeight env |};
         progress := Some 100%nat; errorShown := false;
         loopScheduled := true |}
    else {| state := state1; progress := Some 70%nat;
            errorShown := true; loopScheduled := false |}.

End Bootstrap.

(** A page that is running on an analyzer capturing the scenario
    frame. *)
Definition samplePage : App.State :=
  startedPage (Fin 800) (Fin 600) (Fin 0)
              (analyzerOn (mainNode scenarioFrame)).

(** * Properties *)

(** ** Arithmetic on finite values *)

Lemma sign_of_pos (a : R) : 0 < a -> sign_of a = Pos.
Proof.
  intros H. unfold sign_of.
  destruct (Rlt_dec a 0); [lra|]. destruct (Rlt_dec 0 a); [reflexivity|lra].
Qed.

Lemma sign_of_neg (a : R) : a < 0 -> sign_of a = Neg.
Proof.
  intros H. unfold sign_of. destruct (Rlt_dec a 0); [reflexivity|lra].
Qed.

Lemma sign_of_zero (a : R) : a = 0 -> sign_of a = Zero.
Proof.
  intros H. unfold sign_of.
  destruct (Rlt_dec a 0); [lra|]. destruct (Rlt_dec 0 a); [lra|reflexivity].
Qed.

Lemma sign_of_cases (a : R) :
  (a < 0 /\ sign_of a = Neg) \/ (a = 0 /\ sign_of a = Zero)
  \/ (0 < a /\ sign_of a = Pos).
Proof.
  destruct (Rtotal_order a 0) as [H|[H|H]].
  - left. split; [assumption | now apply sign_of_neg].
  - right; left. split; [assumption | now apply sign_of_zero].
  - right; right. split; [assumption | now apply sign_of_pos].
Qed.

Lemma div_fin_pos (a b : R) : 0 < b -> (Fin a / Fin b)%js = Fin (a / b).
Proof. intros H. unfold div. now rewrite (sign_of_pos b H). Qed.

Lemma div_zero_zero : (Fin 0 / Fin 0)%js = NaN.
Proof. unfold div. now rewrite !(sign_of_zero 0 eq_refl). Qed.

Lemma Fin_eq (a b : R) : a = b -> Fin a = Fin b.
Proof. now intros ->. Qed.

Lemma clamp01_Fin (a : R) : clamp01 (Fin a) = Fin (Rmax 0 (Rmin 1 a)).
Proof. reflexivity. Qed.

Lemma Rclamp_bounds (a : R) : 0 <= Rmax 0 (Rmin 1 a) <= 1.
Proof.
  unfold Rmax, Rmin.
  destruct (Rle_dec 1 a); destruct (Rle_dec 0 _); lra.
Qed.

Lemma Rclamp_low (a : R) : a <= 0 -> Rmax 0 (Rmin 1 a) = 0.
Proof.
  intros H. unfold Rmax, Rmin.
  destruct (Rle_dec 1 a); destruct (Rle_dec 0 _); lra.
Qed.

Lemma Rclamp_high (a : R) : 1 <= a -> Rmax 0 (Rmin 1 a) = 1.
Proof.
  intros H. unfold Rmax, Rmin.
  destruct (Rle_dec 1 a); destruct (Rle_dec 0 _); lra.
Qed.

Lemma Rclamp_mid (a : R) : 0 <= a <= 1 -> Rmax 0 (Rmin 1 a) = a.
Proof.
  intros H. unfold Rmax, Rmin.
  destruct (Rle_dec 1 a); destruct (Rle_dec 0 _); lra.
Qed.

Lemma normalized100_Fin (a : R) :
  normalized100 (Fin a) = Fin (Rmax 0 (Rmin 1 ((a + 100) / 100))).
Proof.
  unfold normalized100. cbn [add]. rewrite div_fin_pos by lra.
  apply clamp01_Fin.
Qed.

Lemma normalized90_Fin (a : R) :
  normalized90 (Fin a) = Fin (Rmax 0 (Rmin 1 ((a + 90) / 60))).
Proof.
  unfold normalized90. cbn [add]. rewrite div_fin_pos by lra.
  apply clamp01_Fin.
Qed.

(** ** Values in the unit interval *)

Lemma clamp01_in01 (x : num) : is_magnitude x -> in01 (clamp01 x).
Proof.
  destruct x as [a| | |]; intros H; cbn.
  - apply Rclamp_bounds.
  - unfold Rmax. destruct (Rle_dec 0 1); lra.
  - lra.
  - now elim H.
Qed.

Lemma normalized100_in01 (x : num) : is_magnitude x -> in01 (normalized100 x).
Proof.
  intros H. destruct x as [a| | |].
  - rewrite normalized100_Fin. apply Rclamp_bounds.
  - unfold normalized100. cbn [add]. unfold div.
    rewrite (sign_of_pos 100) by lra. now apply clamp01_in01.
  - unfold normalized100. cbn [add]. unfold div.
    rewrite (sign_of_pos 100) by lra. now apply clamp01_in01.
  - now elim H.
Qed.

Lemma normalized90_in01 (x : num) : is_magnitude x -> in01 (normalized90 x).
Proof.
  intros H. destruct x as [a| | |].
  - rewrite normalized90_Fin. apply Rclamp_bounds.
  - unfold normalized90. cbn [add]. unfold div.
    rewrite (sign_of_pos 60) by lra. now apply clamp01_in01.
  - unfold normalized90. cbn [add]. unfold div.
    rewrite (sign_of_pos 60) by lra. now apply clamp01_in01.
  - now elim H.
Qed.

(** Accumulating values of the unit interval: the running sum stays
    finite, at least the initial value and at most the initial value
    plus the number of summands. *)
Lemma sum_loop_bounds {A : Type} (f : A -> num) (l : list A) (s0 : R) :
  Forall (fun a => in01 (f a)) l ->
  exists s, fold_left (fun sum a => (sum + f a)%js) l (Fin s0) = Fin s
            /\ s0 <= s <= s0 + INR (List.length l).
Proof.
  revert s0. induction l as [|a l IH]; intros s0 Hl.
  - exists s0. cbn. split; [reflexivity | lra].
  - inversion Hl as [|? ? Ha Hl']; subst.
    cbn [fold_left]. unfold in01, in_range in Ha.
    destruct (f a) as [r| | |] eqn:E; try contradiction.
    cbn [add]. destruct (IH (s0 + r) Hl') as (s & Hs & Hb).
    exists s. split; [assumption|].
    change (List.length (a :: l)) with (S (List.length l)).
    rewrite S_INR. lra.
Qed.

(** The average of such values over a non-empty list is in the unit
    interval. *)
Lemma average_in01 {A : Type} (f : A -> num) (l : list A) :
  l <> [] ->
  Forall (fun a => in01 (f a)) l ->
  in01 (fold_left (fun sum a => (sum + f a)%js) l (Fin 0)
        / of_nat (List.length l))%js.
Proof.
  intros Hne Hl. destruct (sum_loop_bounds f l 0 Hl) as (s & Hs & Hb).
  rewrite Hs. unfold of_nat.
  assert (Hlen : 0 < INR (List.length l)).
  { apply lt_0_INR. destruct l; [congruence | cbn; lia]. }
  rewrite div_fin_pos by assumption. cbn.
  split.
  - apply Rmult_le_pos; [lra|]. left. now apply Rinv_0_lt_compat.
  - apply (Rmult_le_reg_r (INR (List.length l))); [assumption|].
    unfold Rdiv. rewrite Rmult_assoc, Rinv_l by lra. lra.
Qed.

(** ** The windows of the band loop *)

Lemma samplesPerBand_total (len numBands : nat) :
  (numBands * samplesPerBand len numBands <= len)%nat.
Proof.
  unfold samplesPerBand. destruct numBands as [|k]; [cbn; lia|].
  apply Nat.Div0.mul_div_le.
Qed.

Lemma samplesPerBand_pos (len numBands : nat) :
  (1 <= numBands <= len)%nat -> (1 <= samplesPerBand len numBands)%nat.
Proof.
  intros [H1 H2]. unfold samplesPerBand.
  apply Nat.div_str_pos. lia.
Qed.

Lemma samplesPerBand_remainder (len numBands : nat) :
  (1 <= numBands)%nat ->
  (numBands * samplesPerBand len numBands + len mod numBands = len)%nat.
Proof.
  intros H. unfold samplesPerBand.
  symmetry. apply Nat.div_mod_eq.
Qed.

(** Inside the loop ([i < numBands]) the [Math.min] never cuts. *)
Lemma bandEnd_inside (len numBands i : nat) :
  (i < numBands)%nat ->
  bandEnd len (samplesPerBand len numBands) i
  = ((i + 1) * samplesPerBand len numBands)%nat.
Proof.
  intros Hi. unfold bandEnd.
  pose proof (samplesPerBand_total len numBands) as Ht.
  apply Nat.min_l. nia.
Qed.

Lemma bandStart_le_bandEnd (len numBands i : nat) :
  (i < numBands)%nat ->
  (bandStart (samplesPerBand len numBands) i
   <= bandEnd len (samplesPerBand len numBands) i)%nat.
Proof.
  intros Hi. rewrite (bandEnd_inside _ _ _ Hi). unfold bandStart. nia.
Qed.

Lemma bandDivisor_inside (len numBands i : nat) :
  (i < numBands)%nat ->
  bandDivisor len (samplesPerBand len numBands) i
  = Z.of_nat (samplesPerBand len numBands).
Proof.
  intros Hi. unfold bandDivisor.
  rewrite (bandEnd_inside _ _ _ Hi). unfold bandStart. nia.
Qed.

Lemma bandIndices_inside (len numBands i : nat) :
  (i < numBands)%nat ->
  bandIndices len (samplesPerBand len numBands) i
  = seq (i * samplesPerBand len numBands) (samplesPerBand len numBands).
Proof.
  intros Hi. unfold bandIndices.
  rewrite (bandEnd_inside _ _ _ Hi). unfold bandStart.
  f_equal. nia.
Qed.

Lemma concat_equal_windows (s n : nat) :
  concat (map (fun i => seq (i * s) s) (seq 0 n)) = seq 0 (n * s).
Proof.
  induction n as [|n IH].
  - reflexivity.
  - rewrite seq_S, map_app, concat_app, IH. cbn [map concat Nat.add].
    rewrite app_nil_r.
    replace (S n * s)%nat with (n * s + s)%nat by lia.
    now rewrite seq_app.
Qed.

Lemma coveredIndices_prefix (len numBands : nat) :
  coveredIndices len numBands
  = seq 0 (numBands * samplesPerBand len numBands).
Proof.
  unfold coveredIndices.
  rewrite <- concat_equal_windows. f_equal.
  apply map_ext_in. intros i Hi. apply in_seq in Hi.
  apply bandIndices_inside. lia.
Qed.

(** C1 (as amended): on a frame of [len >= 1] bins and for a band count
    [1 <= numBands <= len], the windows of the band loop all have the
    width [floor(len / numBands) >= 1], the first starts at bin 0, each
    ends where the next one starts, and the loop reads exactly the bins
    [0 .. numBands * floor(len / numBands) - 1], each once and in order.
    The last window has the same width as the others: the trailing
    [len mod numBands] bins belong to no window. *)
Theorem C1_band_windows_cover_equal_width_prefix (len numBands : nat) :
  (1 <= numBands <= len)%nat ->
  let spb := samplesPerBand len numBands in
  (1 <= spb)%nat
  /\ bandStart spb 0 = 0%nat
  /\ (forall i, (i < numBands)%nat ->
        bandEnd len spb i = (bandStart spb i + spb)%nat
        /\ bandEnd len spb i = bandStart spb (i + 1))
  /\ coveredIndices len numBands = seq 0 (numBands * spb)
  /\ NoDup (coveredIndices len numBands)
  /\ (numBands * spb + len mod numBands = len)%nat
  /\ (forall j, In j (coveredIndices len numBands)
                <-> (j < len - len mod numBands)%nat).
Proof.
  intros Hn spb.
  pose proof (samplesPerBand_remainder len numBands (proj1 Hn)) as Hrem.
  fold spb in Hrem.
  split; [now apply samplesPerBand_pos|].
  split; [reflexivity|].
  split.
  { intros i Hi. unfold spb. rewrite (bandEnd_inside _ _ _ Hi).
    unfold bandStart. lia. }
  split; [apply coveredIndices_prefix|].
  split; [rewrite coveredIndices_prefix; apply seq_NoDup|].
  split; [exact Hrem|].
  intros j. rewrite coveredIndices_prefix, in_seq. fold spb. lia.
Qed.

Lemma C1_band_windows_witness :
  (1 <= samplesPerBand 1024 12)%nat
  /\ coveredIndices 1024 12 = seq 0 (12 * samplesPerBand 1024 12).
Proof.
  pose proof (C1_band_windows_cover_equal_width_prefix 1024 12) as H.
  cbv zeta in H.
  assert (Hn : (1 <= 12 <= 1024)%nat) by lia.
  destruct (H Hn) as (H1 & _ & _ & H4 & _).
  split; [exact H1 | exact H4].
Defined.

(** C1 (as stated) fails: with the 1024 bins and 12 bands the page uses,
    the windows are 85 bins wide and stop at bin 1019; bins 1020..1023
    are read by no window, so the last window absorbs nothing. *)
Lemma C1_last_window_drops_remainder :
  samplesPerBand 1024 12 = 85%nat
  /\ bandEnd 1024 (samplesPerBand 1024 12) 11 = 1020%nat
  /\ ~ In 1020%nat (coveredIndices 1024 12)
  /\ coveredIndices 1024 12 <> seq 0 1024
  /\ coveredIndices 8 3 = [0; 1; 2; 3; 4; 5]%nat.
Proof.
  split; [reflexivity|].
  split; [reflexivity|].
  split.
  { rewrite coveredIndices_prefix, in_seq.
    change (samplesPerBand 1024 12) with 85%nat. lia. }
  split.
  { intros H. apply (f_equal (@List.length nat)) in H.
    rewrite coveredIndices_prefix, !length_seq in H.
    change (samplesPerBand 1024 12) with 85%nat in H. lia. }
  reflexivity.
Qed.

(** ** The inactive analyzer *)

(** C8: while no capture is active, [getAmplitude()] returns exactly 0 and
    [getFrequencyBands(n)] returns exactly [n] copies of 0.1, in both
    copies of the class; the object is left as it was, so every further
    call returns the same. *)
Theorem C8_inactive_amplitude_and_bands (this : AudioAnalyzer) (n : nat) :
  isActive this = false ->
  Audio.getAmplitude this = (Return (Fin 0), this)
  /\ Main.getAmplitude this = (Return (Fin 0), this)
  /\ Audio.getFrequencyBands this n = (Return (repeat (Fin 0.1) n), this)
  /\ Main.getFrequencyBands this n = (Return (repeat (Fin 0.1) n), this)
  /\ List.length (repeat (Fin 0.1) n) = n.
Proof.
  intros H.
  unfold Audio.getAmplitude, Main.getAmplitude,
    Audio.getFrequencyBands, Main.getFrequencyBands, idleBands.
  rewrite H. cbn [negb].
  repeat split. apply repeat_length.
Qed.

Lemma C8_inactive_witness :
  Audio.getAmplitude new_AudioAnalyzer = (Return (Fin 0), new_AudioAnalyzer)
  /\ Main.getFrequencyBands new_AudioAnalyzer 3
     = (Return [Fin 0.1; Fin 0.1; Fin 0.1], new_AudioAnalyzer).
Proof.
  destruct (C8_inactive_amplitude_and_bands new_AudioAnalyzer 3 eq_refl)
    as (H1 & _ & _ & H4 & _).
  split; [exact H1 | exact H4].
Defined.

(** C10: while no capture is active, [getFrequencyRanges()] returns
    exactly [{bass: 0, mid: 0, treble: 0}] and leaves the object as it
    was; this idle value 0 is not the idle constant 0.1 of the bands. *)
Theorem C10_inactive_ranges_are_zero (this : AudioAnalyzer) :
  isActive this = false ->
  Audio.getFrequencyRanges this
  = (Return {| Audio.bass := Fin 0; Audio.mid := Fin 0;
               Audio.treble := Fin 0 |}, this)
  /\ (forall n b, In b (idleBands n) -> b = Fin 0.1 /\ b <> Fin 0).
Proof.
  intros H. unfold Audio.getFrequencyRanges. rewrite H. cbn [negb].
  split; [reflexivity|].
  intros n b Hb. apply repeat_spec in Hb. subst b.
  split; [reflexivity|]. intros E. injection E. lra.
Qed.

Lemma C10_inactive_ranges_witness :
  Audio.getFrequencyRanges (disableMicrophone new_AudioAnalyzer)
  = (Return {| Audio.bass := Fin 0; Audio.mid := Fin 0;
               Audio.treble := Fin 0 |},
     disableMicrophone new_AudioAnalyzer).
Proof.
  exact (proj1 (C10_inactive_ranges_are_zero
                  (disableMicrophone new_AudioAnalyzer) eq_refl)).
Defined.

(** ** Setters *)

(** C4 (as amended): every setter stores its argument as it is, without
    clamping, and replaces exactly its own field. *)
Theorem C4_setters_replace_one_field_unclamped (val : num) (p : RenderParams) :
  setAmplitude val p
  = {| amplitude := val; frequency := frequency p; speed := speed p;
       hue := hue p; mode := mode p |}
  /\ setFrequency val p
  = {| amplitude := amplitude p; frequency := val; speed := speed p;
       hue := hue p; mode := mode p |}
  /\ setSpeed val p
  = {| amplitude := amplitude p; frequency := frequency p; speed := val;
       hue := hue p; mode := mode p |}
  /\ setHue val p
  = {| amplitude := amplitude p; frequency := frequency p; speed := speed p;
       hue := val; mode := mode p |}
  /\ setMode val p
  = {| amplitude := amplitude p; frequency := frequency p; speed := speed p;
       hue := hue p; mode := val |}.
Proof. repeat split. Qed.

Lemma not_clamps_of_identity
    (setter : num -> RenderParams -> RenderParams)
    (field : RenderParams -> num) :
  (forall val p, field (setter val p) = val) -> ~ clamps setter field.
Proof.
  intros Hid (lo & hi & H).
  specialize (H (Fin (hi + 1)) initialParams).
  rewrite Hid in H. cbn in H. lra.
Qed.

(** C4 (as stated) fails: no setter clamps; a value far outside any
    slider range, and [NaN], are stored unchanged. *)
Lemma C4_setters_do_not_clamp :
  ~ clamps setAmplitude amplitude
  /\ ~ clamps setFrequency frequency
  /\ ~ clamps setSpeed speed
  /\ ~ clamps setHue hue
  /\ ~ clamps setMode mode
  /\ amplitude (setAmplitude (Fin 1000000) initialParams) = Fin 1000000
  /\ hue (setHue NaN initialParams) = NaN
  /\ mode (setMode (Fin 7) initialParams) = Fin 7.
Proof.
  repeat split; try (apply not_clamps_of_identity; reflexivity).
Qed.

(** ** The upload of [render] *)

Lemma or_else_zero : or_else (Fin 0) (Fin 0) = Fin 0.
Proof. unfold or_else, truthy. now rewrite (sign_of_zero 0 eq_refl). Qed.

(** Without capture the audio amplitude seen by [render] is 0. *)
Lemma audioAmpOf_inactive (a : AudioAnalyzer) :
  isActive a = false -> audioAmpOf (Some a) = (Return (Fin 0), Some a).
Proof.
  intros H. unfold audioAmpOf, Main.getAmplitude. rewrite H. cbn [negb].
  now rewrite or_else_zero.
Qed.

Lemma render_uploads (p : RenderParams) (width height time audioAmp : num)
    (an an' : option AudioAnalyzer) :
  audioAmpOf an = (Return audioAmp, an') ->
  render p width height an time
  = (Return (uniformsOf p width height time audioAmp), an').
Proof. intros H. unfold render. now rewrite H. Qed.

Lemma render_inversion (p : RenderParams) (width height time : num)
    (an an' : option AudioAnalyzer) (payload : list num) :
  render p width height an time = (Return payload, an') ->
  exists audioAmp,
    audioAmpOf an = (Return audioAmp, an')
    /\ payload = uniformsOf p width height time audioAmp.
Proof.
  unfold render. destruct (audioAmpOf an) as [[v|] a']; intros H.
  - injection H as <- <-. now exists v.
  - discriminate H.
Qed.

(** ** Effective amplitude *)

(** C6: [render] computes the effective amplitude as
    [amplitude * (0.5 + audioAmp * 1.5)] and puts it second in the array
    it hands to [Float32Array].  For an audio amplitude in [[0,1]] and
    every base amplitude [A] that is a number, it lies between the
    products [0.5 * A] and [2.0 * A], which are the values it takes for
    a silent and for a full-scale input: in [[0.5 * A, 2.0 * A]] when
    [A >= 0] and in [[2.0 * A, 0.5 * A]] when [A <= 0]. *)
Theorem C6_effective_amplitude_bounds
    (p : RenderParams) (width height time : num) (f : R) :
  amplitude p <> NaN ->
  0 <= f <= 1 ->
  let A := amplitude p in
  let e := effectiveAmp p (Fin f) in
  nth 1 (uniformsOf p width height time (Fin f)) NaN = e
  /\ e = (A * (Fin 0.5 + Fin f * Fin 1.5))%js
  /\ effectiveAmp p (Fin 0) = (Fin 0.5 * A)%js
  /\ effectiveAmp p (Fin 1) = (Fin 2.0 * A)%js
  /\ (num_le (Fin 0) A \/ num_le A (Fin 0))
  /\ (num_le (Fin 0) A ->
      num_le (Fin 0.5 * A)%js e /\ num_le e (Fin 2.0 * A)%js)
  /\ (num_le A (Fin 0) ->
      num_le (Fin 2.0 * A)%js e /\ num_le e (Fin 0.5 * A)%js).
Proof.
  intros HA Hf A e. unfold e, A, effectiveAmp.
  split; [reflexivity|]. split; [reflexivity|].
  assert (Hc : 0 < 0.5 + f * 1.5) by lra.
  assert (H0 : 0 < 0.5 + 0 * 1.5) by lra.
  assert (H1 : 0 < 0.5 + 1 * 1.5) by lra.
  assert (H05 : 0 < 0.5) by lra.
  assert (H2 : 0 < 2.0) by lra.
  destruct (amplitude p) as [a| | |]; [| | |contradiction];
    cbn [add mul num_le];
    rewrite ?(sign_of_pos _ Hc), ?(sign_of_pos _ H0), ?(sign_of_pos _ H1),
      ?(sign_of_pos _ H05), ?(sign_of_pos _ H2);
    cbn [num_le].
  - split; [apply Fin_eq; lra|]. split; [apply Fin_eq; lra|].
    split; [lra|]. split; intros Ha; split; nra.
  - repeat split; auto.
  - repeat split; auto.
Qed.

Lemma C6_effective_amplitude_witness :
  effectiveAmp (setAmplitude (Fin (-2)) initialParams) (Fin 0.5)
  = (Fin (-2) * (Fin 0.5 + Fin 0.5 * Fin 1.5))%js
  /\ num_le (Fin 2.0 * Fin (-2))%js
       (effectiveAmp (setAmplitude (Fin (-2)) initialParams) (Fin 0.5))
  /\ num_le (effectiveAmp (setAmplitude (Fin (-2)) initialParams) (Fin 0.5))
       (Fin 0.5 * Fin (-2))%js.
Proof.
  assert (HA : amplitude (setAmplitude (Fin (-2)) initialParams) <> NaN)
    by discriminate.
  assert (Hf : 0 <= 0.5 <= 1) by lra.
  assert (Hn : num_le (Fin (-2)) (Fin 0)) by (cbn; lra).
  destruct (C6_effective_amplitude_bounds
              (setAmplitude (Fin (-2)) initialParams)
              (Fin 800) (Fin 600) (Fin 0) 0.5 HA Hf)
    as (_ & H2 & _ & _ & _ & _ & H3).
  split; [exact H2 | exact (H3 Hn)].
Defined.

(** ** The uniform payload *)

(** C7 (as amended): the payload uploaded by [render] is a
    [Float32Array] of eight elements, 32 bytes, the size of the uniform
    buffer, holding in this order time, effective amplitude, frequency,
    speed, width, height, hue and mode.  All eight, the mode included,
    are [f32] elements, at the offsets of the [Uniforms] structure of the
    inline shader (whose [mode] is an [f32]); the structure of wave.wgsl
    has the same size and offsets and declares its last member [u32]. *)
Theorem C7_uniform_payload_is_eight_f32
    (p : RenderParams) (width height time : num)
    (an an' : option AudioAnalyzer) (payload : list num) :
  render p width height an time = (Return payload, an') ->
  (exists audioAmp,
     audioAmpOf an = (Return audioAmp, an')
     /\ payload = [ time; effectiveAmp p audioAmp; frequency p; speed p;
                    width; height; hue p; mode p ])
  /\ byteLength payload = 32%nat
  /\ byteLength payload = uniformBufferSize
  /\ Layout.float32ArrayComponents payload
     = [ (0, Layout.f32); (4, Layout.f32); (8, Layout.f32); (12, Layout.f32);
         (16, Layout.f32); (20, Layout.f32); (24, Layout.f32);
         (28, Layout.f32) ]%nat
  /\ Layout.components Layout.inlineUniforms 0
     = Layout.float32ArrayComponents payload
  /\ Layout.structSize Layout.inlineUniforms = 32%nat
  /\ Layout.components Layout.waveUniforms 0
     = [ (0, Layout.f32); (4, Layout.f32); (8, Layout.f32); (12, Layout.f32);
         (16, Layout.f32); (20, Layout.f32); (24, Layout.f32);
         (28, Layout.u32) ]%nat
  /\ Layout.structSize Layout.waveUniforms = 32%nat.
Proof.
  intros H. apply render_inversion in H. destruct H as (audioAmp & Ha & ->).
  split; [now exists audioAmp|].
  repeat split.
Qed.

Lemma C7_uniform_payload_witness :
  byteLength (uniformsOf initialParams (Fin 800) (Fin 600) (Fin 0) (Fin 0))
  = 32%nat
  /\ Layout.components Layout.inlineUniforms 0
     = Layout.float32ArrayComponents
         (uniformsOf initialParams (Fin 800) (Fin 600) (Fin 0) (Fin 0)).
Proof.
  destruct (C7_uniform_payload_is_eight_f32 initialParams (Fin 800) (Fin 600)
              (Fin 0) (Some new_AudioAnalyzer) (Some new_AudioAnalyzer) _
              (render_uploads initialParams (Fin 800) (Fin 600) (Fin 0)
                 (Fin 0) _ _ (audioAmpOf_inactive new_AudioAnalyzer eq_refl)))
    as (_ & H2 & _ & _ & H5 & _).
  split; [exact H2 | exact H5].
Defined.

(** C7 (as stated) fails on the mode: the eighth element written by
    [render] is an [f32] like the others, not a [u32]. *)
Lemma C7_mode_is_written_as_f32 :
  render (setMode (Fin 1) initialParams) (Fin 800) (Fin 600)
         (Some new_AudioAnalyzer) (Fin 0)
  = (Return (uniformsOf (setMode (Fin 1) initialParams)
                        (Fin 800) (Fin 600) (Fin 0) (Fin 0)),
     Some new_AudioAnalyzer)
  /\ nth 7 (uniformsOf (setMode (Fin 1) initialParams)
                       (Fin 800) (Fin 600) (Fin 0) (Fin 0)) NaN
     = Fin 1
  /\ nth 7 (Layout.float32ArrayComponents
              (uniformsOf (setMode (Fin 1) initialParams)
                          (Fin 800) (Fin 600) (Fin 0) (Fin 0)))
         (0%nat, Layout.u32)
     = (28%nat, Layout.f32)
  /\ Layout.float32ArrayComponents
       (uniformsOf (setMode (Fin 1) initialParams)
                   (Fin 800) (Fin 600) (Fin 0) (Fin 0))
     <> Layout.components Layout.waveUniforms 0.
Proof.
  split.
  { apply render_uploads. now apply audioAmpOf_inactive. }
  split; [reflexivity|].
  split; [reflexivity|].
  intros H. apply (f_equal (fun l => nth 7 l (0%nat, Layout.u32))) in H.
  discriminate H.
Qed.

(** ** Polling *)

Lemma getFloatFrequencyData_same_length (node : AnalyserNode)
    (array : list num) :
  List.length (spectrum node) = List.length array ->
  getFloatFrequencyData node array = spectrum node.
Proof.
  intros H. unfold getFloatFrequencyData.
  rewrite <- H, firstn_all, H, skipn_all. apply app_nil_r.
Qed.

Lemma analyzerOn_polls (node : AnalyserNode) :
  List.length (spectrum node) = (fftSize node / 2)%nat ->
  getFrequencyData (analyzerOn node)
  = (Return (Some (spectrum node)),
     set_frequencyData (analyzerOn node) (Some (spectrum node))).
Proof.
  intros H. unfold getFrequencyData, analyzerOn.
  cbn [analyser isActive frequencyData].
  rewrite getFloatFrequencyData_same_length; [reflexivity|].
  now rewrite repeat_length.
Qed.

Lemma half_of_double (k : nat) : (2 * k / 2)%nat = k.
Proof. rewrite Nat.mul_comm. apply Nat.div_mul. discriminate. Qed.

Lemma mainNode_polls (frame : list num) :
  getFrequencyData (analyzerOn (mainNode frame))
  = (Return (Some frame),
     set_frequencyData (analyzerOn (mainNode frame)) (Some frame)).
Proof.
  apply (analyzerOn_polls (mainNode frame)). cbn [spectrum fftSize mainNode].
  now rewrite half_of_double.
Qed.

Lemma audioNode_polls (frame : list num) :
  getFrequencyData (analyzerOn (audioNode frame))
  = (Return (Some frame),
     set_frequencyData (analyzerOn (audioNode frame)) (Some frame)).
Proof.
  apply (analyzerOn_polls (audioNode frame)). cbn [spectrum fftSize audioNode].
  now rewrite half_of_double.
Qed.

(** What the methods return once the poll has delivered [data]. *)
Section ActivePoll.
Variables (this this' : AudioAnalyzer) (data : list num).
Hypothesis Hactive : isActive this = true.
Hypothesis Hpoll : getFrequencyData this = (Return (Some data), this').

Lemma Audio_getAmplitude_active :
  Audio.getAmplitude this = (Return (Audio.amplitudeOf data), this').
Proof.
  unfold Audio.getAmplitude. now rewrite Hactive, Hpoll.
Qed.

Lemma Main_getAmplitude_active :
  Main.getAmplitude this = (Return (Main.amplitudeOf data), this').
Proof.
  unfold Main.getAmplitude. now rewrite Hactive, Hpoll.
Qed.

Lemma Audio_getFrequencyBands_active (n : nat) :
  Audio.getFrequencyBands this n = (Return (bandsOf data n), this').
Proof.
  unfold Audio.getFrequencyBands. now rewrite Hactive, Hpoll.
Qed.

Lemma Main_getFrequencyBands_active (n : nat) :
  Main.getFrequencyBands this n = (Return (bandsOf data n), this').
Proof.
  unfold Main.getFrequencyBands. now rewrite Hactive, Hpoll.
Qed.

End ActivePoll.

(** ** Ranges of the active results *)

Lemma at_index_magnitude (data : list num) (j : nat) :
  Forall is_magnitude data -> (j < List.length data)%nat ->
  is_magnitude (at_index data j).
Proof.
  intros Hd Hj. unfold at_index.
  rewrite Forall_forall in Hd. apply Hd. now apply nth_In.
Qed.

Lemma bandValue_in01 (data : list num) (n i : nat) :
  Forall is_magnitude data ->
  (1 <= n <= List.length data)%nat -> (i < n)%nat ->
  in01 (bandValue data (samplesPerBand (List.length data) n) i).
Proof.
  intros Hd Hn Hi. unfold bandValue.
  pose proof (samplesPerBand_pos _ _ Hn) as Hpos.
  pose proof (samplesPerBand_total (List.length data) n) as Htot.
  rewrite (bandDivisor_inside _ _ _ Hi), (bandIndices_inside _ _ _ Hi).
  set (spb := samplesPerBand (List.length data) n) in *.
  unfold of_Z. rewrite <- INR_IZR_INZ.
  replace (Fin (INR spb)) with (of_nat (List.length (seq (i * spb) spb)))
    by (unfold of_nat; now rewrite length_seq).
  apply (average_in01 (fun j => normalized100 (at_index data j))).
  - destruct spb; [lia | discriminate].
  - apply Forall_forall. intros j Hj. apply in_seq in Hj.
    apply normalized100_in01, at_index_magnitude; [assumption | nia].
Qed.

Lemma bandsOf_length (data : list num) (n : nat) :
  List.length (bandsOf data n) = n.
Proof. unfold bandsOf. now rewrite length_map, length_seq. Qed.

Lemma bandsOf_in01 (data : list num) (n : nat) :
  Forall is_magnitude data ->
  (1 <= n <= List.length data)%nat ->
  Forall in01 (bandsOf data n).
Proof.
  intros Hd Hn. unfold bandsOf. apply Forall_forall.
  intros b Hb. apply in_map_iff in Hb. destruct Hb as (i & <- & Hi).
  apply in_seq in Hi. apply bandValue_in01; [assumption | assumption | lia].
Qed.

Lemma average_of_frame (f : num -> num) (data : list num) :
  (forall x, is_magnitude x -> in01 (f x)) ->
  Forall is_magnitude data -> (1 <= List.length data)%nat ->
  exists avg,
    (fold_left (fun sum x => (sum + f x)%js) data (Fin 0)
     / of_nat (List.length data))%js = Fin avg
    /\ 0 <= avg <= 1.
Proof.
  intros Hf Hd Hlen.
  assert (H : in01 (fold_left (fun sum x => (sum + f x)%js) data (Fin 0)
                    / of_nat (List.length data))%js).
  { apply (average_in01 f).
    - destruct data; [cbn in Hlen; lia | discriminate].
    - eapply Forall_impl; [|exact Hd]. exact Hf. }
  destruct (_ / _)%js as [avg| | |]; try contradiction.
  now exists avg.
Qed.

Lemma Audio_amplitudeOf_in01 (data : list num) :
  Forall is_magnitude data -> (1 <= List.length data)%nat ->
  in01 (Audio.amplitudeOf data).
Proof.
  intros Hd Hlen. unfold Audio.amplitudeOf.
  destruct (average_of_frame normalized100 data normalized100_in01 Hd Hlen)
    as (avg & -> & Havg).
  cbn. unfold Rmin. destruct (Rle_dec 1 avg); lra.
Qed.

Lemma Rpower_unit_interval (a e : R) :
  0 < a <= 1 -> 0 <= e -> 0 < Rpower a e <= 1.
Proof.
  intros Ha He. split.
  - unfold Rpower. apply exp_pos.
  - assert (H1 : Rpower 1 e = 1).
    { unfold Rpower. rewrite ln_1, Rmult_0_r. apply exp_0. }
    pose proof (Rle_Rpower_l a 1 e He) as H. rewrite H1 in H.
    apply H. lra.
Qed.

Lemma Math_pow_08_unit (avg : R) :
  0 <= avg <= 1 -> in01 (Math_pow (Fin avg) (Fin 0.8)).
Proof.
  intros Havg. unfold Math_pow.
  rewrite (sign_of_pos 0.8) by lra.
  destruct (sign_of_cases avg) as [[H ->]|[[H ->]|[H ->]]].
  - lra.
  - cbn. lra.
  - cbn. pose proof (Rpower_unit_interval avg 0.8). lra.
Qed.

Lemma Main_amplitudeOf_range (data : list num) :
  Forall is_magnitude data -> (1 <= List.length data)%nat ->
  in_range 0 1.5 (Main.amplitudeOf data).
Proof.
  intros Hd Hlen. unfold Main.amplitudeOf.
  destruct (average_of_frame normalized90 data normalized90_in01 Hd Hlen)
    as (avg & -> & Havg).
  pose proof (Math_pow_08_unit avg Havg) as Hp.
  destruct (Math_pow _ _) as [r| | |]; try contradiction.
  cbn in *. lra.
Qed.

(** ** Unguarded divisions *)

Lemma bandValue_no_samples (data : list num) (i : nat) :
  bandValue data 0 i = NaN.
Proof.
  unfold bandValue, bandIndices, bandDivisor, bandEnd, bandStart.
  rewrite !Nat.mul_0_r. cbn [Nat.min Nat.sub seq fold_left].
  rewrite Z.sub_diag. apply div_zero_zero.
Qed.

Lemma bandDivisor_no_samples (len i : nat) : bandDivisor len 0 i = 0%Z.
Proof.
  unfold bandDivisor, bandEnd, bandStart.
  rewrite !Nat.mul_0_r. cbn [Nat.min]. apply Z.sub_diag.
Qed.

Lemma samplesPerBand_small (len n : nat) :
  (len < n)%nat -> samplesPerBand len n = 0%nat.
Proof. intros H. unfold samplesPerBand. now apply Nat.div_small. Qed.

Lemma map_constant {A B : Type} (b : B) (l : list A) :
  map (fun _ => b) l = repeat b (List.length l).
Proof. induction l as [|a l IH]; cbn; [reflexivity | now rewrite IH]. Qed.

(** More bands than bins: every window is empty and every band is 0/0. *)
Lemma bandsOf_more_bands_than_bins (data : list num) (n : nat) :
  (List.length data < n)%nat -> bandsOf data n = repeat NaN n.
Proof.
  intros H. unfold bandsOf. rewrite (samplesPerBand_small _ _ H).
  rewrite (map_ext _ (fun _ => NaN) (bandValue_no_samples data)).
  now rewrite map_constant, length_seq.
Qed.

Lemma Audio_amplitudeOf_empty : Audio.amplitudeOf [] = NaN.
Proof.
  unfold Audio.amplitudeOf, of_nat. cbn [fold_left List.length].
  change (INR 0) with 0. now rewrite div_zero_zero.
Qed.

Lemma Main_amplitudeOf_empty : Main.amplitudeOf [] = NaN.
Proof.
  unfold Main.amplitudeOf, of_nat. cbn [fold_left List.length].
  change (INR 0) with 0. rewrite div_zero_zero. unfold Math_pow.
  now rewrite (sign_of_pos 0.8) by lra.
Qed.

(** ** A frame at or above the ceiling of main.js *)

Lemma sum_loop_ones (f : num -> num) (l : list num) (s0 : R) :
  Forall (fun x => f x = Fin 1) l ->
  fold_left (fun sum x => (sum + f x)%js) l (Fin s0)
  = Fin (s0 + INR (List.length l)).
Proof.
  revert s0. induction l as [|x l IH]; intros s0 Hl.
  - cbn. apply Fin_eq. lra.
  - inversion Hl as [|? ? Hx Hl']; subst.
    cbn [fold_left]. rewrite Hx. cbn [add]. rewrite (IH _ Hl').
    apply Fin_eq. change (List.length (x :: l)) with (S (List.length l)).
    rewrite S_INR. lra.
Qed.

Lemma Main_amplitudeOf_loud (data : list num) :
  (1 <= List.length data)%nat ->
  Forall (fun x => exists a, x = Fin a /\ -30 <= a) data ->
  Main.amplitudeOf data = Fin 1.5.
Proof.
  intros Hlen Hd. unfold Main.amplitudeOf.
  rewrite (sum_loop_ones normalized90 data 0).
  - unfold of_nat.
    assert (Hpos : 0 < INR (List.length data)) by (apply lt_0_INR; lia).
    rewrite div_fin_pos by assumption.
    replace ((0 + INR (List.length data)) / INR (List.length data)) with 1
      by (field; lra).
    unfold Math_pow. rewrite (sign_of_pos 0.8), (sign_of_pos 1) by lra.
    cbn [mul]. apply Fin_eq.
    unfold Rpower. rewrite ln_1, Rmult_0_r, exp_0. lra.
  - eapply Forall_impl; [|exact Hd].
    intros x (a & -> & Ha). rewrite normalized90_Fin.
    apply Fin_eq, Rclamp_high. lra.
Qed.

(** ** The end-to-end scenario *)

Lemma scenario_bands :
  bandsOf scenarioFrame 4 = [Fin 0; Fin 0; Fin 0.9; Fin 0.9].
Proof.
  unfold bandsOf, scenarioFrame. cbn [List.length].
  change (samplesPerBand 8 4) with 2%nat.
  cbn [seq map]. unfold bandValue. cbn [List.length].
  change (bandIndices 8 2 0) with [0; 1]%nat.
  change (bandIndices 8 2 1) with [2; 3]%nat.
  change (bandIndices 8 2 2) with [4; 5]%nat.
  change (bandIndices 8 2 3) with [6; 7]%nat.
  change (bandDivisor 8 2 0) with 2%Z.
  change (bandDivisor 8 2 1) with 2%Z.
  change (bandDivisor 8 2 2) with 2%Z.
  change (bandDivisor 8 2 3) with 2%Z.
  cbn [fold_left at_index nth].
  rewrite !normalized100_Fin. cbn [add]. unfold of_Z.
  rewrite !div_fin_pos by lra.
  rewrite (Rclamp_mid ((-100 + 100) / 100)) by lra.
  rewrite (Rclamp_mid ((-10 + 100) / 100)) by lra.
  repeat (f_equal; try lra).
Qed.

(** ** Results on the active analyzer *)

(** C2 (as amended): with capture active and a polled frame of at least
    one bin, none of them [NaN]: [getAmplitude()] of the stand-alone
    module is in [[0,1]]; [getAmplitude()] of main.js, which multiplies
    by the boost 1.5, is in [[0,1.5]]; and for every band count
    [1 <= n <= bins], [getFrequencyBands(n)] has [n] entries, every one
    in [[0,1]]. *)
Theorem C2_active_amplitude_and_band_ranges
    (this this' : AudioAnalyzer) (data : list num) (n : nat) :
  isActive this = true ->
  getFrequencyData this = (Return (Some data), this') ->
  Forall is_magnitude data ->
  (1 <= List.length data)%nat ->
  (exists v, Audio.getAmplitude this = (Return v, this') /\ in01 v)
  /\ (exists v, Main.getAmplitude this = (Return v, this')
                /\ in_range 0 1.5 v)
  /\ ((1 <= n <= List.length data)%nat ->
      exists bands,
        Audio.getFrequencyBands this n = (Return bands, this')
        /\ Main.getFrequencyBands this n = (Return bands, this')
        /\ List.length bands = n
        /\ Forall in01 bands).
Proof.
  intros Hact Hpoll Hd Hlen.
  split.
  { exists (Audio.amplitudeOf data). split.
    - now apply Audio_getAmplitude_active.
    - now apply Audio_amplitudeOf_in01. }
  split.
  { exists (Main.amplitudeOf data). split.
    - now apply Main_getAmplitude_active.
    - now apply Main_amplitudeOf_range. }
  intros Hn. exists (bandsOf data n).
  split; [now apply Audio_getFrequencyBands_active|].
  split; [now apply Main_getFrequencyBands_active|].
  split; [apply bandsOf_length | now apply bandsOf_in01].
Qed.

Lemma scenarioFrame_magnitudes : Forall is_magnitude scenarioFrame.
Proof. repeat constructor; discriminate. Qed.

Lemma C2_active_ranges_witness :
  (exists v, Audio.getAmplitude (analyzerOn (audioNode scenarioFrame))
             = (Return v, set_frequencyData
                            (analyzerOn (audioNode scenarioFrame))
                            (Some scenarioFrame))
             /\ in01 v)
  /\ (exists bands,
        Main.getFrequencyBands (analyzerOn (audioNode scenarioFrame)) 4
        = (Return bands, set_frequencyData
                           (analyzerOn (audioNode scenarioFrame))
                           (Some scenarioFrame))
        /\ Forall in01 bands).
Proof.
  assert (Hlen : (1 <= List.length scenarioFrame)%nat) by (cbn; lia).
  assert (Hn : (1 <= 4 <= List.length scenarioFrame)%nat) by (cbn; lia).
  destruct (C2_active_amplitude_and_band_ranges
              (analyzerOn (audioNode scenarioFrame)) _ scenarioFrame 4
              eq_refl (audioNode_polls scenarioFrame)
              scenarioFrame_magnitudes Hlen) as (H1 & _ & H3).
  split; [exact H1|].
  destruct (H3 Hn) as (bands & _ & Hb & _ & Hr).
  exists bands. split; [exact Hb | exact Hr].
Defined.

(** C2 (as stated) fails twice.  In main.js a frame of 1024 bins at
    -30 dB has amplitude [pow(1, 0.8) * 1.5 = 1.5]; and with one bin and
    two bands both bands are [0/0 = NaN]. *)
Lemma C2_amplitude_above_one_and_NaN_bands :
  fst (Main.getAmplitude (analyzerOn (mainNode (repeat (Fin (-30)) 1024))))
  = Return (Fin 1.5)
  /\ ~ in01 (Fin 1.5)
  /\ fst (Main.getFrequencyBands (analyzerOn (mainNode [Fin (-50)])) 2)
     = Return [NaN; NaN]
  /\ fst (Audio.getFrequencyBands (analyzerOn (audioNode [Fin (-50)])) 2)
     = Return [NaN; NaN]
  /\ ~ in01 NaN.
Proof.
  split.
  { rewrite (Main_getAmplitude_active
               (analyzerOn (mainNode _)) _ _ eq_refl (mainNode_polls _)).
    cbn [fst]. f_equal. apply Main_amplitudeOf_loud.
    - rewrite repeat_length. lia.
    - apply Forall_forall. intros x Hx. apply repeat_spec in Hx.
      exists (-30). split; [assumption | lra]. }
  split; [cbn; lra|].
  split.
  { rewrite (Main_getFrequencyBands_active
               (analyzerOn (mainNode _)) _ _ eq_refl (mainNode_polls _)).
    cbn [fst]. f_equal. apply (bandsOf_more_bands_than_bins [Fin (-50)] 2).
    cbn. lia. }
  split.
  { rewrite (Audio_getFrequencyBands_active
               (analyzerOn (audioNode _)) _ _ eq_refl (audioNode_polls _)).
    cbn [fst]. f_equal. apply (bandsOf_more_bands_than_bins [Fin (-50)] 2).
    cbn. lia. }
  cbn. tauto.
Qed.

(** C3 (as amended): with capture active and [n >= 1] bands, the divisor
    of every band is [floor(bins / n)], which is positive exactly when
    [n <= bins].  The division is not guarded: with more bands than bins
    (so for every zero-length frame) every divisor is 0 and every band
    is [NaN], and on a zero-length frame [getAmplitude()] is [NaN] in
    both copies of the class. *)
Theorem C3_band_divisor_and_empty_frame
    (this this' : AudioAnalyzer) (data : list num) (n : nat) :
  isActive this = true ->
  getFrequencyData this = (Return (Some data), this') ->
  (1 <= n)%nat ->
  (forall i, (i < n)%nat ->
     bandDivisor (List.length data) (samplesPerBand (List.length data) n) i
     = Z.of_nat (List.length data / n))
  /\ ((n <= List.length data)%nat -> (0 < Z.of_nat (List.length data / n))%Z)
  /\ ((List.length data < n)%nat ->
      Z.of_nat (List.length data / n) = 0%Z
      /\ Audio.getFrequencyBands this n = (Return (repeat NaN n), this')
      /\ Main.getFrequencyBands this n = (Return (repeat NaN n), this'))
  /\ (data = [] ->
      Audio.getAmplitude this = (Return NaN, this')
      /\ Main.getAmplitude this = (Return NaN, this')).
Proof.
  intros Hact Hpoll Hn.
  split.
  { intros i Hi. now apply bandDivisor_inside. }
  split.
  { intros Hle.
    pose proof (samplesPerBand_pos (List.length data) n (conj Hn Hle)) as H.
    unfold samplesPerBand in H. lia. }
  split.
  { intros Hlt. split.
    - pose proof (samplesPerBand_small _ _ Hlt) as H.
      unfold samplesPerBand in H. now rewrite H.
    - rewrite (Audio_getFrequencyBands_active _ _ _ Hact Hpoll),
        (Main_getFrequencyBands_active _ _ _ Hact Hpoll).
      now rewrite (bandsOf_more_bands_than_bins _ _ Hlt). }
  intros ->.
  rewrite (Audio_getAmplitude_active _ _ _ Hact Hpoll),
    (Main_getAmplitude_active _ _ _ Hact Hpoll).
  now rewrite Audio_amplitudeOf_empty, Main_amplitudeOf_empty.
Qed.

Lemma C3_band_divisor_witness :
  bandDivisor 8 (samplesPerBand 8 4) 3 = Z.of_nat (8 / 4)
  /\ (0 < Z.of_nat (8 / 4))%Z.
Proof.
  assert (H1 : (1 <= 4)%nat) by lia.
  assert (H3 : (3 < 4)%nat) by lia.
  assert (H8 : (4 <= List.length scenarioFrame)%nat) by (cbn; lia).
  destruct (C3_band_divisor_and_empty_frame
              (analyzerOn (audioNode scenarioFrame)) _ scenarioFrame 4
              eq_refl (audioNode_polls scenarioFrame) H1)
    as (Hd & Hp & _).
  split; [exact (Hd 3%nat H3) | exact (Hp H8)].
Defined.

(** C3 (as stated) fails: nothing guards the divisions.  On a
    zero-length frame [getAmplitude()] returns [NaN] and
    [getFrequencyBands(4)] returns four [NaN], not the idle values 0 and
    0.1; the divisor of each of these bands is 0. *)
Lemma C3_zero_length_frame_gives_NaN :
  fst (Audio.getAmplitude (analyzerOn (audioNode []))) = Return NaN
  /\ fst (Main.getAmplitude (analyzerOn (mainNode []))) = Return NaN
  /\ fst (Audio.getFrequencyBands (analyzerOn (audioNode [])) 4)
     = Return [NaN; NaN; NaN; NaN]
  /\ fst (Audio.getFrequencyBands (analyzerOn (audioNode [])) 4)
     <> Return (idleBands 4)
  /\ bandDivisor 0 (samplesPerBand 0 4) 0 = 0%Z.
Proof.
  assert (Hb : fst (Audio.getFrequencyBands (analyzerOn (audioNode [])) 4)
               = Return [NaN; NaN; NaN; NaN]).
  { rewrite (Audio_getFrequencyBands_active
               (analyzerOn (audioNode _)) _ _ eq_refl (audioNode_polls _)).
    cbn [fst]. f_equal. apply (bandsOf_more_bands_than_bins [] 4).
    cbn. lia. }
  split.
  { rewrite (Audio_getAmplitude_active
               (analyzerOn (audioNode _)) _ _ eq_refl (audioNode_polls _)).
    cbn [fst]. f_equal. apply Audio_amplitudeOf_empty. }
  split.
  { rewrite (Main_getAmplitude_active
               (analyzerOn (mainNode _)) _ _ eq_refl (mainNode_polls _)).
    cbn [fst]. f_equal. apply Main_amplitudeOf_empty. }
  split; [exact Hb|].
  split; [rewrite Hb; discriminate | reflexivity].
Qed.

(** C9 (as amended): with capture active, floor -100 dB and ceiling
    -10 dB, [getFrequencyBands(4)] on the eight-bin frame
    [-100,-100,-100,-100,-10,-10,-10,-10] returns exactly
    [0, 0, 0.9, 0.9]: the loop divides by 100, not by the 90 dB between
    floor and ceiling, so -10 dB maps to 0.9.  The result is within 0.1
    of [0,0,1,1] and no closer. *)
Theorem C9_scenario_bands_are_0_0_09_09 :
  minDecibels (audioNode scenarioFrame) = -100
  /\ maxDecibels (audioNode scenarioFrame) = -10
  /\ Audio.getFrequencyBands (analyzerOn (audioNode scenarioFrame)) 4
     = (Return [Fin 0; Fin 0; Fin 0.9; Fin 0.9],
        set_frequencyData (analyzerOn (audioNode scenarioFrame))
                          (Some scenarioFrame))
  /\ Main.getFrequencyBands (analyzerOn (audioNode scenarioFrame)) 4
     = (Return [Fin 0; Fin 0; Fin 0.9; Fin 0.9],
        set_frequencyData (analyzerOn (audioNode scenarioFrame))
                          (Some scenarioFrame))
  /\ approx 0.1 [Fin 0; Fin 0; Fin 0.9; Fin 0.9]
                [Fin 0; Fin 0; Fin 1; Fin 1].
Proof.
  split; [reflexivity|]. split; [reflexivity|].
  split.
  { rewrite (Audio_getFrequencyBands_active
               (analyzerOn (audioNode _)) _ _ eq_refl (audioNode_polls _)).
    now rewrite scenario_bands. }
  split.
  { rewrite (Main_getFrequencyBands_active
               (analyzerOn (audioNode _)) _ _ eq_refl (audioNode_polls _)).
    now rewrite scenario_bands. }
  repeat constructor; unfold Rabs; destruct (Rcase_abs _); lra.
Qed.

(** C9 (as stated) fails: the two upper bands are 0.9, so the result is
    not within any tolerance below 0.1 of [0,0,1,1]. *)
Lemma C9_scenario_bands_miss_one :
  fst (Audio.getFrequencyBands (analyzerOn (audioNode scenarioFrame)) 4)
  = Return [Fin 0; Fin 0; Fin 0.9; Fin 0.9]
  /\ forall eps, eps < 0.1 ->
       ~ approx eps (bandsOf scenarioFrame 4) [Fin 0; Fin 0; Fin 1; Fin 1].
Proof.
  split.
  { rewrite (Audio_getFrequencyBands_active
               (analyzerOn (audioNode _)) _ _ eq_refl (audioNode_polls _)).
    now rewrite scenario_bands. }
  intros eps Heps H. rewrite scenario_bands in H. unfold approx in H.
  inversion H as [|? ? ? ? _ H1]; subst; clear H.
  inversion H1 as [|? ? ? ? _ H2]; subst; clear H1.
  inversion H2 as [|? ? ? ? H3 _]; subst; clear H2.
  unfold Rabs in H3. destruct (Rcase_abs _); lra.
Qed.

(** ** The mode dispatch of the shaders *)

Lemma WaveShader_dispatch_default
    (u : WaveShader.Uniforms) (m : N) (uv : Wgsl.vec2) (t : R) :
  (4 < m)%N ->
  WaveShader.dispatch u m uv t = WaveShader.sine_waves u uv t.
Proof.
  intros Hm. unfold WaveShader.dispatch.
  destruct m as [|p]; [lia|].
  do 3 (try destruct p as [p|p|]); try reflexivity; lia.
Qed.

Lemma InlineShader_dispatch_default
    (u : InlineShader.Uniforms) (m : N) (uv : Wgsl.vec2) (t : R) :
  (4 <= m)%N ->
  InlineShader.dispatch u m uv t = InlineShader.surface_case u uv t.
Proof.
  intros Hm. unfold InlineShader.dispatch.
  destruct m as [|p]; [lia|].
  do 3 (try destruct p as [p|p|]); try reflexivity; lia.
Qed.

Lemma Int_part_lower (x : R) (z : Z) : IZR z <= x -> (z <= Int_part x)%Z.
Proof.
  intros H. destruct (base_Int_part x) as [_ Hb].
  assert (Hlt : IZR z < IZR (Int_part x) + 1) by lra.
  rewrite <- plus_IZR in Hlt. apply lt_IZR in Hlt. lia.
Qed.

Lemma u32_of_f32_lower (x : R) (k : Z) :
  (0 <= k <= 4294967295)%Z -> IZR k <= x ->
  (Z.to_N k <= Wgsl.u32_of_f32 x)%N.
Proof.
  intros Hk Hx. unfold Wgsl.u32_of_f32.
  assert (H0 : 0 <= x).
  { apply Rle_trans with (IZR k); [|assumption]. apply IZR_le. lia. }
  destruct (Rle_dec 0 x) as [_|Hn]; [|contradiction].
  pose proof (Int_part_lower x k Hx). lia.
Qed.

Lemma u32_of_f32_nonpositive (x : R) : x < 1 -> Wgsl.u32_of_f32 x = 0%N.
Proof.
  intros Hx. unfold Wgsl.u32_of_f32.
  destruct (Rle_dec 0 x) as [H0|Hn].
  - rewrite <- (Int_part_spec x 0); [reflexivity | cbn; lra].
  - assert (Hpos : (0 <= Int_part (- x))%Z).
    { apply Int_part_lower. cbn. lra. }
    lia.
Qed.

(** C5 (as amended): in wave.wgsl every mode outside [{0,1,2,3,4}] takes
    the explicit default branch, which evaluates [sine_waves]: the wave
    scalar equals the one of mode 0 at every [uv] and time.  In the
    inline shader of main.js the switch has four cases and its default
    branch holds the Surface formula: every mode from 3.9 upwards (mode 4
    and everything above the enum) evaluates Surface, and every negative
    mode (everything below the enum) is converted to selector 0 and
    evaluates Sine. *)
Theorem C5_default_branch_of_each_shader
    (uw : WaveShader.Uniforms) (ui : InlineShader.Uniforms)
    (uv : Wgsl.vec2) (m : N) :
  (4 < m)%N ->
  WaveShader.fs_wave (WaveShader.with_mode uw m) uv
  = WaveShader.sine_waves uw uv (WaveShader.time uw * WaveShader.speed uw)
  /\ WaveShader.fs_wave (WaveShader.with_mode uw m) uv
     = WaveShader.fs_wave (WaveShader.with_mode uw 0) uv
  /\ (forall f : R, 3.9 <= f ->
        InlineShader.fs_wave (InlineShader.with_mode ui f) uv
        = InlineShader.surface_case ui uv
            (InlineShader.time ui * InlineShader.speed ui)
          * InlineShader.amplitude ui)
  /\ (forall f : R, f < 0 ->
        InlineShader.fs_wave (InlineShader.with_mode ui f) uv
        = InlineShader.sine_case ui uv
            (InlineShader.time ui * InlineShader.speed ui)
          * InlineShader.amplitude ui).
Proof.
  intros Hm.
  assert (Hw : WaveShader.fs_wave (WaveShader.with_mode uw m) uv
               = WaveShader.sine_waves uw uv
                   (WaveShader.time uw * WaveShader.speed uw)).
  { unfold WaveShader.fs_wave. cbn [WaveShader.mode WaveShader.with_mode].
    rewrite (WaveShader_dispatch_default _ _ _ _ Hm). reflexivity. }
  split; [exact Hw|].
  split; [rewrite Hw; reflexivity|].
  split.
  - intros f Hf. unfold InlineShader.fs_wave.
    cbn [InlineShader.mode InlineShader.with_mode].
    rewrite InlineShader_dispatch_default; [reflexivity|].
    apply (u32_of_f32_lower (f + 0.1) 4); [lia | lra].
  - intros f Hf. unfold InlineShader.fs_wave.
    cbn [InlineShader.mode InlineShader.with_mode].
    rewrite u32_of_f32_nonpositive by lra. reflexivity.
Qed.

Lemma C5_default_branch_witness :
  WaveShader.fs_wave (sampleWaveUniforms 7) (Wgsl.mkVec2 (-0.2) 0)
  = WaveShader.fs_wave (sampleWaveUniforms 0) (Wgsl.mkVec2 (-0.2) 0)
  /\ InlineShader.fs_wave (sampleInlineUniforms 7) (Wgsl.mkVec2 (-0.2) 0)
     = InlineShader.surface_case (sampleInlineUniforms 0)
         (Wgsl.mkVec2 (-0.2) 0) (0.3 * 1) * 1.
Proof.
  assert (Hm : (4 < 7)%N) by reflexivity.
  assert (Hf : 3.9 <= 7) by lra.
  destruct (C5_default_branch_of_each_shader
              (sampleWaveUniforms 0) (sampleInlineUniforms 0)
              (Wgsl.mkVec2 (-0.2) 0) 7 Hm) as (_ & H2 & H3 & _).
  split; [exact H2 | exact (H3 7 Hf)].
Defined.

(** C5 (as stated) fails in the inline shader of main.js, the one the
    page loads: for mode 5 the default branch evaluates Surface.  At
    [uv = (-0.2, 0)], time 0.3, speed, frequency and amplitude 1, mode 5
    gives [sin(0) * cos(0.3) = 0], while mode 0 gives
    [0.3 sin(-1.45) + 0.2 sin(-0.65) < 0]. *)
Lemma C5_inline_default_is_surface :
  InlineShader.fs_wave (sampleInlineUniforms 5) (Wgsl.mkVec2 (-0.2) 0) = 0
  /\ InlineShader.fs_wave (sampleInlineUniforms 0) (Wgsl.mkVec2 (-0.2) 0) < 0
  /\ InlineShader.fs_wave (sampleInlineUniforms 5) (Wgsl.mkVec2 (-0.2) 0)
     <> InlineShader.fs_wave (sampleInlineUniforms 0) (Wgsl.mkVec2 (-0.2) 0).
Proof.
  assert (H5 : InlineShader.fs_wave (sampleInlineUniforms 5)
                 (Wgsl.mkVec2 (-0.2) 0) = 0).
  { unfold InlineShader.fs_wave. cbn [InlineShader.mode sampleInlineUniforms].
    rewrite InlineShader_dispatch_default
      by (apply (u32_of_f32_lower (5 + 0.1) 4); [lia | lra]).
    unfold InlineShader.surface_case.
    cbn [InlineShader.frequency InlineShader.time InlineShader.speed
         InlineShader.amplitude sampleInlineUniforms Wgsl.vx Wgsl.vy].
    replace (-0.2 * 1 * 3 + 0.3 * 1 * 2) with 0 by lra.
    rewrite sin_0. lra. }
  assert (H0 : InlineShader.fs_wave (sampleInlineUniforms 0)
                 (Wgsl.mkVec2 (-0.2) 0) < 0).
  { unfold InlineShader.fs_wave. cbn [InlineShader.mode sampleInlineUniforms].
    rewrite u32_of_f32_nonpositive by lra.
    unfold InlineShader.dispatch, InlineShader.sine_case.
    cbn [InlineShader.frequency InlineShader.time InlineShader.speed
         InlineShader.amplitude sampleInlineUniforms Wgsl.vx Wgsl.vy].
    replace (-0.2 * 1 * 3 + 0.3 * 1 * 2) with 0 by lra.
    replace (-0.2 * 1 * 5 - 0.3 * 1 * 1.5) with (Ropp 1.45) by lra.
    replace (-0.2 * 1 * 7 + 0.3 * 1 * 2.5) with (Ropp 0.65) by lra.
    rewrite sin_0, !sin_neg.
    pose proof PI2_1 as Hpi.
    assert (Ha : 0 < sin 1.45) by (apply sin_gt_0; lra).
    assert (Hb : 0 < sin 0.65) by (apply sin_gt_0; lra).
    lra. }
  split; [exact H5|]. split; [exact H0|].
  rewrite H5. lra.
Qed.

(** * Further properties *)

(** ** Polling keeps the frame length *)

Lemma getFloatFrequencyData_length (node : AnalyserNode) (array : list num) :
  List.length (getFloatFrequencyData node array) = List.length array.
Proof.
  unfold getFloatFrequencyData.
  rewrite length_app, length_firstn, length_skipn. lia.
Qed.

Lemma getFloatFrequencyData_nth (node : AnalyserNode) (array : list num)
    (j : nat) (d : num) :
  (j < List.length array)%nat ->
  nth j (getFloatFrequencyData node array) d
  = if (j <? List.length (spectrum node))%nat
    then nth j (spectrum node) d else nth j array d.
Proof.
  intros Hj. unfold getFloatFrequencyData.
  destruct (Nat.ltb_spec j (List.length (spectrum node))) as [Hlt|Hge].
  - rewrite app_nth1 by (rewrite length_firstn; lia).
    rewrite nth_firstn.
    destruct (Nat.ltb_spec j (List.length array)); [reflexivity | lia].
  - rewrite firstn_all2 by lia.
    rewrite app_nth2 by lia. rewrite nth_skipn. f_equal. lia.
Qed.

(** The effect of [getFrequencyData()] on the object: only the buffer can
    change, and it keeps its length. *)
Lemma getFrequencyData_state (this : AudioAnalyzer) :
  let this' := snd (getFrequencyData this) in
  analyser this' = analyser this
  /\ isActive this' = isActive this
  /\ match frequencyData this, frequencyData this' with
     | Some buf, Some buf' => List.length buf' = List.length buf
     | None, None => True
     | _, _ => False
     end.
Proof.
  unfold getFrequencyData.
  destruct (analyser this) as [node|] eqn:Ea;
    destruct (isActive this) eqn:Ei;
    destruct (frequencyData this) as [buf|] eqn:Ef;
    cbn; rewrite ?Ea, ?Ei, ?Ef; repeat split; auto.
  apply getFloatFrequencyData_length.
Qed.

(** Every analysis method either leaves the object alone or has the
    effect of one [getFrequencyData()]. *)
Lemma Main_getAmplitude_state (this : AudioAnalyzer) :
  snd (Main.getAmplitude this) = this
  \/ snd (Main.getAmplitude this) = snd (getFrequencyData this).
Proof.
  unfold Main.getAmplitude. destruct (negb (isActive this)); [now left|].
  right. destruct (getFrequencyData this) as [[[d|]|] a]; reflexivity.
Qed.

Lemma Audio_getAmplitude_state (this : AudioAnalyzer) :
  snd (Audio.getAmplitude this) = this
  \/ snd (Audio.getAmplitude this) = snd (getFrequencyData this).
Proof.
  unfold Audio.getAmplitude. destruct (negb (isActive this)); [now left|].
  right. destruct (getFrequencyData this) as [[[d|]|] a]; reflexivity.
Qed.

Lemma Main_getFrequencyBands_state (this : AudioAnalyzer) (n : nat) :
  snd (Main.getFrequencyBands this n) = this
  \/ snd (Main.getFrequencyBands this n) = snd (getFrequencyData this).
Proof.
  unfold Main.getFrequencyBands. destruct (negb (isActive this)); [now left|].
  right. destruct (getFrequencyData this) as [[[d|]|] a]; reflexivity.
Qed.

Lemma Audio_getFrequencyBands_state (this : AudioAnalyzer) (n : nat) :
  snd (Audio.getFrequencyBands this n) = this
  \/ snd (Audio.getFrequencyBands this n) = snd (getFrequencyData this).
Proof.
  unfold Audio.getFrequencyBands. destruct (negb (isActive this)); [now left|].
  right. destruct (getFrequencyData this) as [[[d|]|] a]; reflexivity.
Qed.

Lemma Audio_getFrequencyRanges_state (this : AudioAnalyzer) :
  snd (Audio.getFrequencyRanges this) = this
  \/ snd (Audio.getFrequencyRanges this) = snd (getFrequencyData this).
Proof.
  unfold Audio.getFrequencyRanges. destruct (negb (isActive this)); [now left|].
  right. destruct (getFrequencyData this) as [[[d|]|] a]; reflexivity.
Qed.

Lemma same_frame_shape_refl (this : AudioAnalyzer) :
  same_frame_shape this this.
Proof.
  unfold same_frame_shape. repeat split.
  destruct (frequencyData this); auto.
Qed.

Lemma same_frame_shape_of_state (this this' : AudioAnalyzer) :
  this' = this \/ this' = snd (getFrequencyData this) ->
  same_frame_shape this this'.
Proof.
  intros [->| ->]; [apply same_frame_shape_refl|].
  apply getFrequencyData_state.
Qed.

(** The frame length is fixed for the life of the buffer.  Whatever
    the node reports (even a spectrum of another length), none of the
    analysis methods of either copy changes the analyser node, the
    active flag or the number of bins of [frequencyData]. *)
Theorem analysis_methods_keep_frame_length
    (this : AudioAnalyzer) (n : nat) :
  same_frame_shape this (snd (getFrequencyData this))
  /\ same_frame_shape this (snd (Main.getAmplitude this))
  /\ same_frame_shape this (snd (Audio.getAmplitude this))
  /\ same_frame_shape this (snd (Main.getFrequencyBands this n))
  /\ same_frame_shape this (snd (Audio.getFrequencyBands this n))
  /\ same_frame_shape this (snd (Audio.getFrequencyRanges this)).
Proof.
  split; [apply getFrequencyData_state|].
  split; [apply same_frame_shape_of_state, Main_getAmplitude_state|].
  split; [apply same_frame_shape_of_state, Audio_getAmplitude_state|].
  split; [apply same_frame_shape_of_state, Main_getFrequencyBands_state|].
  split; [apply same_frame_shape_of_state, Audio_getFrequencyBands_state|].
  apply same_frame_shape_of_state, Audio_getFrequencyRanges_state.
Qed.

(** ** Sums of clamped samples, whatever the samples *)

Lemma clamp01_unit_or_NaN (x : num) : unit_or_NaN (clamp01 x).
Proof.
  destruct x as [a| | |].
  - right. apply clamp01_in01. discriminate.
  - right. apply clamp01_in01. discriminate.
  - right. apply clamp01_in01. discriminate.
  - now left.
Qed.

Lemma normalized100_unit_or_NaN (x : num) : unit_or_NaN (normalized100 x).
Proof.
  destruct x as [a| | |].
  - right. apply normalized100_in01. discriminate.
  - right. apply normalized100_in01. discriminate.
  - right. apply normalized100_in01. discriminate.
  - now left.
Qed.

Lemma add_NaN_l (x : num) : (NaN + x)%js = NaN.
Proof. now destruct x. Qed.

Lemma sum_loop_NaN {A : Type} (f : A -> num) (l : list A) :
  fold_left (fun sum a => (sum + f a)%js) l NaN = NaN.
Proof.
  induction l as [|a l IH]; [reflexivity|].
  cbn [fold_left]. now rewrite add_NaN_l.
Qed.

(** The running sum is [NaN], or finite between the initial value and the
    initial value plus the number of summands. *)
Lemma sum_loop_robust {A : Type} (f : A -> num) (l : list A) (s0 : R) :
  (forall a, unit_or_NaN (f a)) ->
  fold_left (fun sum a => (sum + f a)%js) l (Fin s0) = NaN
  \/ exists s, fold_left (fun sum a => (sum + f a)%js) l (Fin s0) = Fin s
               /\ s0 <= s <= s0 + INR (List.length l).
Proof.
  intros Hf. revert s0. induction l as [|a l IH]; intros s0.
  - right. exists s0. cbn. split; [reflexivity | lra].
  - cbn [fold_left]. destruct (Hf a) as [E|Hin].
    + left. rewrite E. cbn [add]. apply sum_loop_NaN.
    + unfold in01, in_range in Hin.
      destruct (f a) as [r| | |]; try contradiction.
      cbn [add]. destruct (IH (s0 + r)) as [E|(s & Es & Hs)].
      * now left.
      * right. exists s. split; [assumption|].
        change (List.length (a :: l)) with (S (List.length l)).
        rewrite S_INR. lra.
Qed.

Lemma quotient_in_unit (s k : R) : 0 <= s <= k -> 0 < k -> 0 <= s / k <= 1.
Proof.
  intros Hs Hk. split.
  - apply Rmult_le_pos; [lra|]. left. now apply Rinv_0_lt_compat.
  - apply (Rmult_le_reg_r k); [assumption|].
    unfold Rdiv. rewrite Rmult_assoc, Rinv_l by lra. lra.
Qed.

(** A band is in the unit interval or [NaN], for every buffer, every
    window width and every band index. *)
Lemma bandValue_unit_or_NaN (data : list num) (spb i : nat) :
  unit_or_NaN (bandValue data spb i).
Proof.
  unfold bandValue, bandDivisor, bandIndices.
  set (e := bandEnd (List.length data) spb i).
  set (b := bandStart spb i).
  destruct (sum_loop_robust (fun j => normalized100 (at_index data j))
              (seq b (e - b)) 0
              (fun j => normalized100_unit_or_NaN _)) as [E|(s & E & Hs)].
  - left. rewrite E. reflexivity.
  - rewrite E. rewrite length_seq in Hs. unfold of_Z, div.
    destruct (sign_of_cases (IZR (Z.of_nat e - Z.of_nat b)))
      as [[Hd ->]|[[Hd ->]|[Hd ->]]].
    + (* negative divisor: the window is empty, the sum is 0 *)
      right. assert (He : (e <= b)%nat).
      { destruct (Nat.le_gt_cases e b) as [H|H]; [assumption|].
        exfalso. assert (0 <= IZR (Z.of_nat e - Z.of_nat b))
          by (apply IZR_le; lia). lra. }
      replace (e - b)%nat with 0%nat in Hs by lia. cbn in Hs.
      replace s with 0 by lra. cbn. unfold Rdiv. rewrite Rmult_0_l. lra.
    + left. assert (He : (e - b = 0)%nat).
      { apply eq_IZR in Hd. lia. }
      rewrite He in Hs. cbn in Hs. replace s with 0 by lra.
      now rewrite (sign_of_zero 0 eq_refl).
    + right. assert (He : (b < e)%nat).
      { apply lt_IZR in Hd. lia. }
      cbn. apply quotient_in_unit; [|assumption].
      rewrite INR_IZR_INZ in Hs.
      replace (Z.of_nat e - Z.of_nat b)%Z with (Z.of_nat (e - b)) by lia.
      lra.
Qed.

Lemma bandsOf_unit_or_NaN (data : list num) (n : nat) :
  Forall unit_or_NaN (bandsOf data n).
Proof.
  unfold bandsOf. apply Forall_forall. intros x Hx.
  apply in_map_iff in Hx. destruct Hx as (i & <- & _).
  apply bandValue_unit_or_NaN.
Qed.

(** ** The three frequency ranges *)

Lemma normalize_in01 (arr : list num) :
  arr <> [] -> Forall is_magnitude arr -> in01 (Audio.normalize arr).
Proof.
  intros Hne Hm. unfold Audio.normalize.
  apply (average_in01 normalized100); [assumption|].
  eapply Forall_impl; [|exact Hm]. exact normalized100_in01.
Qed.

Lemma normalize_empty : Audio.normalize [] = NaN.
Proof.
  unfold Audio.normalize, of_nat. cbn [fold_left List.length].
  change (INR 0) with 0. apply div_zero_zero.
Qed.

Lemma rangeSlices_concat (data : list num) :
  fst (fst (rangeSlices data)) ++ snd (fst (rangeSlices data))
  ++ snd (rangeSlices data) = data.
Proof.
  unfold rangeSlices, slice. cbn [fst snd].
  set (third := (List.length data / 3)%nat).
  rewrite Nat.sub_0_r. cbn [skipn].
  replace (third * 2 - third)%nat with third by lia.
  replace (third * 2)%nat with (third + third)%nat by lia.
  rewrite <- skipn_skipn.
  rewrite (firstn_skipn third (skipn third data)).
  apply firstn_skipn.
Qed.

Lemma rangeSlices_lengths (data : list num) :
  List.length (fst (fst (rangeSlices data))) = (List.length data / 3)%nat
  /\ List.length (snd (fst (rangeSlices data))) = (List.length data / 3)%nat
  /\ List.length (snd (rangeSlices data))
     = (List.length data / 3 + List.length data mod 3)%nat.
Proof.
  unfold rangeSlices, slice. cbn [fst snd].
  set (third := (List.length data / 3)%nat).
  assert (H3 : (3 * third + List.length data mod 3 = List.length data)%nat).
  { unfold third. symmetry. apply Nat.div_mod_eq. }
  rewrite Nat.sub_0_r. cbn [skipn].
  replace (third * 2 - third)%nat with third by lia.
  rewrite !length_firstn, !length_skipn. lia.
Qed.

Lemma Audio_getFrequencyRanges_active
    (this this' : AudioAnalyzer) (data : list num) :
  isActive this = true ->
  getFrequencyData this = (Return (Some data), this') ->
  Audio.getFrequencyRanges this = (Return (Audio.rangesOf data), this').
Proof.
  intros Ha Hp. unfold Audio.getFrequencyRanges. now rewrite Ha, Hp.
Qed.

Lemma rangesOf_slices (data : list num) :
  Audio.rangesOf data
  = {| Audio.bass := Audio.normalize (fst (fst (rangeSlices data)));
       Audio.mid := Audio.normalize (snd (fst (rangeSlices data)));
       Audio.treble := Audio.normalize (snd (rangeSlices data)) |}.
Proof. reflexivity. Qed.

Lemma nonempty_of_length {A : Type} (l : list A) :
  (1 <= List.length l)%nat -> l <> [].
Proof. destruct l; cbn; [lia | discriminate]. Qed.

(** With capture active and at least three bins, none of them [NaN],
    [getFrequencyRanges()] returns three values of the unit interval.
    They average three consecutive slices that together are the whole
    frame: bass and mid have [floor(bins / 3)] bins each and treble takes
    the rest, the remainder included. *)
Theorem active_ranges_unit_interval_and_whole_frame
    (this this' : AudioAnalyzer) (data : list num) :
  isActive this = true ->
  getFrequencyData this = (Return (Some data), this') ->
  Forall is_magnitude data ->
  (3 <= List.length data)%nat ->
  exists r b m t,
    Audio.getFrequencyRanges this = (Return r, this')
    /\ in01 (Audio.bass r) /\ in01 (Audio.mid r) /\ in01 (Audio.treble r)
    /\ Audio.bass r = Audio.normalize b
    /\ Audio.mid r = Audio.normalize m
    /\ Audio.treble r = Audio.normalize t
    /\ b ++ m ++ t = data
    /\ List.length b = (List.length data / 3)%nat
    /\ List.length m = (List.length data / 3)%nat
    /\ List.length t = (List.length data / 3 + List.length data mod 3)%nat.
Proof.
  intros Ha Hp Hm Hlen.
  pose proof (rangeSlices_concat data) as Hcat.
  destruct (rangeSlices_lengths data) as (Lb & Lm & Lt).
  assert (Hthird : (1 <= List.length data / 3)%nat).
  { apply Nat.div_le_lower_bound; lia. }
  set (b := fst (fst (rangeSlices data))) in *.
  set (m := snd (fst (rangeSlices data))) in *.
  set (t := snd (rangeSlices data)) in *.
  assert (Hall : Forall is_magnitude (b ++ m ++ t)) by now rewrite Hcat.
  apply Forall_app in Hall. destruct Hall as [Hb Hmt].
  apply Forall_app in Hmt. destruct Hmt as [Hmm Ht].
  exists (Audio.rangesOf data), b, m, t.
  split; [now apply Audio_getFrequencyRanges_active|].
  rewrite rangesOf_slices. cbn [Audio.bass Audio.mid Audio.treble].
  fold b m t.
  split; [apply normalize_in01; [apply nonempty_of_length; lia | assumption]|].
  split; [apply normalize_in01; [apply nonempty_of_length; lia | assumption]|].
  split; [apply normalize_in01; [apply nonempty_of_length; lia | assumption]|].
  repeat split; assumption.
Qed.

Lemma active_ranges_witness :
  exists r,
    Audio.getFrequencyRanges (analyzerOn (audioNode scenarioFrame))
    = (Return r, set_frequencyData (analyzerOn (audioNode scenarioFrame))
                                   (Some scenarioFrame))
    /\ in01 (Audio.bass r) /\ in01 (Audio.mid r) /\ in01 (Audio.treble r).
Proof.
  assert (Hlen : (3 <= List.length scenarioFrame)%nat) by (cbn; lia).
  destruct (active_ranges_unit_interval_and_whole_frame
              (analyzerOn (audioNode scenarioFrame)) _ scenarioFrame
              eq_refl (audioNode_polls scenarioFrame)
              scenarioFrame_magnitudes Hlen)
    as (r & b & m & t & H1 & H2 & H3 & H4 & _).
  exists r. repeat split; assumption.
Defined.

(** With capture active and fewer than three bins the first two slices
    are empty: bass and mid are [0/0 = NaN], and treble averages the
    whole frame. *)
Theorem active_ranges_of_short_frame
    (this this' : AudioAnalyzer) (data : list num) :
  isActive this = true ->
  getFrequencyData this = (Return (Some data), this') ->
  (List.length data < 3)%nat ->
  exists r,
    Audio.getFrequencyRanges this = (Return r, this')
    /\ Audio.bass r = NaN
    /\ Audio.mid r = NaN
    /\ Audio.treble r = Audio.normalize data
    /\ (data = [] -> Audio.treble r = NaN)
    /\ (data <> [] -> Forall is_magnitude data -> in01 (Audio.treble r)).
Proof.
  intros Ha Hp Hlen.
  exists (Audio.rangesOf data).
  split; [now apply Audio_getFrequencyRanges_active|].
  unfold Audio.rangesOf, slice.
  rewrite (Nat.div_small _ 3 Hlen).
  cbn [Nat.mul Nat.sub firstn skipn Audio.bass Audio.mid Audio.treble].
  split; [apply normalize_empty|].
  split; [apply normalize_empty|].
  split; [reflexivity|].
  split.
  - intros ->. apply normalize_empty.
  - intros Hne Hm. now apply normalize_in01.
Qed.

Lemma active_ranges_short_witness :
  exists r,
    Audio.getFrequencyRanges (analyzerOn (audioNode [Fin (-50); Fin (-20)]))
    = (Return r, set_frequencyData
                   (analyzerOn (audioNode [Fin (-50); Fin (-20)]))
                   (Some [Fin (-50); Fin (-20)]))
    /\ Audio.bass r = NaN /\ Audio.mid r = NaN.
Proof.
  assert (Hlen : (List.length [Fin (-50); Fin (-20)] < 3)%nat) by (cbn; lia).
  destruct (active_ranges_of_short_frame
              (analyzerOn (audioNode [Fin (-50); Fin (-20)])) _ _
              eq_refl (audioNode_polls [Fin (-50); Fin (-20)]) Hlen)
    as (r & H1 & H2 & H3 & _).
  exists r. repeat split; assumption.
Defined.

(** ** A louder frame never lowers a feature *)

Lemma Rclamp_mono (a b : R) :
  a <= b -> Rmax 0 (Rmin 1 a) <= Rmax 0 (Rmin 1 b).
Proof.
  intros H. unfold Rmax, Rmin.
  repeat destruct (Rle_dec _ _); lra.
Qed.

Lemma normalized100_NInf : normalized100 NInf = Fin 0.
Proof.
  unfold normalized100. cbn [add]. unfold div.
  now rewrite (sign_of_pos 100) by lra.
Qed.

Lemma normalized100_PInf : normalized100 PInf = Fin 1.
Proof.
  unfold normalized100. cbn [add]. unfold div.
  rewrite (sign_of_pos 100) by lra. cbn. apply Fin_eq.
  unfold Rmax. destruct (Rle_dec 0 1); lra.
Qed.

Lemma normalized90_NInf : normalized90 NInf = Fin 0.
Proof.
  unfold normalized90. cbn [add]. unfold div.
  now rewrite (sign_of_pos 60) by lra.
Qed.

Lemma normalized90_PInf : normalized90 PInf = Fin 1.
Proof.
  unfold normalized90. cbn [add]. unfold div.
  rewrite (sign_of_pos 60) by lra. cbn. apply Fin_eq.
  unfold Rmax. destruct (Rle_dec 0 1); lra.
Qed.

Lemma normalized100_mono (x y : num) :
  num_le x y -> ordered_values (normalized100 x) (normalized100 y).
Proof.
  unfold ordered_values. intros H.
  destruct x as [a| | |], y as [b| | |]; cbn [num_le] in H;
    try contradiction;
    rewrite ?normalized100_Fin, ?normalized100_NInf, ?normalized100_PInf;
    eexists; eexists; (split; [reflexivity|]); (split; [reflexivity|]).
  - pose proof (Rclamp_bounds ((a + 100) / 100)).
    pose proof (Rclamp_mono ((a + 100) / 100) ((b + 100) / 100)). lra.
  - pose proof (Rclamp_bounds ((a + 100) / 100)). lra.
  - lra.
  - pose proof (Rclamp_bounds ((b + 100) / 100)). lra.
  - lra.
  - lra.
Qed.

Lemma normalized90_mono (x y : num) :
  num_le x y -> ordered_values (normalized90 x) (normalized90 y).
Proof.
  unfold ordered_values. intros H.
  destruct x as [a| | |], y as [b| | |]; cbn [num_le] in H;
    try contradiction;
    rewrite ?normalized90_Fin, ?normalized90_NInf, ?normalized90_PInf;
    eexists; eexists; (split; [reflexivity|]); (split; [reflexivity|]).
  - pose proof (Rclamp_bounds ((a + 90) / 60)).
    pose proof (Rclamp_mono ((a + 90) / 60) ((b + 90) / 60)). lra.
  - pose proof (Rclamp_bounds ((a + 90) / 60)). lra.
  - lra.
  - pose proof (Rclamp_bounds ((b + 90) / 60)). lra.
  - lra.
  - lra.
Qed.

Lemma sum_loop_mono {A B : Type} (f : A -> num) (g : B -> num)
    (l1 : list A) (l2 : list B) (s1 s2 : R) :
  Forall2 (fun a b => ordered_values (f a) (g b)) l1 l2 ->
  s1 <= s2 ->
  exists t1 t2,
    fold_left (fun sum a => (sum + f a)%js) l1 (Fin s1) = Fin t1
    /\ fold_left (fun sum b => (sum + g b)%js) l2 (Fin s2) = Fin t2
    /\ s1 <= t1 <= t2.
Proof.
  intros H. revert s1 s2.
  induction H as [|a b l1 l2 (x & y & Ex & Ey & Hxy) _ IH]; intros s1 s2 Hs.
  - exists s1, s2. cbn. repeat split; try reflexivity; lra.
  - cbn [fold_left]. rewrite Ex, Ey. cbn [add].
    destruct (IH (s1 + x) (s2 + y)) as (t1 & t2 & E1 & E2 & Ht); [lra|].
    exists t1, t2. repeat split; try assumption; lra.
Qed.

Lemma at_index_mono (quiet loud : list num) (j : nat) :
  Forall2 num_le quiet loud -> (j < List.length quiet)%nat ->
  num_le (at_index quiet j) (at_index loud j).
Proof.
  intros H. revert j. unfold at_index.
  induction H as [|x y l1 l2 Hxy _ IH]; intros j Hj.
  - cbn in Hj. lia.
  - destruct j as [|j]; cbn [nth]; [assumption|].
    apply IH. cbn in Hj. lia.
Qed.

Lemma Forall2_same {A : Type} (P : A -> A -> Prop) (l : list A) :
  (forall a, In a l -> P a a) -> Forall2 P l l.
Proof.
  induction l as [|a l IH]; intros H; constructor.
  - apply H. now left.
  - apply IH. intros b Hb. apply H. now right.
Qed.

Lemma Rdiv_le_pos (s t k : R) : 0 < k -> s <= t -> s / k <= t / k.
Proof.
  intros Hk Hst. unfold Rdiv.
  apply Rmult_le_compat_r; [|assumption].
  left. now apply Rinv_0_lt_compat.
Qed.

Lemma Math_pow_08_mono (a b : R) :
  0 <= a <= b ->
  ordered_values (Math_pow (Fin a) (Fin 0.8)) (Math_pow (Fin b) (Fin 0.8)).
Proof.
  intros Hab. unfold ordered_values, Math_pow.
  rewrite (sign_of_pos 0.8) by lra.
  destruct (sign_of_cases a) as [[Ha ->]|[[Ha ->]|[Ha ->]]]; [lra| |];
    destruct (sign_of_cases b) as [[Hb ->]|[[Hb ->]|[Hb ->]]]; try lra;
    eexists; eexists; (split; [reflexivity|]); (split; [reflexivity|]).
  - lra.
  - split; [lra|]. left. apply exp_pos.
  - split; [left; apply exp_pos|].
    apply Rle_Rpower_l; lra.
Qed.

(** If every bin of one frame is at most the same bin of another (both
    free of [NaN], infinite values allowed), then neither copy of
    [getAmplitude] nor any band of [getFrequencyBands(n)],
    [1 <= n <= bins], is lower on the louder frame. *)
Theorem louder_frame_never_lowers_features (quiet loud : list num) (n : nat) :
  Forall2 num_le quiet loud ->
  (1 <= List.length quiet)%nat ->
  num_le (Audio.amplitudeOf quiet) (Audio.amplitudeOf loud)
  /\ num_le (Main.amplitudeOf quiet) (Main.amplitudeOf loud)
  /\ ((1 <= n <= List.length quiet)%nat ->
      Forall2 num_le (bandsOf quiet n) (bandsOf loud n)).
Proof.
  intros Hql Hlen.
  pose proof (Forall2_length Hql) as Hsame.
  assert (Hk : 0 < INR (List.length quiet)) by (apply lt_0_INR; lia).
  split; [|split].
  - unfold Audio.amplitudeOf.
    destruct (sum_loop_mono normalized100 normalized100 quiet loud 0 0)
      as (t1 & t2 & -> & -> & Ht); [|lra|].
    { eapply Forall2_impl; [|exact Hql]. exact normalized100_mono. }
    unfold of_nat. rewrite <- Hsame, !div_fin_pos by assumption.
    cbn. pose proof (Rdiv_le_pos t1 t2 _ Hk (proj2 Ht)).
    unfold Rmin. repeat destruct (Rle_dec _ _); lra.
  - unfold Main.amplitudeOf.
    destruct (sum_loop_mono normalized90 normalized90 quiet loud 0 0)
      as (t1 & t2 & -> & -> & Ht); [|lra|].
    { eapply Forall2_impl; [|exact Hql]. exact normalized90_mono. }
    unfold of_nat. rewrite <- Hsame, !div_fin_pos by assumption.
    assert (Havg : 0 <= t1 / INR (List.length quiet)
                   <= t2 / INR (List.length quiet)).
    { split; [|apply Rdiv_le_pos; lra].
      apply Rmult_le_pos; [lra|]. left. now apply Rinv_0_lt_compat. }
    destruct (Math_pow_08_mono _ _ Havg) as (x & y & -> & -> & Hxy).
    cbn. lra.
  - intros Hn. unfold bandsOf. rewrite <- Hsame.
    set (spb := samplesPerBand (List.length quiet) n).
    assert (Hpos : (1 <= spb)%nat) by now apply samplesPerBand_pos.
    pose proof (samplesPerBand_total (List.length quiet) n) as Htot.
    fold spb in Htot.
    assert (Hband : forall i, In i (seq 0 n) ->
              num_le (bandValue quiet spb i) (bandValue loud spb i)).
    { intros i Hi. apply in_seq in Hi. unfold bandValue.
      rewrite <- Hsame. unfold spb.
      rewrite (bandDivisor_inside _ _ i) by lia.
      rewrite (bandIndices_inside _ _ i) by lia. fold spb.
      destruct (sum_loop_mono
                  (fun j => normalized100 (at_index quiet j))
                  (fun j => normalized100 (at_index loud j))
                  (seq (i * spb) spb) (seq (i * spb) spb) 0 0)
        as (t1 & t2 & -> & -> & Ht); [|lra|].
      { apply Forall2_same. intros j Hj. apply in_seq in Hj.
        apply normalized100_mono, at_index_mono; [assumption | nia]. }
      unfold of_Z. rewrite <- INR_IZR_INZ.
      assert (Hs : 0 < INR spb) by (apply lt_0_INR; lia).
      rewrite !div_fin_pos by assumption. cbn.
      apply Rdiv_le_pos; lra. }
    clear -Hband. induction (seq 0 n) as [|i l IH]; cbn; constructor.
    + apply Hband. now left.
    + apply IH. intros j Hj. apply Hband. now right.
Qed.

(** ** Life cycle: what every reachable object satisfies *)

Section LifecycleFacts.
Import Lifecycle.
Variables minDb maxDb : R.

Ltac fields :=
  cbn [analysis audioContext microphone timeDomainData
       analyser isActive frequencyData fst snd].

Lemma newObject_consistent : consistent newObject.
Proof.
  unfold consistent, newObject, new_AudioAnalyzer. fields.
  split; [discriminate|]. split; intros Hn; now elim Hn.
Qed.

Lemma init_consistent (b : Browser) (o : Object) :
  consistent o -> consistent (snd (init minDb maxDb b o)).
Proof.
  intros (H1 & H2 & H3). unfold init.
  destruct (newAudioContext b) as [st|];
    [|exact (conj H1 (conj H2 H3))].
  unfold consistent. fields.
  split.
  { intros Ha. split; [discriminate|]. now apply H1. }
  split.
  { intros _. eexists. split; [reflexivity|].
    rewrite repeat_length. reflexivity. }
  intros _. discriminate.
Qed.

Lemma enableMicrophone_consistent (b : Browser) (o : Object) :
  consistent o -> consistent (snd (enableMicrophone minDb maxDb b o)).
Proof.
  intros Ho. unfold enableMicrophone.
  set (o1 := match audioContext o with
             | None => snd (init minDb maxDb b o)
             | Some _ => o
             end).
  assert (H1 : consistent o1).
  { unfold o1. destruct (audioContext o); [assumption|].
    now apply init_consistent. }
  destruct H1 as (A1 & A2 & A3).
  destruct (audioContext o1) as [st|] eqn:Ec.
  - destruct (getUserMedia b); cbn [snd].
    + cbn [analysis analyser].
      destruct (analyser (analysis o1)) as [node|] eqn:Ea; cbn [snd].
      * unfold consistent. fields. rewrite ?Ea.
        split; [intros _; split; discriminate|].
        split; [intros _; apply A2; discriminate|].
        intros _. discriminate.
      * unfold consistent. fields. rewrite ?Ea.
        split.
        { intros Hact. destruct (A1 Hact) as [Hn _]. now elim Hn. }
        split; intros Hn; now elim Hn.
    + unfold consistent. fields.
      split; [exact A1|]. split; [exact A2|].
      intros _. discriminate.
  - cbn [snd]. unfold consistent. rewrite Ec. repeat split; auto.
    + now apply A1.
    + now apply A1.
Qed.

Lemma disableMicrophone_consistent (o : Object) :
  consistent o -> consistent (disableMicrophone o).
Proof.
  intros (H1 & H2 & H3). unfold consistent, disableMicrophone. fields.
  split; [discriminate|]. split; assumption.
Qed.

Lemma toggle_consistent (b : Browser) (o : Object) :
  consistent o -> consistent (snd (toggle minDb maxDb b o)).
Proof.
  intros Ho. unfold toggle. destruct (isActive (analysis o)).
  - now apply disableMicrophone_consistent.
  - now apply enableMicrophone_consistent.
Qed.

Lemma with_analysis_consistent (o : Object) (a : AudioAnalyzer) :
  same_frame_shape (analysis o) a ->
  consistent o -> consistent (with_analysis o a).
Proof.
  intros (Sa & Si & Sf) (H1 & H2 & H3).
  unfold consistent, with_analysis. fields. rewrite Sa, Si.
  split; [exact H1|]. split; [|exact H3].
  intros Hn. destruct (H2 Hn) as (buf & Eb & Lb).
  rewrite Eb in Sf. destruct (frequencyData a) as [buf'|]; [|contradiction].
  exists buf'. split; [reflexivity | congruence].
Qed.

Lemma deviceReports_consistent (s : list num) (o : Object) :
  consistent o -> consistent (deviceReports s o).
Proof.
  intros (H1 & H2 & H3). unfold consistent, deviceReports. fields.
  destruct (analyser (analysis o)) as [node|] eqn:Ea.
  - split; [intros Ha; split; [discriminate | now apply H1]|].
    split; [intros _; apply H2; discriminate|].
    intros _. apply H3. discriminate.
  - split; [intros Ha; destruct (H1 Ha) as [Hn _]; now elim Hn|].
    split; intros Hn; now elim Hn.
Qed.

Lemma step_consistent (op : Op) (o : Object) :
  consistent o -> consistent (step minDb maxDb op o).
Proof.
  intros Ho. destruct op; cbn [step].
  - now apply init_consistent.
  - now apply enableMicrophone_consistent.
  - now apply disableMicrophone_consistent.
  - now apply toggle_consistent.
  - apply with_analysis_consistent; [|assumption].
    apply getFrequencyData_state.
  - apply with_analysis_consistent; [|assumption].
    apply same_frame_shape_of_state, Main_getAmplitude_state.
  - apply with_analysis_consistent; [|assumption].
    apply same_frame_shape_of_state, Main_getFrequencyBands_state.
  - apply with_analysis_consistent; [|assumption].
    apply same_frame_shape_of_state, Audio_getFrequencyRanges_state.
  - now apply deviceReports_consistent.
Qed.

Lemma run_consistent (ops : list Op) (o : Object) :
  consistent o -> consistent (run minDb maxDb ops o).
Proof.
  unfold run. revert o. induction ops as [|op ops IH]; intros o Ho.
  - exact Ho.
  - cbn [fold_left]. apply IH. now apply step_consistent.
Qed.

(** On a consistent object an active poll delivers a frame of 1024
    bins, and an inactive one returns without polling. *)
Lemma consistent_poll (o : Object) :
  consistent o ->
  (isActive (analysis o) = true ->
     exists data,
       getFrequencyData (analysis o)
       = (Return (Some data), set_frequencyData (analysis o) (Some data))
       /\ List.length data = 1024%nat)
  /\ (isActive (analysis o) = false ->
      getFrequencyData (analysis o)
      = (Return (frequencyData (analysis o)), analysis o)).
Proof.
  intros (H1 & H2 & H3). split.
  - intros Ha. destruct (H1 Ha) as [Hn _].
    destruct (H2 Hn) as (buf & Eb & Lb).
    unfold getFrequencyData. rewrite Ha, Eb.
    destruct (analyser (analysis o)) as [node|]; [|now elim Hn].
    eexists. split; [reflexivity|].
    now rewrite getFloatFrequencyData_length.
  - intros Ha. unfold getFrequencyData. rewrite Ha.
    now destruct (analyser (analysis o)).
Qed.

End LifecycleFacts.

(** Whatever sequence of calls ([init], [enableMicrophone],
    [disableMicrophone], [toggle], the analysis methods) and device
    updates a fresh object goes through, with whatever answers of the
    browser, no analysis method of either copy throws on it, and while it
    is active every poll delivers a frame of exactly 1024 bins. *)
Theorem reachable_analyzer_never_throws
    (minDb maxDb : R) (ops : list Lifecycle.Op) (n : nat) :
  let a := Lifecycle.analysis
             (Lifecycle.run minDb maxDb ops Lifecycle.newObject) in
  fst (getFrequencyData a) <> Throw
  /\ fst (Main.getAmplitude a) <> Throw
  /\ fst (Audio.getAmplitude a) <> Throw
  /\ fst (Main.getFrequencyBands a n) <> Throw
  /\ fst (Audio.getFrequencyBands a n) <> Throw
  /\ fst (Audio.getFrequencyRanges a) <> Throw
  /\ (isActive a = true ->
      exists data,
        getFrequencyData a
        = (Return (Some data), set_frequencyData a (Some data))
        /\ List.length data = 1024%nat).
Proof.
  intros a.
  pose proof (run_consistent minDb maxDb ops _ newObject_consistent) as Hc.
  destruct (consistent_poll _ Hc) as [Hact Hin]. fold a in Hact, Hin.
  unfold Main.getAmplitude, Audio.getAmplitude, Main.getFrequencyBands,
    Audio.getFrequencyBands, Audio.getFrequencyRanges.
  destruct (isActive a) eqn:Ea; cbn [negb].
  - destruct (Hact eq_refl) as (data & Hp & Hl). rewrite Hp. cbn [fst].
    repeat split; try discriminate. now exists data.
  - rewrite (Hin eq_refl). cbn [fst].
    repeat split; try discriminate.
Qed.

Section ToggleFacts.
Import Lifecycle.
Variables minDb maxDb : R.

Lemma enableMicrophone_result (b : Browser) (o : Object) :
  (fst (enableMicrophone minDb maxDb b o) = true
   /\ isActive (analysis (snd (enableMicrophone minDb maxDb b o))) = true
   /\ microphone (snd (enableMicrophone minDb maxDb b o)) = Some tt)
  \/ (fst (enableMicrophone minDb maxDb b o) = false
      /\ isActive (analysis (snd (enableMicrophone minDb maxDb b o)))
         = isActive (analysis o)).
Proof.
  unfold enableMicrophone.
  set (o1 := match audioContext o with
             | None => snd (init minDb maxDb b o)
             | Some _ => o
             end).
  assert (H1 : isActive (analysis o1) = isActive (analysis o)).
  { unfold o1. destruct (audioContext o); [reflexivity|].
    unfold init. now destruct (newAudioContext b). }
  destruct (audioContext o1) as [st|].
  - destruct (getUserMedia b).
    + cbn [analysis analyser].
      destruct (analyser (analysis o1)); [left | right]; now repeat split.
    + right. now split.
  - right. now split.
Qed.

Lemma toggle_cases (b : Browser) (o : Object) :
  fst (toggle minDb maxDb b o)
  = isActive (analysis (snd (toggle minDb maxDb b o)))
  /\ (isActive (analysis o) = true ->
      fst (toggle minDb maxDb b o) = false
      /\ microphone (snd (toggle minDb maxDb b o)) = None
      /\ analyser (analysis (snd (toggle minDb maxDb b o)))
         = analyser (analysis o)
      /\ frequencyData (analysis (snd (toggle minDb maxDb b o)))
         = frequencyData (analysis o))
  /\ (isActive (analysis o) = false ->
      toggle minDb maxDb b o = enableMicrophone minDb maxDb b o).
Proof.
  unfold toggle. destruct (isActive (analysis o)) eqn:Ea.
  - cbn. repeat split; intros; discriminate.
  - split; [|split; [discriminate | reflexivity]].
    destruct (enableMicrophone_result b o) as [(-> & -> & _)|(-> & ->)];
      [reflexivity | now rewrite Ea].
Qed.

(** [toggle()] returns the new active state, as its comment says; when
    called on an active object it always ends inactive, with
    [microphone] reset to [null] and the analyser node and the buffer
    kept; when called on an inactive object the outcome is that of
    [enableMicrophone()], which leaves the object inactive whenever it
    fails. *)
Theorem toggle_returns_new_active_state (b : Browser) (o : Object) :
  fst (toggle minDb maxDb b o)
  = isActive (analysis (snd (toggle minDb maxDb b o)))
  /\ (isActive (analysis o) = true ->
      fst (toggle minDb maxDb b o) = false
      /\ microphone (snd (toggle minDb maxDb b o)) = None
      /\ analyser (analysis (snd (toggle minDb maxDb b o)))
         = analyser (analysis o)
      /\ frequencyData (analysis (snd (toggle minDb maxDb b o)))
         = frequencyData (analysis o))
  /\ (isActive (analysis o) = false ->
      toggle minDb maxDb b o = enableMicrophone minDb maxDb b o).
Proof. exact (toggle_cases b o). Qed.

(** Two toggles in a row, starting inactive: if the first one succeeds
    the second always switches capture off again and clears
    [microphone]; if the first one fails (no audio context or no
    permission) the object is still inactive and the second toggle is a
    new attempt to enable, so the object ends active exactly when the
    first attempt fails and the second succeeds. *)
Theorem toggle_twice_from_inactive (b1 b2 : Browser) (o : Object) :
  isActive (analysis o) = false ->
  let first := toggle minDb maxDb b1 o in
  let second := toggle minDb maxDb b2 (snd first) in
  (fst first = true ->
     fst second = false
     /\ isActive (analysis (snd second)) = false
     /\ microphone (snd second) = None)
  /\ (fst first = false ->
      isActive (analysis (snd first)) = false
      /\ second = enableMicrophone minDb maxDb b2 (snd first))
  /\ isActive (analysis (snd second)) = negb (fst first) && fst second.
Proof.
  intros Ho first second.
  destruct (toggle_cases b1 o) as (R1 & _ & _).
  destruct (toggle_cases b2 (snd first))
    as (R2 & A2 & I2).
  fold first in R1. fold second in R2, A2, I2.
  destruct (fst first) eqn:E1.
  - symmetry in R1. destruct (A2 R1) as (F & M & _).
    rewrite <- R2, F.
    split; [intros _; repeat split; assumption|].
    split; [discriminate | reflexivity].
  - symmetry in R1. rewrite <- R2.
    split; [discriminate|].
    split; [|reflexivity].
    intros _. split; [assumption | now apply I2].
Qed.

End ToggleFacts.

Lemma toggle_twice_witness :
  isActive
    (Lifecycle.analysis
       (snd (Lifecycle.toggle (-90) (-30) (grantingBrowser scenarioFrame)
               (snd (Lifecycle.toggle (-90) (-30)
                       (denyingBrowser scenarioFrame)
                       Lifecycle.newObject)))))
  = negb (fst (Lifecycle.toggle (-90) (-30) (denyingBrowser scenarioFrame)
                 Lifecycle.newObject))
    && fst (Lifecycle.toggle (-90) (-30) (grantingBrowser scenarioFrame)
              (snd (Lifecycle.toggle (-90) (-30)
                      (denyingBrowser scenarioFrame)
                      Lifecycle.newObject))).
Proof.
  exact (proj2 (proj2 (toggle_twice_from_inactive (-90) (-30)
                         (denyingBrowser scenarioFrame)
                         (grantingBrowser scenarioFrame)
                         Lifecycle.newObject eq_refl))).
Defined.



Lemma half_objectFftSize : (Lifecycle.objectFftSize / 2 = 1024)%nat.
Proof. vm_compute. reflexivity. Qed.

(** The first toggle on a fresh object, in a browser that provides an
    audio context and grants the microphone: it returns [true] and leaves
    the object active on the node [init()] created, with a zeroed buffer
    of 1024 bins and a running context.  If that node reports 1024 bins,
    none of them [NaN], the next [getAmplitude()] is in [[0,1.5]] and
    [getFrequencyBands(12)] returns 12 values of the unit interval. *)
Theorem first_toggle_granted_starts_capture
    (b : Lifecycle.Browser) (st : Lifecycle.ContextState) :
  Lifecycle.newAudioContext b = Some st ->
  Lifecycle.getUserMedia b = true ->
  exists o,
    Lifecycle.toggle (-90) (-30) b Lifecycle.newObject = (true, o)
    /\ Lifecycle.analysis o = analyzerOn (mainInitNode b)
    /\ Lifecycle.audioContext o = Some Lifecycle.running
    /\ Lifecycle.microphone o = Some tt
    /\ (List.length (Lifecycle.nodeSpectrum b) = 1024%nat ->
        Forall is_magnitude (Lifecycle.nodeSpectrum b) ->
        exists amp bands a',
          Main.getAmplitude (Lifecycle.analysis o) = (Return amp, a')
          /\ in_range 0 1.5 amp
          /\ Main.getFrequencyBands (Lifecycle.analysis o) 12
             = (Return bands, a')
          /\ List.length bands = 12%nat
          /\ Forall in01 bands).
Proof.
  intros Hctx Hgrant.
  eexists. split.
  { unfold Lifecycle.toggle, Lifecycle.enableMicrophone, Lifecycle.init.
    cbn [Lifecycle.newObject Lifecycle.analysis Lifecycle.audioContext
         new_AudioAnalyzer isActive].
    rewrite Hctx. cbn [snd Lifecycle.audioContext]. rewrite Hgrant.
    cbn [Lifecycle.analysis analyser]. reflexivity. }
  cbn [Lifecycle.analysis Lifecycle.audioContext Lifecycle.microphone
       analyser frequencyData isActive new_AudioAnalyzer
       Lifecycle.newObject].
  split; [reflexivity|]. split; [reflexivity|]. split; [reflexivity|].
  intros Hlen Hmag.
  change {| analyser := Some _; isActive := true; frequencyData := _ |}
    with (analyzerOn (mainInitNode b)).
  assert (Hpoll : getFrequencyData (analyzerOn (mainInitNode b))
                  = (Return (Some (Lifecycle.nodeSpectrum b)),
                     set_frequencyData (analyzerOn (mainInitNode b))
                       (Some (Lifecycle.nodeSpectrum b)))).
  { apply (analyzerOn_polls (mainInitNode b)).
    cbn [spectrum fftSize mainInitNode].
    now rewrite half_objectFftSize. }
  assert (H1 : (1 <= List.length (Lifecycle.nodeSpectrum b))%nat)
    by (rewrite Hlen; lia).
  assert (H12 : (1 <= 12 <= List.length (Lifecycle.nodeSpectrum b))%nat)
    by (rewrite Hlen; lia).
  exists (Main.amplitudeOf (Lifecycle.nodeSpectrum b)),
    (bandsOf (Lifecycle.nodeSpectrum b) 12),
    (set_frequencyData (analyzerOn (mainInitNode b))
       (Some (Lifecycle.nodeSpectrum b))).
  split; [exact (Main_getAmplitude_active
                   (analyzerOn (mainInitNode b)) _ _ eq_refl Hpoll)|].
  split; [now apply Main_amplitudeOf_range|].
  split; [exact (Main_getFrequencyBands_active
                   (analyzerOn (mainInitNode b)) _ _ eq_refl Hpoll 12)|].
  split; [apply bandsOf_length | now apply bandsOf_in01].
Qed.

Lemma first_toggle_granted_witness :
  exists o,
    Lifecycle.toggle (-90) (-30) (grantingBrowser scenarioFrame)
      Lifecycle.newObject = (true, o)
    /\ Lifecycle.analysis o
       = analyzerOn (mainInitNode (grantingBrowser scenarioFrame)).
Proof.
  destruct (first_toggle_granted_starts_capture
              (grantingBrowser scenarioFrame) Lifecycle.suspended
              eq_refl eq_refl) as (o & H1 & H2 & _).
  exists o. split; assumption.
Defined.

(** A denied microphone is not fatal.  The toggle returns [false] and
    the object stays inactive, so [getAmplitude()] is 0 and
    [getFrequencyBands(12)] is twelve times 0.1; the audio context and
    the analyser node are already in place, and a later toggle that is
    granted switches capture on. *)
Theorem denied_microphone_leaves_idle_analyzer
    (b b' : Lifecycle.Browser) (st : Lifecycle.ContextState) :
  Lifecycle.newAudioContext b = Some st ->
  Lifecycle.getUserMedia b = false ->
  Lifecycle.getUserMedia b' = true ->
  exists o,
    Lifecycle.toggle (-90) (-30) b Lifecycle.newObject = (false, o)
    /\ isActive (Lifecycle.analysis o) = false
    /\ Lifecycle.microphone o = None
    /\ analyser (Lifecycle.analysis o) = Some (mainInitNode b)
    /\ Main.getAmplitude (Lifecycle.analysis o)
       = (Return (Fin 0), Lifecycle.analysis o)
    /\ Main.getFrequencyBands (Lifecycle.analysis o) 12
       = (Return (repeat (Fin 0.1) 12), Lifecycle.analysis o)
    /\ fst (Lifecycle.toggle (-90) (-30) b' o) = true
    /\ isActive (Lifecycle.analysis (snd (Lifecycle.toggle (-90) (-30) b' o)))
       = true.
Proof.
  intros Hctx Hdeny Hgrant.
  eexists. split.
  { unfold Lifecycle.toggle, Lifecycle.enableMicrophone, Lifecycle.init.
    cbn [Lifecycle.newObject Lifecycle.analysis Lifecycle.audioContext
         new_AudioAnalyzer isActive].
    rewrite Hctx. cbn [snd Lifecycle.audioContext]. rewrite Hdeny.
    reflexivity. }
  cbn [Lifecycle.analysis Lifecycle.audioContext Lifecycle.microphone
       analyser frequencyData isActive new_AudioAnalyzer
       Lifecycle.newObject].
  split; [reflexivity|]. split; [reflexivity|]. split; [reflexivity|].
  split; [reflexivity|]. split; [reflexivity|].
  unfold Lifecycle.toggle, Lifecycle.enableMicrophone.
  cbn [Lifecycle.analysis Lifecycle.audioContext isActive analyser].
  rewrite Hgrant. split; reflexivity.
Qed.

Lemma denied_microphone_witness :
  exists o,
    Lifecycle.toggle (-90) (-30) (denyingBrowser scenarioFrame)
      Lifecycle.newObject = (false, o)
    /\ isActive (Lifecycle.analysis o) = false
    /\ fst (Lifecycle.toggle (-90) (-30) (grantingBrowser scenarioFrame) o)
       = true.
Proof.
  destruct (denied_microphone_leaves_idle_analyzer
              (denyingBrowser scenarioFrame) (grantingBrowser scenarioFrame)
              Lifecycle.suspended eq_refl eq_refl eq_refl)
    as (o & H1 & H2 & _ & _ & _ & _ & H7 & _).
  exists o. repeat split; assumption.
Defined.

(** ** Polls that cannot hit [null] *)

Lemma pollable_same_shape (a a' : AudioAnalyzer) :
  same_frame_shape a a' -> pollable a -> pollable a'.
Proof.
  intros (Sa & Si & Sf) Hp Ha. rewrite Si in Ha.
  destruct (Hp Ha) as (node & buf & En & Eb).
  rewrite Sa, En. rewrite Eb in Sf.
  destruct (frequencyData a') as [buf'|]; [|contradiction].
  now exists node, buf'.
Qed.

Lemma pollable_poll (a : AudioAnalyzer) :
  pollable a -> isActive a = true ->
  exists data,
    getFrequencyData a = (Return (Some data), set_frequencyData a (Some data)).
Proof.
  intros Hp Ha. destruct (Hp Ha) as (node & buf & En & Eb).
  unfold getFrequencyData. rewrite En, Ha, Eb. eexists. reflexivity.
Qed.

Lemma consistent_pollable (o : Lifecycle.Object) :
  Lifecycle.consistent o -> pollable (Lifecycle.analysis o).
Proof.
  intros (H1 & H2 & _) Ha. destruct (H1 Ha) as [Hn _].
  destruct (H2 Hn) as (buf & Eb & _).
  destruct (analyser (Lifecycle.analysis o)) as [node|]; [|now elim Hn].
  now exists node, buf.
Qed.

Lemma Main_getAmplitude_pollable (a : AudioAnalyzer) :
  pollable a ->
  exists amp a',
    Main.getAmplitude a = (Return amp, a')
    /\ same_frame_shape a a'
    /\ (isActive a = false -> amp = Fin 0 /\ a' = a).
Proof.
  intros Hp. unfold Main.getAmplitude.
  destruct (isActive a) eqn:Ha; cbn [negb].
  - destruct (pollable_poll a Hp Ha) as (data & Hd).
    pose proof (getFrequencyData_state a) as Hs. rewrite Hd in *.
    eexists. eexists. split; [reflexivity|].
    split; [exact Hs | discriminate].
  - exists (Fin 0), a. split; [reflexivity|].
    split; [apply same_frame_shape_refl | now split].
Qed.

Lemma Main_getFrequencyBands_pollable (a : AudioAnalyzer) (n : nat) :
  pollable a ->
  exists bands a',
    Main.getFrequencyBands a n = (Return bands, a')
    /\ same_frame_shape a a'
    /\ List.length bands = n
    /\ Forall unit_or_NaN bands.
Proof.
  intros Hp. unfold Main.getFrequencyBands.
  destruct (isActive a) eqn:Ha; cbn [negb].
  - destruct (pollable_poll a Hp Ha) as (data & Hd).
    pose proof (getFrequencyData_state a) as Hs. rewrite Hd in *.
    eexists. eexists. split; [reflexivity|].
    split; [exact Hs|].
    split; [apply bandsOf_length | apply bandsOf_unit_or_NaN].
  - exists (idleBands n), a. split; [reflexivity|].
    split; [apply same_frame_shape_refl|].
    split; [apply repeat_length|].
    apply Forall_forall. intros x Hx. apply repeat_spec in Hx. subst x.
    right. cbn. lra.
Qed.

(** ** The frequency bars *)

Lemma or_else_unit (v : num) :
  unit_or_NaN v -> in01 (or_else v (Fin 0)).
Proof.
  intros [->|Hv].
  - cbn. lra.
  - unfold in01, in_range in Hv. destruct v as [r| | |]; try contradiction.
    unfold or_else, truthy.
    destruct (sign_of_cases r) as [[H ->]|[[H ->]|[H ->]]]; cbn; lra.
Qed.

Lemma bandOrZero_in01 (bands : list num) (i : nat) :
  Forall unit_or_NaN bands -> in01 (App.bandOrZero bands i).
Proof.
  intros Hb. unfold App.bandOrZero.
  destruct (nth_error bands i) as [v|] eqn:E.
  - apply or_else_unit. rewrite Forall_forall in Hb.
    apply Hb. now apply nth_error_In with i.
  - cbn. lra.
Qed.

Lemma barStyle_valid (v : num) : in01 v -> validBar (App.barStyle v).
Proof.
  unfold in01, in_range, validBar, App.barStyle.
  destruct v as [r| | |]; try contradiction. intros Hr. cbn.
  split; [|lra].
  unfold Rmax. destruct (Rle_dec 10 (r * 100)); lra.
Qed.

Lemma barStyle_zero :
  App.barStyle (Fin 0)
  = {| App.barHeight := Fin 10; App.barOpacity := Fin 0.5 |}.
Proof.
  unfold App.barStyle. cbn. f_equal; apply Fin_eq.
  - unfold Rmax. destruct (Rle_dec 10 (0 * 100)); lra.
  - lra.
Qed.

Lemma updateUI_writes (a : AudioAnalyzer) (numBars : nat) :
  pollable a ->
  (isActive a = false -> App.updateUI (Some a) numBars = (Return None, Some a))
  /\ (isActive a = true ->
      exists u a',
        App.updateUI (Some a) numBars = (Return (Some u), Some a')
        /\ same_frame_shape a a'
        /\ List.length (App.bars u) = numBars
        /\ Forall validBar (App.bars u)
        /\ (forall i, (12 <= i < numBars)%nat ->
              nth_error (App.bars u) i
              = Some {| App.barHeight := Fin 10;
                        App.barOpacity := Fin 0.5 |})).
Proof.
  intros Hp. unfold App.updateUI. split.
  - intros ->. reflexivity.
  - intros Ha. rewrite Ha. cbn [negb].
    destruct (Main_getAmplitude_pollable a Hp) as (amp & a1 & -> & S1 & _).
    destruct (Main_getFrequencyBands_pollable a1 12
                (pollable_same_shape _ _ S1 Hp))
      as (bands & a2 & -> & S2 & Lb & Ub).
    eexists. eexists. split; [reflexivity|].
    cbn [App.bars].
    split.
    { destruct S1 as (A1 & I1 & F1), S2 as (A2 & I2 & F2).
      unfold same_frame_shape. rewrite A2, A1, I2, I1.
      split; [reflexivity|]. split; [reflexivity|].
      destruct (frequencyData a), (frequencyData a1), (frequencyData a2);
        try contradiction; congruence. }
    split; [now rewrite length_map, length_seq|].
    split.
    { apply Forall_forall. intros b Hb. apply in_map_iff in Hb.
      destruct Hb as (i & <- & _).
      now apply barStyle_valid, bandOrZero_in01. }
    intros i Hi.
    rewrite nth_error_map, nth_error_seq.
    destruct (Nat.ltb_spec i numBars) as [_|Hge]; [|lia].
    cbn [option_map Nat.add]. f_equal.
    unfold App.bandOrZero.
    replace (nth_error bands i) with (@None num)
      by (symmetry; apply nth_error_None; lia).
    apply barStyle_zero.
Qed.

(** Whatever the buffer holds ([NaN] samples, too few bins), every
    frequency bar written by [updateUI] gets a height between 10 and 100
    percent and an opacity between 0.5 and 1; bars beyond the twelfth
    get exactly 10 percent and 0.5.  Without capture nothing is
    written. *)
Theorem updateUI_bars_always_valid (a : AudioAnalyzer) (numBars : nat) :
  pollable a ->
  (isActive a = false -> App.updateUI (Some a) numBars = (Return None, Some a))
  /\ (isActive a = true ->
      exists u a',
        App.updateUI (Some a) numBars = (Return (Some u), Some a')
        /\ same_frame_shape a a'
        /\ List.length (App.bars u) = numBars
        /\ Forall validBar (App.bars u)
        /\ (forall i, (12 <= i < numBars)%nat ->
              nth_error (App.bars u) i
              = Some {| App.barHeight := Fin 10;
                        App.barOpacity := Fin 0.5 |})).
Proof. exact (updateUI_writes a numBars). Qed.

(** ** The audio amplitude seen by [render] *)

Lemma div_NaN_l (y : num) : (NaN / y)%js = NaN.
Proof. now destruct y. Qed.

Lemma Main_amplitudeOf_robust (data : list num) :
  Main.amplitudeOf data = NaN \/ in_range 0 1.5 (Main.amplitudeOf data).
Proof.
  unfold Main.amplitudeOf.
  destruct (sum_loop_robust normalized90 data 0)
    as [->|(s & -> & Hs)].
  - intros x. destruct x as [a| | |].
    + right. apply normalized90_in01. discriminate.
    + right. apply normalized90_in01. discriminate.
    + right. apply normalized90_in01. discriminate.
    + now left.
  - left. rewrite div_NaN_l. unfold Math_pow.
    now rewrite (sign_of_pos 0.8) by lra.
  - unfold of_nat, div.
    destruct (sign_of_cases (INR (List.length data)))
      as [[Hd ->]|[[Hd ->]|[Hd ->]]].
    + pose proof (pos_INR (List.length data)). lra.
    + rewrite Hd in Hs. replace s with 0 by lra.
      rewrite (sign_of_zero 0 eq_refl). left. unfold Math_pow.
      now rewrite (sign_of_pos 0.8) by lra.
    + right.
      pose proof (quotient_in_unit s (INR (List.length data))
                    ltac:(lra) Hd) as Havg.
      pose proof (Math_pow_08_unit _ Havg) as Hp.
      destruct (Math_pow _ _) as [r| | |]; try contradiction.
      cbn in *. lra.
Qed.

Lemma or_else_amplitude (v : num) :
  v = NaN \/ in_range 0 1.5 v -> in_range 0 1.5 (or_else v (Fin 0)).
Proof.
  intros [->|Hv].
  - cbn. lra.
  - destruct v as [r| | |]; try contradiction. cbn in Hv.
    unfold or_else, truthy.
    destruct (sign_of_cases r) as [[H ->]|[[H ->]|[H ->]]]; cbn; lra.
Qed.

Lemma audioAmpOf_range (an : option AudioAnalyzer) :
  pollableOption an ->
  exists amp an',
    audioAmpOf an = (Return amp, an') /\ in_range 0 1.5 amp
    /\ pollableOption an'.
Proof.
  destruct an as [a|]; cbn [pollableOption audioAmpOf]; intros Hp.
  - unfold Main.getAmplitude. destruct (isActive a) eqn:Ha; cbn [negb].
    + destruct (pollable_poll a Hp Ha) as (data & Hd).
      pose proof (getFrequencyData_state a) as Hs. rewrite Hd in *.
      eexists. eexists. split; [reflexivity|].
      split; [apply or_else_amplitude, Main_amplitudeOf_robust|].
      exact (pollable_same_shape _ _ Hs Hp).
    + eexists. eexists. split; [reflexivity|].
      split; [|exact Hp]. rewrite or_else_zero. cbn. lra.
  - exists (Fin 0), None. split; [reflexivity|]. split; [cbn; lra | exact I].
Qed.

(** ** The frame loop *)



Lemma updateUI_pollable (an : option AudioAnalyzer) (numBars : nat) :
  pollableOption an ->
  exists u an',
    App.updateUI an numBars = (Return u, an') /\ pollableOption an'.
Proof.
  destruct an as [a|]; cbn [pollableOption]; intros Hp.
  - destruct (updateUI_writes a numBars Hp) as [Hin Hact].
    destruct (isActive a) eqn:Ha.
    + destruct (Hact eq_refl) as (u & a' & -> & S & _).
      eexists. eexists. split; [reflexivity|].
      exact (pollable_same_shape _ _ S Hp).
    + rewrite (Hin eq_refl). eexists. eexists. split; [reflexivity|].
      exact Hp.
  - exists None, None. split; [reflexivity | exact I].
Qed.

(** One frame of the running loop on an analyzer that cannot hit
    [null]. *)
Lemma render_running (t : num) (numBars : nat) (st : App.State) :
  App.isRunning st = true ->
  pollableOption (App.audioAnalyzer st) ->
  exists frame st',
    App.render t numBars st = (Return frame, st')
    /\ App.rearmed frame = true
    /\ App.isRunning st' = true
    /\ App.visualizer st' = App.visualizer st
    /\ App.currentMode st' = App.currentMode st
    /\ pollableOption (App.audioAnalyzer st')
    /\ (App.lastFrameTime st', App.frameCount st', App.fps st')
       = App.clockTick t (App.lastFrameTime st, App.frameCount st,
                          App.fps st)
    /\ match App.visualizer st with
       | None => App.uploaded frame = None
       | Some v =>
           exists audioAmp,
             in_range 0 1.5 audioAmp
             /\ App.uploaded frame
                = Some (uniformsOf (App.params v) (App.canvasWidth v)
                          (App.canvasHeight v) (t / Fin 1000)%js audioAmp)
       end.
Proof.
  intros Hrun Hp. unfold App.render. rewrite Hrun. cbn [negb].
  destruct (App.clockTick t _) as [[last count] published].
  assert (Hv : exists payload a1,
             App.renderVisualizer (App.visualizer st)
               (App.audioAnalyzer st) (t / Fin 1000)%js
             = (Return payload, a1)
             /\ pollableOption a1
             /\ match App.visualizer st with
                | None => payload = None
                | Some v =>
                    exists audioAmp,
                      in_range 0 1.5 audioAmp
                      /\ payload
                         = Some (uniformsOf (App.params v)
                                   (App.canvasWidth v) (App.canvasHeight v)
                                   (t / Fin 1000)%js audioAmp)
                end).
  { unfold App.renderVisualizer. destruct (App.visualizer st) as [v|].
    - destruct (audioAmpOf_range _ Hp) as (amp & a1 & Ha & Hr & Hp1).
      rewrite (render_uploads _ _ _ _ amp _ a1 Ha).
      eexists. eexists. split; [reflexivity|].
      split; [exact Hp1 | now exists amp].
    - eexists. eexists. split; [reflexivity|]. now split. }
  destruct Hv as (payload & a1 & -> & Hp1 & Hpay).
  destruct (updateUI_pollable a1 numBars Hp1) as (u & a2 & -> & Hp2).
  eexists. eexists. split; [reflexivity|].
  cbn [App.rearmed App.isRunning App.visualizer App.currentMode
       App.audioAnalyzer App.lastFrameTime App.frameCount App.fps
       App.uploaded].
  repeat split; try assumption.
Qed.



(** A frame callback of a stopped loop does nothing and does not re-arm.
    Of a running loop, on an analyzer that cannot hit [null], it returns
    normally, uploads exactly one payload, the uniforms of the current
    parameters and canvas size at time [timestamp / 1000], re-arms the
    loop, and leaves the render parameters and the mode untouched. *)
Theorem frame_callback_uploads_once_and_rearms
    (t : num) (numBars : nat) (st : App.State) (v : App.Visualizer) :
  pollableOption (App.audioAnalyzer st) ->
  App.visualizer st = Some v ->
  (App.isRunning st = false ->
     App.render t numBars st
     = (Return {| App.uploaded := None; App.ui := None;
                  App.rearmed := false |}, st))
  /\ (App.isRunning st = true ->
      exists frame st' audioAmp,
        App.render t numBars st = (Return frame, st')
        /\ App.rearmed frame = true
        /\ App.uploaded frame
           = Some (uniformsOf (App.params v) (App.canvasWidth v)
                     (App.canvasHeight v) (t / Fin 1000)%js audioAmp)
        /\ App.isRunning st' = true
        /\ App.visualizer st' = Some v
        /\ App.currentMode st' = App.currentMode st).
Proof.
  intros Hp Hv. split.
  - intros Hrun. unfold App.render. now rewrite Hrun.
  - intros Hrun.
    destruct (render_running t numBars st Hrun Hp)
      as (frame & st' & Hr & Hre & Hrun' & Hvis & Hmode & _ & _ & Hup).
    rewrite Hv in Hup, Hvis. destruct Hup as (audioAmp & _ & Hup).
    exists frame, st', audioAmp. repeat split; assumption.
Qed.

(** ** Bounds on the wave scalar *)

Lemma sin_unit (x : R) : -1 <= sin x <= 1.
Proof. apply SIN_bound. Qed.

Lemma cos_unit (x : R) : -1 <= cos x <= 1.
Proof. apply COS_bound. Qed.

Lemma mul_unit (a b : R) :
  -1 <= a <= 1 -> -1 <= b <= 1 -> -1 <= a * b <= 1.
Proof. intros Ha Hb. split; nra. Qed.

Lemma length_nonneg (v : Wgsl.vec2) : 0 <= Wgsl.length v.
Proof. unfold Wgsl.length. apply sqrt_pos. Qed.

(** [exp(-d * k)] for a distance [d >= 0] and a decay [k >= 0]. *)
Lemma fade_unit (d k : R) : 0 <= d -> 0 <= k -> 0 < exp (- d * k) <= 1.
Proof.
  intros Hd Hk. split; [apply exp_pos|].
  rewrite <- exp_0.
  destruct (Req_dec (- d * k) 0) as [->|Hne]; [lra|].
  left. apply exp_increasing. nra.
Qed.

Lemma scaled_bound (core amp k : R) :
  - k <= core <= k -> Rabs (core * amp) <= k * Rabs amp.
Proof.
  intros H. rewrite Rabs_mult.
  apply Rmult_le_compat_r; [apply Rabs_pos|].
  unfold Rabs. destruct (Rcase_abs core); lra.
Qed.

Lemma InlineShader_dispatch_unit
    (u : InlineShader.Uniforms) (m : N) (uv : Wgsl.vec2) (t : R) :
  -1 <= InlineShader.dispatch u m uv t <= 1.
Proof.
  assert (Hsine : -1 <= InlineShader.sine_case u uv t <= 1).
  { unfold InlineShader.sine_case.
    pose proof (sin_unit
      (Wgsl.vx uv * InlineShader.frequency u * 3 + t * 2)).
    pose proof (sin_unit
      (Wgsl.vx uv * InlineShader.frequency u * 5 - t * 1.5)).
    pose proof (sin_unit
      (Wgsl.vx uv * InlineShader.frequency u * 7 + t * 2.5)).
    lra. }
  assert (Hripple : -1 <= InlineShader.ripple_case u uv t <= 1).
  { unfold InlineShader.ripple_case.
    pose proof (sin_unit
      (Wgsl.length uv * InlineShader.frequency u * 10 - t * 3)).
    pose proof (fade_unit (Wgsl.length uv) 0.5 (length_nonneg uv)).
    apply mul_unit; lra. }
  assert (Hliss : -1 <= InlineShader.lissajous_case u uv t <= 1).
  { unfold InlineShader.lissajous_case.
    pose proof (mul_unit _ _
      (sin_unit (Wgsl.vx uv * InlineShader.frequency u + t))
      (cos_unit (Wgsl.vx uv * InlineShader.frequency u * 0.5 - t * 1.5))).
    pose proof (sin_unit (Wgsl.vx uv * InlineShader.frequency u * 2 + t)).
    lra. }
  assert (Hplasma : -1 <= InlineShader.plasma_case u uv t <= 1).
  { unfold InlineShader.plasma_case.
    pose proof (sin_unit (Wgsl.vx uv * InlineShader.frequency u + t)).
    pose proof (sin_unit (Wgsl.vy uv * InlineShader.frequency u + t)).
    pose proof (sin_unit
      ((Wgsl.vx uv + Wgsl.vy uv) * InlineShader.frequency u + t)).
    pose proof (sin_unit
      (Wgsl.length (Wgsl.vscale uv (InlineShader.frequency u)) - t * 2)).
    lra. }
  assert (Hsurface : -1 <= InlineShader.surface_case u uv t <= 1).
  { unfold InlineShader.surface_case. apply mul_unit.
    - apply sin_unit.
    - apply cos_unit. }
  unfold InlineShader.dispatch.
  destruct m as [|p]; [assumption|].
  do 3 (try destruct p as [p|p|]); assumption.
Qed.

(** In the inline shader the wave scalar never exceeds the amplitude
    uniform in absolute value, for every mode value, pixel and time. *)
Theorem inline_wave_within_amplitude
    (u : InlineShader.Uniforms) (uv : Wgsl.vec2) :
  Rabs (InlineShader.fs_wave u uv) <= Rabs (InlineShader.amplitude u).
Proof.
  unfold InlineShader.fs_wave.
  rewrite <- (Rmult_1_l (Rabs (InlineShader.amplitude u))).
  apply scaled_bound.
  pose proof (InlineShader_dispatch_unit u
                (Wgsl.u32_of_f32 (InlineShader.mode u + 0.1)) uv
                (InlineShader.time u * InlineShader.speed u)).
  lra.
Qed.

Lemma fract_unit (x : R) : 0 <= Wgsl.fract x < 1.
Proof.
  unfold Wgsl.fract, Wgsl.floor.
  destruct (base_Int_part x) as [H1 H2]. lra.
Qed.

Lemma mix_unit (a b t : R) :
  0 <= a <= 1 -> 0 <= b <= 1 -> 0 <= t <= 1 -> 0 <= Wgsl.mix a b t <= 1.
Proof.
  intros Ha Hb Ht. unfold Wgsl.mix.
  assert (0 <= a * (1 - t) <= 1 - t) by (split; nra).
  assert (0 <= b * t <= t) by (split; nra).
  lra.
Qed.

Lemma smoothstep_unit (f : R) : 0 <= f < 1 -> 0 <= f * f * (3 - f * 2) <= 1.
Proof.
  intros Hf.
  assert (H1 : 0 <= f * f) by nra.
  split; [apply Rmult_le_pos; lra|].
  assert (H2 : 0 <= (1 - f) * (1 - f)) by nra.
  assert (H3 : 0 <= (1 - f) * (1 - f) * (1 + 2 * f))
    by (apply Rmult_le_pos; lra).
  nra.
Qed.

Lemma noise_unit (p : Wgsl.vec2) : 0 <= WaveShader.noise p <= 1.
Proof.
  unfold WaveShader.noise.
  pose proof (fract_unit
    (sin (Wgsl.dot p (Wgsl.mkVec2 12.9898 78.233)) * 43758.5453)). lra.
Qed.

Lemma smooth_noise_unit (p : Wgsl.vec2) : 0 <= WaveShader.smooth_noise p <= 1.
Proof.
  unfold WaveShader.smooth_noise.
  cbn [Wgsl.vmul Wgsl.vsub Wgsl.vscale Wgsl.vfract Wgsl.vx Wgsl.vy].
  pose proof (smoothstep_unit _ (fract_unit (Wgsl.vx p))) as Hx.
  pose proof (smoothstep_unit _ (fract_unit (Wgsl.vy p))) as Hy.
  apply mix_unit; [apply mix_unit | apply mix_unit |];
    try apply noise_unit; assumption.
Qed.

Lemma fbm_bounds (p : Wgsl.vec2) : 0 <= WaveShader.fbm p <= 0.9375.
Proof.
  unfold WaveShader.fbm. cbn [WaveShader.fbm_loop].
  pose proof (smooth_noise_unit p).
  pose proof (smooth_noise_unit (Wgsl.vscale p 2)).
  pose proof (smooth_noise_unit (Wgsl.vscale (Wgsl.vscale p 2) 2)).
  pose proof (smooth_noise_unit
                (Wgsl.vscale (Wgsl.vscale (Wgsl.vscale p 2) 2) 2)).
  lra.
Qed.

Section WaveBounds.
Variable u : WaveShader.Uniforms.
Variables (uv : Wgsl.vec2) (t : R).

Lemma sine_waves_bound :
  Rabs (WaveShader.sine_waves u uv t) <= 1.15 * Rabs (WaveShader.amplitude u).
Proof.
  unfold WaveShader.sine_waves. apply scaled_bound.
  pose proof (sin_unit (Wgsl.vx uv * WaveShader.frequency u * 3 + t * 2)).
  pose proof (sin_unit (Wgsl.vx uv * WaveShader.frequency u * 5 - t * 1.5)).
  pose proof (sin_unit (Wgsl.vx uv * WaveShader.frequency u * 7 + t * 2.5)).
  pose proof (sin_unit (Wgsl.vx uv * WaveShader.frequency u * 11 - t * 3)).
  pose proof (sin_unit (Wgsl.vy uv * WaveShader.frequency u * 2 + t)).
  lra.
Qed.

Lemma circular_ripples_bound :
  Rabs (WaveShader.circular_ripples u uv t)
  <= 1.8 * Rabs (WaveShader.amplitude u).
Proof.
  unfold WaveShader.circular_ripples. apply scaled_bound.
  set (d1 := Wgsl.length uv).
  set (d2 := Wgsl.length (Wgsl.vsub uv (Wgsl.mkVec2 0.5 0.3))).
  set (d3 := Wgsl.length (Wgsl.vadd uv (Wgsl.mkVec2 0.4 (-0.2)))).
  pose proof (fade_unit d1 0.5 (length_nonneg _)) as F1.
  pose proof (fade_unit d2 0.7 (length_nonneg _)) as F2.
  pose proof (fade_unit d3 0.6 (length_nonneg _)) as F3.
  pose proof (sin_unit (d1 * WaveShader.frequency u * 10 - t * 3)) as S1.
  pose proof (sin_unit (d2 * WaveShader.frequency u * 8 - t * 2.5)) as S2.
  pose proof (sin_unit (d3 * WaveShader.frequency u * 9 - t * 2.8)) as S3.
  assert (F1' : 0 < exp (- d1 * 0.5) <= 1) by (apply F1; lra).
  assert (F2' : 0 < exp (- d2 * 0.7) <= 1) by (apply F2; lra).
  assert (F3' : 0 < exp (- d3 * 0.6) <= 1) by (apply F3; lra).
  clear F1 F2 F3.
  split; nra.
Qed.

Lemma lissajous_curves_bound :
  Rabs (WaveShader.lissajous_curves u uv t)
  <= 1.5 * Rabs (WaveShader.amplitude u).
Proof.
  unfold WaveShader.lissajous_curves. apply scaled_bound.
  pose proof (mul_unit _ _
    (sin_unit (3 * WaveShader.frequency u * Wgsl.vx uv + t))
    (sin_unit (2 * WaveShader.frequency u * Wgsl.vy uv + t * 0.5))).
  pose proof (mul_unit _ _
    (sin_unit (3 * WaveShader.frequency u * 1.5 * Wgsl.vx uv - t * 1.2))
    (cos_unit (2 * WaveShader.frequency u * 1.3 * Wgsl.vy uv
               + t * 0.5 * 0.8))).
  lra.
Qed.

Lemma plasma_field_bound :
  Rabs (WaveShader.plasma_field u uv t)
  <= 1.175 * Rabs (WaveShader.amplitude u).
Proof.
  unfold WaveShader.plasma_field. apply scaled_bound. cbv zeta.
  repeat match goal with
         | |- context [sin ?x] =>
             let s := fresh "s" in
             pose proof (sin_unit x); set (s := sin x) in *; clearbody s
         | |- context [WaveShader.fbm ?p] =>
             let s := fresh "f" in
             pose proof (fbm_bounds p);
             set (s := WaveShader.fbm p) in *; clearbody s
         end.
  lra.
Qed.

Lemma wave_surface_bound :
  -1 <= Wgsl.vy uv <= 1 ->
  Rabs (WaveShader.wave_surface u uv t)
  <= 3.6 * Rabs (WaveShader.amplitude u).
Proof.
  intros Hy. unfold WaveShader.wave_surface.
  cbn [Wgsl.vscale Wgsl.vx Wgsl.vy].
  set (persp := 1 / (1 + Wgsl.vy uv * 0.5)).
  set (px := Wgsl.vx uv * persp * WaveShader.frequency u).
  set (py := Wgsl.vy uv * WaveShader.frequency u).
  assert (Hp : 0 < persp <= 2).
  { unfold persp. split.
    - apply Rdiv_lt_0_compat; lra.
    - apply (Rmult_le_reg_r (1 + Wgsl.vy uv * 0.5)); [lra|].
      unfold Rdiv. rewrite Rmult_assoc, Rinv_l by lra. lra. }
  pose proof (mul_unit _ _ (sin_unit (px * 3 + t * 2))
                (cos_unit (py * 2 + t))) as H1.
  pose proof (sin_unit (px * 5 - py * 3 + t * 1.5)) as H2.
  pose proof (sin_unit ((px + py) * 2 + t * 0.8)) as H3.
  set (core := sin (px * 3 + t * 2) * cos (py * 2 + t)
               + sin (px * 5 - py * 3 + t * 1.5) * 0.5
               + sin ((px + py) * 2 + t * 0.8) * 0.3) in *.
  assert (Hc : -1.8 <= core <= 1.8) by (unfold core; lra).
  clearbody core. clear H1 H2 H3.
  replace (core * WaveShader.amplitude u * persp)
    with (core * persp * WaveShader.amplitude u) by ring.
  apply scaled_bound.
  assert (0 <= (1.8 - core) * persp) by (apply Rmult_le_pos; lra).
  assert (0 <= (core + 1.8) * persp) by (apply Rmult_le_pos; lra).
  split; nra.
Qed.

End WaveBounds.

(** In wave.wgsl the wave scalar is bounded by a multiple of the
    amplitude uniform: 1.8 times for every mode other than 4 (the modes
    outside the enum included), and 3.6 times for mode 4 on the pixels of
    the quad, where [|uv.y| <= 1]. *)
Theorem wave_wgsl_wave_within_amplitude
    (u : WaveShader.Uniforms) (uv : Wgsl.vec2) :
  (WaveShader.mode u <> 4%N ->
     Rabs (WaveShader.fs_wave u uv) <= 1.8 * Rabs (WaveShader.amplitude u))
  /\ (-1 <= Wgsl.vy uv <= 1 ->
      Rabs (WaveShader.fs_wave u uv) <= 3.6 * Rabs (WaveShader.amplitude u)).
Proof.
  set (t := WaveShader.time u * WaveShader.speed u).
  pose proof (Rabs_pos (WaveShader.amplitude u)) as Ha.
  pose proof (sine_waves_bound u uv t) as H0.
  pose proof (circular_ripples_bound u uv t) as H1.
  pose proof (lissajous_curves_bound u uv t) as H2.
  pose proof (plasma_field_bound u uv t) as H3.
  unfold WaveShader.fs_wave. fold t. unfold WaveShader.dispatch.
  split.
  - intros Hm.
    destruct (WaveShader.mode u) as [|p]; [lra|].
    do 3 (try destruct p as [p|p|]); try lra. now elim Hm.
  - intros Hy. pose proof (wave_surface_bound u uv t Hy) as H4.
    destruct (WaveShader.mode u) as [|p]; [lra|].
    do 3 (try destruct p as [p|p|]); lra.
Qed.

(** ** The audio amplitude of a frame *)

(** Whatever the buffer holds, the audio amplitude that [render] feeds
    into the effective amplitude, [getAmplitude() || 0], is a number
    between 0 and 1.5, never [NaN]: a [NaN] from [getAmplitude()] (an
    empty frame, a [NaN] sample) is replaced by 0, and so is a missing
    analyzer.  The factor [0.5 + audioAmp * 1.5] that multiplies the
    base amplitude is therefore between 0.5 and 2.75. *)
Theorem audio_amplitude_of_a_frame_is_never_NaN
    (p : RenderParams) (an : option AudioAnalyzer) :
  pollableOption an ->
  exists an' audioAmp,
    audioAmpOf an = (Return audioAmp, an')
    /\ in_range 0 1.5 audioAmp
    /\ in_range 0.5 2.75 (Fin 0.5 + audioAmp * Fin 1.5)%js
    /\ effectiveAmp p audioAmp
       = (amplitude p * (Fin 0.5 + audioAmp * Fin 1.5))%js
    /\ (forall a a',
          an = Some a -> Main.getAmplitude a = (Return NaN, a') ->
          audioAmp = Fin 0)
    /\ (an = None -> audioAmp = Fin 0).
Proof.
  intros Hp.
  destruct (audioAmpOf_range an Hp) as (amp & an' & Ha & Hr & _).
  exists an', amp.
  split; [exact Ha|]. split; [assumption|].
  split; [|split; [reflexivity|split]].
  - destruct amp as [f| | |]; try contradiction. cbn in Hr. cbn. lra.
  - intros a a' -> Hg. cbn [audioAmpOf] in Ha. rewrite Hg in Ha.
    injection Ha as <- _. reflexivity.
  - intros ->. cbn [audioAmpOf] in Ha. injection Ha as <- _. reflexivity.
Qed.

(** ** From the mode buttons to the formula *)

Lemma u32_of_f32_exact (x : R) (k : Z) :
  (0 <= k <= 4294967295)%Z -> IZR k <= x < IZR k + 1 ->
  Wgsl.u32_of_f32 x = Z.to_N k.
Proof.
  intros Hk Hx. unfold Wgsl.u32_of_f32.
  assert (H0 : 0 <= x).
  { apply Rle_trans with (IZR k); [|lra]. apply IZR_le. lia. }
  destruct (Rle_dec 0 x) as [_|Hn]; [|contradiction].
  rewrite <- (Int_part_spec x k) by lra.
  f_equal. lia.
Qed.

Lemma InlineShader_dispatch_formula
    (u : InlineShader.Uniforms) (k : nat) (uv : Wgsl.vec2) (t : R) :
  (k <= 4)%nat ->
  InlineShader.dispatch u (Z.to_N (Z.of_nat k)) uv t = inlineFormula k u uv t.
Proof.
  intros Hk.
  destruct k as [|[|[|[|[|k]]]]]; try reflexivity. lia.
Qed.

(** The selector for a sum [s] that the shader obtains for
    [uniforms.mode + 0.1], whatever the rounding, within 0.04 of the
    exact sum. *)
Lemma inline_selector_robust (k : nat) (f s : R) :
  (k <= 4)%nat ->
  INR k - 0.05 <= f <= INR k + 0.85 ->
  Rabs (s - (f + 0.1)) <= 0.04 ->
  Wgsl.u32_of_f32 s = Z.to_N (Z.of_nat k).
Proof.
  intros Hk Hf Hs.
  assert (Hb : - 0.04 <= s - (f + 0.1) <= 0.04).
  { unfold Rabs in Hs. destruct (Rcase_abs (s - (f + 0.1))); lra. }
  apply u32_of_f32_exact; [lia|].
  rewrite <- INR_IZR_INZ. lra.
Qed.

Lemma formula_of_mode (k : nat) :
  (k <= 4)%nat -> Z.to_N (Z.of_nat k) = N.of_nat k.
Proof. intros _. lia. Qed.

Lemma inline_selection_core
    (u : InlineShader.Uniforms) (uv : Wgsl.vec2) (k : nat) (f : R) :
  (k <= 4)%nat ->
  INR k - 0.05 <= f <= INR k + 0.85 ->
  InlineShader.fs_wave (InlineShader.with_mode u f) uv
  = inlineFormula k u uv (InlineShader.time u * InlineShader.speed u)
    * InlineShader.amplitude u.
Proof.
  intros Hk Hf. unfold InlineShader.fs_wave.
  cbn [InlineShader.mode InlineShader.with_mode InlineShader.time
       InlineShader.speed InlineShader.amplitude].
  rewrite (inline_selector_robust k f (f + 0.1) Hk Hf).
  - rewrite (InlineShader_dispatch_formula _ k) by assumption.
    now destruct k as [|[|[|[|[|k]]]]].
  - replace (f + 0.1 - (f + 0.1)) with 0 by lra. rewrite Rabs_R0. lra.
Qed.

(** The [+ 0.1] in [switch u32(uniforms.mode + 0.1)] makes the selection
    tolerant of rounding.  For each of the five modes [k] of the page
    and every mode value [f] from [k - 0.05] to [k + 0.85]: whatever
    value [s] within 0.04 of [f + 0.1] the shader obtains for the sum
    (the rounding of the [f32] addition and of the constant stay far
    below that), the selector [u32(s)] is [k] and the switch evaluates
    the formula of mode [k]; so does the wave scalar computed with the
    exact sum. *)
Theorem inline_mode_selection_tolerates_rounding
    (u : InlineShader.Uniforms) (uv : Wgsl.vec2) (k : nat) (f : R) :
  (k <= 4)%nat ->
  INR k - 0.05 <= f <= INR k + 0.85 ->
  (forall s t : R,
     Rabs (s - (f + 0.1)) <= 0.04 ->
     Wgsl.u32_of_f32 s = N.of_nat k
     /\ InlineShader.dispatch u (Wgsl.u32_of_f32 s) uv t
        = inlineFormula k u uv t)
  /\ InlineShader.fs_wave (InlineShader.with_mode u f) uv
     = inlineFormula k u uv (InlineShader.time u * InlineShader.speed u)
       * InlineShader.amplitude u.
Proof.
  intros Hk Hf. split; [|exact (inline_selection_core u uv k f Hk Hf)].
  intros s t Hs.
  rewrite (inline_selector_robust k f s Hk Hf Hs).
  split; [now apply formula_of_mode|].
  now apply InlineShader_dispatch_formula.
Qed.

Lemma inline_mode_selection_witness :
  (forall s t : R,
     Rabs (s - (1.85 + 0.1)) <= 0.04 ->
     Wgsl.u32_of_f32 s = N.of_nat 1
     /\ InlineShader.dispatch (sampleInlineUniforms 0)
          (Wgsl.u32_of_f32 s) (Wgsl.mkVec2 (-0.2) 0) t
        = inlineFormula 1 (sampleInlineUniforms 0) (Wgsl.mkVec2 (-0.2) 0) t)
  /\ InlineShader.fs_wave (sampleInlineUniforms 1.85) (Wgsl.mkVec2 (-0.2) 0)
     = InlineShader.ripple_case (sampleInlineUniforms 0)
         (Wgsl.mkVec2 (-0.2) 0) (0.3 * 1) * 1.
Proof.
  assert (Hk : (1 <= 4)%nat) by lia.
  assert (Hf : INR 1 - 0.05 <= 1.85 <= INR 1 + 0.85) by (cbn; lra).
  exact (inline_mode_selection_tolerates_rounding
           (sampleInlineUniforms 0) (Wgsl.mkVec2 (-0.2) 0) 1 1.85 Hk Hf).
Defined.


(** ** Colours of wave.wgsl *)

Lemma floor_spec (x : R) : Wgsl.floor x <= x < Wgsl.floor x + 1.
Proof.
  unfold Wgsl.floor. destruct (base_Int_part x) as [H1 H2]. lra.
Qed.

Lemma trunc_spec (e : R) :
  (0 <= e -> Fragment.trunc e <= e < Fragment.trunc e + 1)
  /\ (e < 0 -> Fragment.trunc e - 1 < e <= Fragment.trunc e).
Proof.
  unfold Fragment.trunc. destruct (Rle_dec 0 e) as [H|H]; split; intros H'.
  - apply floor_spec.
  - lra.
  - lra.
  - pose proof (floor_spec (- e)). lra.
Qed.

Lemma rem_of_nonneg (x y : R) :
  0 <= x -> 0 < y -> 0 <= Fragment.rem x y < y.
Proof.
  intros Hx Hy. unfold Fragment.rem.
  assert (Hq : 0 <= x / y).
  { apply Rmult_le_pos; [lra|]. left. now apply Rinv_0_lt_compat. }
  destruct (trunc_spec (x / y)) as [Ht _]. specialize (Ht Hq).
  assert (E : x = y * (x / y)) by (field; lra).
  rewrite E at 1 3. split; nra.
Qed.

Lemma rem_of_neg (x y : R) :
  x < 0 -> 0 < y -> - y < Fragment.rem x y <= 0.
Proof.
  intros Hx Hy. unfold Fragment.rem.
  assert (E : x = y * (x / y)) by (field; lra).
  assert (Hq : x / y < 0).
  { destruct (Rlt_le_dec (x / y) 0) as [H|H]; [assumption|].
    exfalso. nra. }
  destruct (trunc_spec (x / y)) as [_ Ht]. specialize (Ht Hq).
  rewrite E at 1 3. split; nra.
Qed.

Lemma rem_range (x y : R) : 0 < y -> - y < Fragment.rem x y < y.
Proof.
  intros Hy. destruct (Rle_lt_dec 0 x) as [Hx|Hx].
  - pose proof (rem_of_nonneg x y Hx Hy). lra.
  - pose proof (rem_of_neg x y Hx Hy). lra.
Qed.

Lemma normalised_hue_range (hue_shift : R) :
  0 <= Fragment.normalised_hue hue_shift < 360.
Proof.
  unfold Fragment.normalised_hue.
  pose proof (rem_range hue_shift 360 ltac:(lra)).
  apply rem_of_nonneg; lra.
Qed.

Lemma line_hue_range (u : WaveShader.Uniforms) (wave : R) (uv : Wgsl.vec2) :
  0 <= Fragment.line_hue u wave uv < 360.
Proof. apply normalised_hue_range. Qed.

(** A single [%] leaves a negative shift negative. *)
Lemma rem_keeps_small_negative (x y : R) :
  0 < y -> - y < x < 0 -> Fragment.rem x y = x.
Proof.
  intros Hy Hx. unfold Fragment.rem, Fragment.trunc.
  assert (Hq : -1 < x / y < 0).
  { assert (E : x = y * (x / y)) by (field; lra).
    split.
    - destruct (Rlt_le_dec (-1) (x / y)) as [H|H]; [assumption|].
      exfalso. nra.
    - destruct (Rlt_le_dec (x / y) 0) as [H|H]; [assumption|].
      exfalso. nra. }
  destruct (Rle_dec 0 (x / y)) as [H|_]; [lra|].
  unfold Wgsl.floor.
  rewrite <- (Int_part_spec (- (x / y)) 0) by (cbn; lra).
  cbn. lra.
Qed.

Lemma hsl2rgb_valid (h s l : R) :
  0 <= h < 360 -> 0 <= s <= 1 -> 0 <= l <= 1 ->
  all3 (fun c => 0 <= c <= 1) (Fragment.hsl2rgb h s l).
Proof.
  intros Hh Hs Hl. unfold Fragment.hsl2rgb.
  set (c := (1 - Rabs (2 * l - 1)) * s).
  set (hp := h / 60).
  set (x := c * (1 - Rabs (Fragment.rem hp 2 - 1))).
  assert (Hhp : 0 <= hp) by (unfold hp; lra).
  assert (Hc : 0 <= c /\ c <= 2 * l /\ c <= 2 - 2 * l).
  { unfold c, Rabs. destruct (Rcase_abs (2 * l - 1)); repeat split; nra. }
  assert (Hx : 0 <= x <= c).
  { unfold x. pose proof (rem_of_nonneg hp 2 Hhp ltac:(lra)) as Hr.
    unfold Rabs. destruct (Rcase_abs (Fragment.rem hp 2 - 1)); split; nra. }
  clearbody c x.
  unfold all3.
  repeat destruct (Rlt_dec hp _);
    cbn [Fragment.v3adds Fragment.c0 Fragment.c1 Fragment.c2];
    repeat split; lra.
Qed.

Lemma glow_line_unit (uv : Wgsl.vec2) (wave_height thickness : R) :
  thickness <> 0 -> 0 < Fragment.glow_line uv wave_height thickness <= 1.
Proof.
  intros Ht. unfold Fragment.glow_line.
  set (d := Rabs (Wgsl.vy uv - wave_height)).
  split; [apply exp_pos|].
  assert (Hd : 0 <= d) by apply Rabs_pos.
  assert (Hth : 0 < thickness * thickness) by nra.
  assert (Hz : - d * d / (thickness * thickness) <= 0).
  { unfold Rdiv. replace (- d * d * / (thickness * thickness))
      with (- (d * d * / (thickness * thickness))) by ring.
    apply Ropp_le_cancel. rewrite Ropp_0, Ropp_involutive.
    apply Rmult_le_pos; [nra|]. left. now apply Rinv_0_lt_compat. }
  rewrite <- exp_0. destruct Hz as [Hz|Hz].
  - left. now apply exp_increasing.
  - rewrite Hz. lra.
Qed.

Lemma pow_nonneg (a b : R) : 0 <= Fragment.pow a b.
Proof.
  unfold Fragment.pow. destruct (Rlt_dec 0 a); [|lra].
  left. unfold Rpower. apply exp_pos.
Qed.

Lemma tone_mapped_channel (c : R) :
  0 < c -> Fragment.channel (Fragment.pow (c / (c + 1)) (1 / 2.2)).
Proof.
  intros Hc. unfold Fragment.channel, Fragment.pow.
  assert (Hq : 0 < c / (c + 1) < 1).
  { split.
    - apply Rdiv_lt_0_compat; lra.
    - apply (Rmult_lt_reg_r (c + 1)); [lra|].
      unfold Rdiv. rewrite Rmult_assoc, Rinv_l by lra. lra. }
  destruct (Rlt_dec 0 (c / (c + 1))) as [_|Hn]; [|lra].
  split; [unfold Rpower; apply exp_pos|].
  assert (H1 : Rpower 1 (1 / 2.2) = 1).
  { unfold Rpower. rewrite ln_1, Rmult_0_r. apply exp_0. }
  pose proof (Rlt_Rpower_l (c / (c + 1)) 1 (1 / 2.2)) as H.
  rewrite H1 in H. apply H; lra.
Qed.

Lemma vignette_positive (in_uv : Wgsl.vec2) :
  0 <= Wgsl.vx in_uv <= 1 -> 0 <= Wgsl.vy in_uv <= 1 ->
  0.5 <= 1 - Wgsl.length (Wgsl.vadds in_uv (-0.5)) * 0.5 <= 1.
Proof.
  intros Hx Hy. pose proof (length_nonneg (Wgsl.vadds in_uv (-0.5))) as H0.
  assert (H1 : Wgsl.length (Wgsl.vadds in_uv (-0.5)) <= 1).
  { unfold Wgsl.length, Wgsl.vadds. cbn [Wgsl.vx Wgsl.vy].
    rewrite <- sqrt_1. apply sqrt_le_1_alt. nra. }
  lra.
Qed.

(** The colour channel before the vignette: line colour, second glow,
    outer glow, bloom, background and grid. *)
Lemma composed_channel_positive
    (p s k g1 g2 g3 bl bg0 bgk ay gk gi : R) :
  0 <= p <= 1 -> 0 <= s <= 1 -> 0 <= k ->
  0 < g1 -> 0 < g2 -> 0 < g3 -> 0 <= bl ->
  0.02 <= bg0 -> 0 <= bgk -> 0 <= ay <= 1 -> 0 <= gk -> 0 <= gi ->
  0 < p * g1 + s * g2 * 0.5 + k * g3 + p * (bl * 0.3)
      + (bg0 + bgk * (1 - ay)) + gk * gi.
Proof.
  intros Hp Hs Hk H1 H2 H3 Hbl Hbg Hbgk Hay Hgk Hgi.
  assert (0 <= p * g1) by (apply Rmult_le_pos; lra).
  assert (0 <= s * g2) by (apply Rmult_le_pos; lra).
  assert (0 <= k * g3) by (apply Rmult_le_pos; lra).
  assert (0 <= p * (bl * 0.3)) by (apply Rmult_le_pos; lra).
  assert (0 <= bgk * (1 - ay)) by (apply Rmult_le_pos; lra).
  assert (0 <= gk * gi) by (apply Rmult_le_pos; lra).
  lra.
Qed.

(** In exact real arithmetic, for every uniform block with a non-zero
    [resolution.y] and every pixel of the quad ([uv] in the unit
    square), [fs_main] of wave.wgsl returns a colour whose three
    channels are strictly between 0 and 1, with alpha 1: the hue is
    normalised into [[0, 360)] before the conversion, every term added
    to the colour is non-negative, the background is positive, and tone
    mapping and gamma keep a positive value below 1. *)
Theorem wave_wgsl_pixel_colour_is_valid
    (u : WaveShader.Uniforms) (in_uv : Wgsl.vec2) :
  Wgsl.vy (WaveShader.resolution u) <> 0 ->
  0 <= Wgsl.vx in_uv <= 1 ->
  0 <= Wgsl.vy in_uv <= 1 ->
  exists world_pos colour,
    Fragment.vs_world_pos u in_uv = Some world_pos
    /\ -1 <= Wgsl.vy world_pos <= 1
    /\ Fragment.pixel u in_uv = Some colour
    /\ colour = Fragment.fs_main u in_uv world_pos
    /\ all3 Fragment.channel (Fragment.rgb colour)
    /\ Fragment.alpha colour = 1.
Proof.
  intros Hres Hx Hy.
  unfold Fragment.pixel, Fragment.vs_world_pos.
  destruct (Req_dec_T (Wgsl.vy (WaveShader.resolution u)) 0) as [E|_];
    [contradiction|].
  set (wp := Wgsl.vmul (Wgsl.vadds (Wgsl.vscale in_uv 2) (-1))
               (Wgsl.mkVec2 (Wgsl.vx (WaveShader.resolution u)
                             / Wgsl.vy (WaveShader.resolution u)) 1)).
  assert (Hwy : -1 <= Wgsl.vy wp <= 1).
  { unfold wp.
    cbn [Wgsl.vmul Wgsl.vadds Wgsl.vscale Wgsl.vx Wgsl.vy]. lra. }
  exists wp, (Fragment.fs_main u in_uv wp).
  split; [reflexivity|]. split; [exact Hwy|].
  split; [reflexivity|]. split; [reflexivity|].
  split; [|reflexivity].
  unfold Fragment.fs_main. cbv zeta.
  set (wave := WaveShader.fs_wave u wp).
  set (g1 := Fragment.glow_line wp (wave * 0.5) 0.08).
  set (g2 := Fragment.glow_line wp (wave * 0.5) (0.08 * 3)).
  set (g3 := Fragment.glow_line wp (wave * 0.5) (0.08 * 8)).
  set (hue := Fragment.line_hue u wave wp).
  set (P := Fragment.hsl2rgb hue 0.9 (0.5 + g1 * 0.3)).
  set (S := Fragment.hsl2rgb (Fragment.rem (hue + 180) 360) 0.8 0.4).
  set (bl := Fragment.bloom (g1 + g2 * 0.5 + g3 * 0.2) 2).
  set (gi := (sin (Wgsl.vx wp * 50) * sin (Wgsl.vy wp * 50) * 0.5 + 0.5)
             * 0.02).
  set (vig := 1 - Wgsl.length (Wgsl.vadds in_uv (-0.5)) * 0.5).
  assert (G1 : 0 < g1 <= 1) by (apply glow_line_unit; lra).
  assert (G2 : 0 < g2 <= 1) by (apply glow_line_unit; lra).
  assert (G3 : 0 < g3 <= 1) by (apply glow_line_unit; lra).
  assert (Hhue : 0 <= hue < 360) by apply line_hue_range.
  assert (HP : all3 (fun c => 0 <= c <= 1) P)
    by (apply hsl2rgb_valid; lra).
  assert (HS : all3 (fun c => 0 <= c <= 1) S).
  { apply hsl2rgb_valid; try lra. apply rem_of_nonneg; lra. }
  assert (Hbl : 0 <= bl) by apply pow_nonneg.
  assert (Hgi : 0 <= gi).
  { unfold gi.
    pose proof (mul_unit _ _ (sin_unit (Wgsl.vx wp * 50))
                  (sin_unit (Wgsl.vy wp * 50))). lra. }
  assert (Hay : 0 <= Rabs (Wgsl.vy wp) <= 1).
  { split; [apply Rabs_pos|].
    unfold Rabs. destruct (Rcase_abs _); lra. }
  assert (Hvig : 0.5 <= vig <= 1) by now apply vignette_positive.
  destruct HP as (P0 & P1 & P2), HS as (S0 & S1 & S2).
  clearbody wp g1 g2 g3 bl gi vig P S.
  unfold all3.
  cbn [Fragment.rgb Fragment.v3map Fragment.v3scale Fragment.v3add
       Fragment.c0 Fragment.c1 Fragment.c2].
  split; [|split]; apply tone_mapped_channel;
    (apply Rmult_lt_0_compat; [|lra]).
  - apply composed_channel_positive; lra.
  - apply composed_channel_positive; lra.
  - apply composed_channel_positive; lra.
Qed.

(** ** Bootstrap *)

Lemma init_analysis_inactive (b : Lifecycle.Browser) :
  isActive (Lifecycle.analysis
              (snd (Lifecycle.init (-90) (-30) b Lifecycle.newObject)))
  = false.
Proof.
  unfold Lifecycle.init. now destruct (Lifecycle.newAudioContext b).
Qed.

Lemma inactive_pollable (a : AudioAnalyzer) :
  isActive a = false -> pollable a.
Proof. intros H Ha. congruence. Qed.

(** The frame loop is scheduled exactly when WebGPU, an adapter and a
    device are all available, and the error modal is shown exactly when
    it is not; the audio side has no say in it.  The progress bar is
    not touched without WebGPU, stops at 70 when the adapter or the
    device is missing, and reaches 100 otherwise.  Without WebGPU
    nothing is stored; with it the page stores the analyzer [init()]
    leaves, which is inactive.  When the loop is scheduled the visualizer holds
    the size of the window and, for each of amplitude, frequency, speed
    and hue, the value of its slider, or the default 1, 3, 1, 180 if
    the slider is missing, with mode 0; the first frame after
    [startRenderLoop] returns normally, re-arms the loop, updates no
    meter and hands over these parameters with an audio amplitude
    of 0. *)
Theorem page_starts_exactly_when_gpu_is_ready
    (env : Bootstrap.Environment) (now t : num) (numBars : nat) :
  let page := Bootstrap.init env in
  let stored :=
    Lifecycle.analysis
      (snd (Lifecycle.init (-90) (-30) (Bootstrap.audio env)
              Lifecycle.newObject)) in
  Bootstrap.loopScheduled page
  = Bootstrap.gpu env && Bootstrap.adapterFound env
    && Bootstrap.deviceGranted env
  /\ Bootstrap.errorShown page = negb (Bootstrap.loopScheduled page)
  /\ Bootstrap.progress page
     = (if negb (Bootstrap.gpu env) then None
        else if Bootstrap.loopScheduled page then Some 100%nat
        else Some 70%nat)
  /\ App.isRunning (Bootstrap.state page) = false
  /\ (Bootstrap.gpu env = false ->
      Bootstrap.state page = Bootstrap.initialState)
  /\ (Bootstrap.gpu env = true ->
      App.audioAnalyzer (Bootstrap.state page) = Some stored
      /\ isActive stored = false)
  /\ (Bootstrap.loopScheduled page = false ->
      App.visualizer (Bootstrap.state page) = None)
  /\ (Bootstrap.loopScheduled page = true ->
      exists v,
        App.visualizer (Bootstrap.state page) = Some v
        /\ App.canvasWidth v = Bootstrap.innerWidth env
        /\ App.canvasHeight v = Bootstrap.innerHeight env
        /\ amplitude (App.params v)
           = match Bootstrap.amplitudeSlider env with
             | Some value => value
             | None => Fin 1
             end
        /\ frequency (App.params v)
           = match Bootstrap.frequencySlider env with
             | Some value => value
             | None => Fin 3
             end
        /\ speed (App.params v)
           = match Bootstrap.speedSlider env with
             | Some value => value
             | None => Fin 1
             end
        /\ hue (App.params v)
           = match Bootstrap.hueSlider env with
             | Some value => value
             | None => Fin 180
             end
        /\ mode (App.params v) = Fin 0
        /\ exists frame st',
             App.render t numBars
               (App.startRenderLoop now (Bootstrap.state page))
             = (Return frame, st')
             /\ App.rearmed frame = true
             /\ App.ui frame = None
             /\ App.uploaded frame
                = Some (uniformsOf (App.params v) (Bootstrap.innerWidth env)
                          (Bootstrap.innerHeight env) (t / Fin 1000)%js
                          (Fin 0))
             /\ App.audioAnalyzer st' = Some stored).
Proof.
  intros page stored. unfold page, Bootstrap.init.
  pose proof (init_analysis_inactive (Bootstrap.audio env)) as Hin.
  fold stored in Hin. fold stored.
  destruct (Bootstrap.gpu env); cbn [negb andb].
  2:{ cbn [Bootstrap.loopScheduled Bootstrap.errorShown Bootstrap.state
           Bootstrap.progress negb Bootstrap.initialState App.isRunning
           App.visualizer].
      repeat split; discriminate. }
  destruct (Bootstrap.adapterFound env), (Bootstrap.deviceGranted env);
    cbn [andb Bootstrap.loopScheduled Bootstrap.errorShown Bootstrap.state
         Bootstrap.progress negb];
    (split; [reflexivity|]); (split; [reflexivity|]);
    (split; [reflexivity|]); (split; [reflexivity|]);
    (split; [discriminate|]);
    (split; [intros _; split; [reflexivity | exact Hin]|]);
    (split; [try discriminate; intros _; reflexivity|]);
    try discriminate.
  intros _.
  eexists.
  split; [reflexivity|].
  cbn [App.canvasWidth App.canvasHeight App.params].
  split; [reflexivity|]. split; [reflexivity|].
  unfold Bootstrap.setupSlider.
  split; [|split; [|split; [|split; [|split]]]].
  1-5: destruct (Bootstrap.hueSlider env), (Bootstrap.speedSlider env),
         (Bootstrap.frequencySlider env), (Bootstrap.amplitudeSlider env);
       reflexivity.
  unfold App.render, App.startRenderLoop.
  cbn [App.isRunning negb App.lastFrameTime App.frameCount App.fps
       Bootstrap.with_visualizer Bootstrap.with_audioAnalyzer
       Bootstrap.initialState App.visualizer App.audioAnalyzer
       App.currentMode].
  destruct (App.clockTick t _) as [[last count] published].
  unfold App.renderVisualizer.
  cbn [App.params App.canvasWidth App.canvasHeight].
  rewrite (render_uploads _ _ _ _ (Fin 0) (Some stored) (Some stored)
             (audioAmpOf_inactive stored Hin)).
  unfold App.updateUI. rewrite Hin. cbn [negb].
  eexists. eexists. split; [reflexivity|].
  cbn [App.rearmed App.ui App.uploaded App.audioAnalyzer].
  repeat split.
Qed.

(** ** Silence and full scale *)

Lemma sum_loop_const {A : Type} (f : A -> num) (l : list A) (c s0 : R) :
  Forall (fun a => f a = Fin c) l ->
  fold_left (fun sum a => (sum + f a)%js) l (Fin s0)
  = Fin (s0 + c * INR (List.length l)).
Proof.
  revert s0. induction l as [|a l IH]; intros s0 Hl.
  - cbn. apply Fin_eq. lra.
  - inversion Hl as [|? ? Ha Hl']; subst.
    cbn [fold_left]. rewrite Ha. cbn [add]. rewrite (IH _ Hl').
    apply Fin_eq. change (List.length (a :: l)) with (S (List.length l)).
    rewrite S_INR. lra.
Qed.

Lemma normalized100_floor (x : num) :
  num_le x (Fin (-100)) -> normalized100 x = Fin 0.
Proof.
  destruct x as [a| | |]; cbn [num_le]; intros H; try contradiction.
  - rewrite normalized100_Fin. apply Fin_eq, Rclamp_low.
    unfold Rdiv. nra.
  - apply normalized100_NInf.
Qed.

Lemma normalized90_floor (x : num) :
  num_le x (Fin (-90)) -> normalized90 x = Fin 0.
Proof.
  destruct x as [a| | |]; cbn [num_le]; intros H; try contradiction.
  - rewrite normalized90_Fin. apply Fin_eq, Rclamp_low.
    unfold Rdiv. nra.
  - apply normalized90_NInf.
Qed.

Lemma normalized100_ceiling (x : num) :
  num_le (Fin 0) x -> normalized100 x = Fin 1.
Proof.
  destruct x as [a| | |]; cbn [num_le]; intros H; try contradiction.
  - rewrite normalized100_Fin. apply Fin_eq, Rclamp_high.
    unfold Rdiv. nra.
  - apply normalized100_PInf.
Qed.

Lemma normalized90_ceiling (x : num) :
  num_le (Fin (-30)) x -> normalized90 x = Fin 1.
Proof.
  destruct x as [a| | |]; cbn [num_le]; intros H; try contradiction.
  - rewrite normalized90_Fin. apply Fin_eq, Rclamp_high.
    unfold Rdiv. nra.
  - apply normalized90_PInf.
Qed.

(** A frame on which every sample normalises to the same value [c]. *)
Lemma constant_frame_features (data : list num) (n : nat) (c : R) :
  (1 <= List.length data)%nat ->
  Forall (fun x => normalized100 x = Fin c) data ->
  (fold_left (fun sum x => (sum + normalized100 x)%js) data (Fin 0)
   / of_nat (List.length data))%js = Fin c
  /\ ((1 <= n <= List.length data)%nat ->
      bandsOf data n = repeat (Fin c) n).
Proof.
  intros Hlen Hc.
  assert (Hk : 0 < INR (List.length data)) by (apply lt_0_INR; lia).
  split.
  - rewrite (sum_loop_const normalized100 data c 0 Hc).
    unfold of_nat. rewrite div_fin_pos by assumption.
    apply Fin_eq. field. lra.
  - intros Hn. unfold bandsOf.
    set (spb := samplesPerBand (List.length data) n).
    assert (Hpos : (1 <= spb)%nat) by now apply samplesPerBand_pos.
    pose proof (samplesPerBand_total (List.length data) n) as Htot.
    fold spb in Htot.
    rewrite <- (length_seq n 0) at 2. rewrite <- map_constant.
    apply map_ext_in. intros i Hi. apply in_seq in Hi.
    unfold bandValue, spb.
    rewrite (bandDivisor_inside _ _ i) by lia.
    rewrite (bandIndices_inside _ _ i) by lia. fold spb.
    rewrite (sum_loop_const (fun j => normalized100 (at_index data j))
               (seq (i * spb) spb) c 0).
    + rewrite length_seq. unfold of_Z. rewrite <- INR_IZR_INZ.
      assert (Hs : 0 < INR spb) by (apply lt_0_INR; lia).
      rewrite div_fin_pos by assumption. apply Fin_eq. field. lra.
    + apply Forall_forall. intros j Hj. apply in_seq in Hj.
      rewrite Forall_forall in Hc. apply Hc. unfold at_index.
      apply nth_In. nia.
Qed.

(** Digital silence does not produce [NaN]: on a frame of at least one
    bin whose samples are all at or below -100 dB ([-Infinity]
    included), both copies of [getAmplitude] give 0 and every band of
    [getFrequencyBands(n)], [1 <= n <= bins], is 0.  On a frame whose
    samples are all at or above 0 dB the stand-alone [getAmplitude]
    gives 1, the copy in main.js gives 1.5 and every band is 1. *)
Theorem silent_and_full_scale_frames (data : list num) (n : nat) :
  (1 <= List.length data)%nat ->
  (Forall (fun x => num_le x (Fin (-100))) data ->
     Audio.amplitudeOf data = Fin 0
     /\ Main.amplitudeOf data = Fin 0
     /\ ((1 <= n <= List.length data)%nat ->
         bandsOf data n = repeat (Fin 0) n))
  /\ (Forall (fun x => num_le (Fin 0) x) data ->
      Audio.amplitudeOf data = Fin 1
      /\ Main.amplitudeOf data = Fin 1.5
      /\ ((1 <= n <= List.length data)%nat ->
          bandsOf data n = repeat (Fin 1) n)).
Proof.
  intros Hlen.
  assert (Hk : 0 < INR (List.length data)) by (apply lt_0_INR; lia).
  split; intros Hd.
  - assert (H100 : Forall (fun x => normalized100 x = Fin 0) data).
    { eapply Forall_impl; [|exact Hd]. exact normalized100_floor. }
    assert (H90 : Forall (fun x => normalized90 x = Fin 0) data).
    { eapply Forall_impl; [|exact Hd]. intros x Hx.
      apply normalized90_floor.
      destruct x as [a| | |]; cbn [num_le] in *; try contradiction; lra. }
    destruct (constant_frame_features data n 0 Hlen H100) as [Ha Hb].
    split; [|split; [|exact Hb]].
    + unfold Audio.amplitudeOf. rewrite Ha. cbn. apply Fin_eq.
      unfold Rmin. destruct (Rle_dec 1 0); lra.
    + unfold Main.amplitudeOf.
      rewrite (sum_loop_const normalized90 data 0 0 H90).
      unfold of_nat. rewrite div_fin_pos by assumption.
      replace ((0 + 0 * INR (List.length data)) / INR (List.length data))
        with 0 by (field; lra).
      unfold Math_pow.
      rewrite (sign_of_pos 0.8), (sign_of_zero 0 eq_refl) by lra.
      cbn. apply Fin_eq. lra.
  - assert (H100 : Forall (fun x => normalized100 x = Fin 1) data).
    { eapply Forall_impl; [|exact Hd]. exact normalized100_ceiling. }
    assert (H90 : Forall (fun x => normalized90 x = Fin 1) data).
    { eapply Forall_impl; [|exact Hd]. intros x Hx.
      apply normalized90_ceiling.
      destruct x as [a| | |]; cbn [num_le] in *; try contradiction; lra. }
    destruct (constant_frame_features data n 1 Hlen H100) as [Ha Hb].
    split; [|split; [|exact Hb]].
    + unfold Audio.amplitudeOf. rewrite Ha. cbn. apply Fin_eq.
      unfold Rmin. destruct (Rle_dec 1 1); lra.
    + unfold Main.amplitudeOf.
      rewrite (sum_loop_const normalized90 data 1 0 H90).
      unfold of_nat. rewrite div_fin_pos by assumption.
      replace ((0 + 1 * INR (List.length data)) / INR (List.length data))
        with 1 by (field; lra).
      unfold Math_pow. rewrite (sign_of_pos 0.8), (sign_of_pos 1) by lra.
      cbn [mul]. apply Fin_eq.
      unfold Rpower. rewrite ln_1, Rmult_0_r, exp_0. lra.
Qed.

(** In exact real arithmetic, the normalisation
    [(hue_shift % 360.0 + 360.0) % 360.0] of wave.wgsl maps every
    [hue_shift], the negative ones included, into [[0, 360)], where a
    single [% 360.0] would leave a shift between -360 and 0 as it is;
    and [hsl2rgb] (the same text in both shaders) maps every hue of
    that range, with saturation and lightness in [[0,1]], to three
    components in [[0,1]]. *)
Theorem normalised_hue_gives_valid_rgb (hue_shift s l : R) :
  0 <= s <= 1 ->
  0 <= l <= 1 ->
  0 <= Fragment.normalised_hue hue_shift < 360
  /\ (-360 < hue_shift < 0 -> Fragment.rem hue_shift 360 = hue_shift)
  /\ all3 (fun c => 0 <= c <= 1)
          (Fragment.hsl2rgb (Fragment.normalised_hue hue_shift) s l)
  /\ (forall h, 0 <= h < 360 ->
        all3 (fun c => 0 <= c <= 1) (Fragment.hsl2rgb h s l)).
Proof.
  intros Hs Hl.
  pose proof (normalised_hue_range hue_shift) as Hh.
  split; [exact Hh|].
  split; [intros Hn; apply rem_keeps_small_negative; lra|].
  split; [now apply hsl2rgb_valid|].
  intros h Hh'. now apply hsl2rgb_valid.
Qed.

(** ** Instances *)

Lemma analyzerOn_pollable (node : AnalyserNode) : pollable (analyzerOn node).
Proof. intros _. eexists. eexists. split; reflexivity. Qed.

Lemma normalised_hue_witness :
  0 <= Fragment.normalised_hue (-90) < 360
  /\ Fragment.rem (-90) 360 = -90.
Proof.
  assert (Hs : 0 <= 0.9 <= 1) by lra.
  assert (Hl : 0 <= 0.5 <= 1) by lra.
  assert (Hn : -360 < -90 < 0) by lra.
  destruct (normalised_hue_gives_valid_rgb (-90) 0.9 0.5 Hs Hl)
    as (H1 & H2 & _).
  split; [exact H1 | exact (H2 Hn)].
Defined.

Lemma louder_frame_witness :
  num_le (Audio.amplitudeOf [Fin (-100); NInf])
         (Audio.amplitudeOf [Fin (-10); Fin (-10)]).
Proof.
  assert (Hq : Forall2 num_le [Fin (-100); NInf] [Fin (-10); Fin (-10)]).
  { repeat constructor. cbn. lra. }
  assert (Hlen : (1 <= List.length [Fin (-100); NInf])%nat) by (cbn; lia).
  exact (proj1 (louder_frame_never_lowers_features
                  [Fin (-100); NInf] [Fin (-10); Fin (-10)] 2 Hq Hlen)).
Defined.

Lemma silent_frame_witness :
  Audio.amplitudeOf [NInf; Fin (-120)] = Fin 0
  /\ Main.amplitudeOf [NInf; Fin (-120)] = Fin 0.
Proof.
  assert (Hlen : (1 <= List.length [NInf; Fin (-120)])%nat) by (cbn; lia).
  assert (Hs : Forall (fun x => num_le x (Fin (-100))) [NInf; Fin (-120)]).
  { repeat constructor. cbn. lra. }
  destruct (proj1 (silent_and_full_scale_frames [NInf; Fin (-120)] 1 Hlen) Hs)
    as (H1 & H2 & _).
  split; assumption.
Defined.

Lemma updateUI_bars_witness :
  exists u a',
    App.updateUI (Some (analyzerOn (mainNode scenarioFrame))) 12
    = (Return (Some u), Some a')
    /\ Forall validBar (App.bars u).
Proof.
  destruct (proj2 (updateUI_bars_always_valid
                     (analyzerOn (mainNode scenarioFrame)) 12
                     (analyzerOn_pollable _)) eq_refl)
    as (u & a' & H1 & _ & _ & H4 & _).
  exists u, a'. split; assumption.
Defined.


Lemma frame_callback_witness :
  exists frame st' audioAmp,
    App.render (Fin 16) 12 samplePage = (Return frame, st')
    /\ App.rearmed frame = true
    /\ App.uploaded frame
       = Some (uniformsOf initialParams (Fin 800) (Fin 600)
                 (Fin 16 / Fin 1000)%js audioAmp).
Proof.
  destruct (proj2 (frame_callback_uploads_once_and_rearms (Fin 16) 12
                     samplePage _ (analyzerOn_pollable _) eq_refl) eq_refl)
    as (frame & st' & amp & H1 & H2 & H3 & _).
  exists frame, st', amp. repeat split; assumption.
Defined.

Lemma audio_amplitude_witness :
  exists an' audioAmp,
    audioAmpOf (Some (analyzerOn (mainNode scenarioFrame)))
    = (Return audioAmp, an')
    /\ in_range 0 1.5 audioAmp
    /\ in_range 0.5 2.75 (Fin 0.5 + audioAmp * Fin 1.5)%js.
Proof.
  destruct (audio_amplitude_of_a_frame_is_never_NaN initialParams
              (Some (analyzerOn (mainNode scenarioFrame)))
              (analyzerOn_pollable _))
    as (an' & amp & H1 & H2 & H3 & _).
  exists an', amp. split; [exact H1|]. split; [exact H2 | exact H3].
Defined.


Lemma pixel_colour_witness :
  exists world_pos colour,
    Fragment.pixel (sampleWaveUniforms 0) (Wgsl.mkVec2 0.5 0.5)
    = Some colour
    /\ colour
       = Fragment.fs_main (sampleWaveUniforms 0) (Wgsl.mkVec2 0.5 0.5)
           world_pos
    /\ all3 Fragment.channel (Fragment.rgb colour).
Proof.
  assert (H : 0 <= 0.5 <= 1) by lra.
  assert (Hres : Wgsl.vy (WaveShader.resolution (sampleWaveUniforms 0)) <> 0)
    by (cbn; lra).
  destruct (wave_wgsl_pixel_colour_is_valid (sampleWaveUniforms 0)
              (Wgsl.mkVec2 0.5 0.5) Hres H H)
    as (wp & colour & _ & _ & H3 & H4 & H5 & _).
  exists wp, colour.
  split; [exact H3|]. split; [exact H4 | exact H5].
Defined.
